(** * Conditional Restricted Boltzmann Machine (crbm.py)

    A shallow embedding of the class [CRBM] of [crbm.py] and the
    properties of its energy function, its Gibbs transitions and its
    CD-k update.

    Conventions of the embedding.
    - Numbers of dtype [floatX] are real numbers ([R]); rounding is not
      modelled.
    - A one-dimensional array is a [list R], a two-dimensional array the
      list of its rows.  Theano raises when the shapes of two operands do
      not agree; the operations below are total (a missing entry counts
      as zero) and agree with Theano's on operands of agreeing shapes.
      The theorems that depend on shapes carry them as hypotheses.
    - A symbolic Theano expression is modelled by its value under the
      current values of the shared variables and of the inputs.
    - The random stream of [theano_rng] is an oracle: a sequence of
      uniform draws and a position in it.
    - [T.grad] is modelled by the derivatives it computes for the cost
      of CD, written out; [T_grad_is_gradient] proves that they are the
      gradient of that cost.
    - [k] is an integer ([Z]); [theano.scan] takes no step when
      [n_steps] is below 1.
    - The methods on the sampling path are written in a state and error
      monad over the object [self]; the others are functions of
      [self]. *)

From Stdlib Require Import Reals Lra Lia List ZArith Bool.
Import ListNotations.
Local Open Scope R_scope.

(** ** Arrays *)

Definition vector := list R.
Definition matrix := list vector.

(** Elementwise combination of two arrays of one dimension. *)
Fixpoint ewise (f : R -> R -> R) (u v : vector) : vector :=
  match u, v with
  | [], _ => map (f 0) v
  | _, [] => map (fun x => f x 0) u
  | x :: u', y :: v' => f x y :: ewise f u' v'
  end.

Definition vadd : vector -> vector -> vector := ewise Rplus.
Definition vsub : vector -> vector -> vector := ewise Rminus.
Definition vscale (c : R) (v : vector) : vector := map (Rmult c) v.

(** Elementwise combination of two arrays of two dimensions. *)
Fixpoint mewise (f : R -> R -> R) (a b : matrix) : matrix :=
  match a, b with
  | [], _ => map (map (f 0)) b
  | _, [] => map (map (fun x => f x 0)) a
  | r :: a', s :: b' => ewise f r s :: mewise f a' b'
  end.

Definition madd : matrix -> matrix -> matrix := mewise Rplus.
Definition msub : matrix -> matrix -> matrix := mewise Rminus.
Definition mmap (f : R -> R) (a : matrix) : matrix := map (map f) a.
Definition mscale (c : R) (a : matrix) : matrix := mmap (Rmult c) a.

(** A matrix plus a vector: the vector is broadcast over the rows. *)
Definition add_row (a : matrix) (b : vector) : matrix :=
  map (fun r => vadd r b) a.

Definition Rsum (v : vector) : R := fold_right Rplus 0 v.

Definition vdot (u v : vector) : R := Rsum (ewise Rmult u v).

(** Row vector times matrix: the combination of the rows of [n] with the
    entries of [m] as coefficients. *)
Fixpoint vecmat (m : vector) (n : matrix) : vector :=
  match m, n with
  | x :: m', r :: n' => vadd (vscale x r) (vecmat m' n')
  | _, _ => []
  end.

Definition ncols (a : matrix) : nat := length (hd [] a).

Definition column (j : nat) (a : matrix) : vector :=
  map (fun r => nth j r 0) a.

Declare Scope tensor_scope.
Delimit Scope tensor_scope with tensor.
Infix "+m" := madd (at level 50, left associativity) : tensor_scope.
Infix "-m" := msub (at level 50, left associativity) : tensor_scope.
Infix "+r" := add_row (at level 50, left associativity) : tensor_scope.
Infix "*m" := mscale (at level 40, left associativity) : tensor_scope.
Local Open Scope tensor_scope.

(** ** The operations of [theano.tensor] the class uses *)

Module T.

(** [T.dot] of two matrices. *)
Definition dot (a b : matrix) : matrix := map (fun m => vecmat m b) a.

(** The attribute [.T] of a matrix. *)
Definition transpose (a : matrix) : matrix :=
  map (fun j => column j a) (seq 0 (ncols a)).

Definition sqr : matrix -> matrix := mmap Rsqr.
Definition exp : matrix -> matrix := mmap Rtrigo_def.exp.
Definition log : matrix -> matrix := mmap ln.

(** [T.sum(_, axis=1)]: one sum per row. *)
Definition sum_axis1 (a : matrix) : vector := map Rsum a.

(** [T.mean] of a vector. *)
Definition mean (v : vector) : R := Rsum v / INR (length v).

(** [T.nnet.sigmoid]. *)
Definition sigmoid1 (x : R) : R := 1 / (1 + Rtrigo_def.exp (- x)).
Definition sigmoid : matrix -> matrix := mmap sigmoid1.

End T.

(** ** Random streams *)

Record RandomStreams : Type := mkRandomStreams {
  draws : nat -> R;    (* the uniform draws of the generator, in [0, 1) *)
  pos : nat            (* how many of them have been used *)
}.

(** One Bernoulli trial with success probability [p], decided by the
    uniform draw [u]. *)
Definition bernoulli (u p : R) : R :=
  if Rlt_dec u p then 1 else 0.

Fixpoint binomial_vector (g : nat -> R) (n : nat) (p : vector)
  : vector * nat :=
  match p with
  | [] => ([], n)
  | x :: p' =>
      let '(rest, n') := binomial_vector g (S n) p' in
      (bernoulli (g n) x :: rest, n')
  end.

Fixpoint binomial_matrix (g : nat -> R) (n : nat) (p : matrix)
  : matrix * nat :=
  match p with
  | [] => ([], n)
  | r :: p' =>
      let '(row, n1) := binomial_vector g n r in
      let '(rest, n2) := binomial_matrix g n1 p' in
      (row :: rest, n2)
  end.

(** [theano_rng.binomial(size=p.shape, n=1, p=p)]: an array of the shape
    of [p], one trial and one draw per entry. *)
Definition binomial (rng : RandomStreams) (p : matrix)
  : matrix * RandomStreams :=
  let '(sample, n) := binomial_matrix (draws rng) (pos rng) p in
  (sample, mkRandomStreams (draws rng) n).

(** ** Results and the monad of the methods *)

Inductive exn : Type :=
| IndexError     (* index out of bounds *)
| ValueError.    (* an argument of an invalid value *)

Inductive result (X : Type) : Type :=
| Ok (x : X)
| Err (e : exn).
Arguments Ok {X} x.
Arguments Err {X} e.

(** Python's [l[-1]]. *)
Definition last_item {X : Type} (l : list X) : result X :=
  match rev l with
  | x :: _ => Ok x
  | [] => Err IndexError
  end.

(** ** Shared variables, tensors and the update dictionary *)

(** The parameters of a model, as the elements of [self.params]. *)
Inductive parameter : Type := pW | pA | pB | phbias | pvbias.

Definition parameter_eqb (a b : parameter) : bool :=
  match a, b with
  | pW, pW | pA, pA | pB, pB | phbias, phbias | pvbias, pvbias => true
  | _, _ => false
  end.

(** The shared variables that an update dictionary can hold: the
    parameters and the state of the random stream. *)
Inductive shared : Type :=
| Param (p : parameter)
| StateOf_theano_rng.

Definition shared_eqb (a b : shared) : bool :=
  match a, b with
  | Param p, Param q => parameter_eqb p q
  | StateOf_theano_rng, StateOf_theano_rng => true
  | _, _ => false
  end.

Inductive tensor : Type :=
| Vector (v : vector)
| Matrix (m : matrix).

(** [t - u] and [t * c] on tensors; a vector is broadcast over the rows
    of a matrix. *)
Definition tensor_sub (t u : tensor) : tensor :=
  match t, u with
  | Vector a, Vector b => Vector (vsub a b)
  | Matrix a, Matrix b => Matrix (a -m b)
  | Matrix a, Vector b => Matrix (map (fun r => vsub r b) a)
  | Vector a, Matrix b => Matrix (map (fun r => vsub a r) b)
  end.

Definition tensor_mul (t : tensor) (c : R) : tensor :=
  match t with
  | Vector a => Vector (map (fun x => x * c) a)
  | Matrix a => Matrix (mmap (fun x => x * c) a)
  end.

(** What an update dictionary maps a shared variable to. *)
Inductive new_value : Type :=
| NewTensor (t : tensor)
| NewState (rng : RandomStreams).

(** An [OrderedDict] keyed by shared variables. *)
Definition updates_dict := list (shared * new_value).

Fixpoint dict_set (d : updates_dict) (key : shared) (v : new_value)
  : updates_dict :=
  match d with
  | [] => [(key, v)]
  | (key', v') :: d' =>
      if shared_eqb key' key then (key', v) :: d'
      else (key', v') :: dict_set d' key v
  end.

Fixpoint dict_get (d : updates_dict) (key : shared) : option new_value :=
  match d with
  | [] => None
  | (key', v') :: d' =>
      if shared_eqb key' key then Some v' else dict_get d' key
  end.

(** ** The class [CRBM] *)

Module CRBM.

(** The attributes of an instance. *)
Record t : Type := mk {
  n_visible : nat;
  n_hidden : nat;
  delay : nat;
  input : matrix;
  input_history : matrix;
  W : matrix;
  A : matrix;
  B : matrix;
  hbias : vector;
  vbias : vector;
  theano_rng : RandomStreams
}.

(** [self.params] and the current value of a parameter. *)
Definition params : list parameter := [pW; pA; pB; phbias; pvbias].

Definition value (self : t) (p : parameter) : tensor :=
  match p with
  | pW => Matrix (W self)
  | pA => Matrix (A self)
  | pB => Matrix (B self)
  | phbias => Vector (hbias self)
  | pvbias => Vector (vbias self)
  end.

Definition set_theano_rng (self : t) (rng : RandomStreams) : t :=
  mk (n_visible self) (n_hidden self) (delay self) (input self)
     (input_history self) (W self) (A self) (B self) (hbias self)
     (vbias self) rng.

(** *** The monad of the methods that use the random stream

    A method takes the object and returns a result or an exception,
    and the object as the call leaves it. *)

Definition M (X : Type) : Type := t -> result X * t.

Definition ret {X : Type} (x : X) : M X := fun self => (Ok x, self).

Definition bind {X Y : Type} (c : M X) (f : X -> M Y) : M Y :=
  fun self =>
    match c self with
    | (Ok x, self') => f x self'
    | (Err e, self') => (Err e, self')
    end.

Definition get_self : M t := fun self => (Ok self, self).

Definition lift {X : Type} (r : result X) : M X := fun self => (r, self).

(** A draw from [self.theano_rng]. *)
Definition rng_binomial (p : matrix) : M matrix :=
  fun self =>
    let '(sample, rng) := binomial (theano_rng self) p in
    (Ok sample, set_theano_rng self rng).

Declare Scope crbm_scope.
Delimit Scope crbm_scope with crbm.
Notation "x <- c ;; f" := (bind c (fun x => f))
  (at level 61, c at next level, right associativity) : crbm_scope.
Notation "' p <- c ;; f" := (bind c (fun x => let 'p := x in f))
  (at level 61, p pattern, c at next level, right associativity)
  : crbm_scope.
Local Open Scope crbm_scope.

(** *** Methods *)

Definition free_energy (self : t) (v_sample v_history : matrix)
  : vector :=
  let wx_b := T.dot v_sample (W self) +m T.dot v_history (B self)
              +r hbias self in
  let ax_b := T.dot v_history (A self) +r vbias self in
  let visible_term :=
    T.sum_axis1 (0.5 *m T.sqr (v_sample -m ax_b)) in
  let hidden_term :=
    T.sum_axis1 (T.log (mmap (Rplus 1) (T.exp wx_b))) in
  vsub visible_term hidden_term.

Definition propup (self : t) (vis v_history : matrix)
  : matrix * matrix :=
  let pre_sigmoid_activation :=
    T.dot vis (W self) +m T.dot v_history (B self) +r hbias self in
  (pre_sigmoid_activation, T.sigmoid pre_sigmoid_activation).

Definition sample_h_given_v (v0_sample v_history : matrix)
  : M (matrix * matrix * matrix) :=
  self <- get_self ;;
  let '(pre_sigmoid_h1, h1_mean) := propup self v0_sample v_history in
  h1_sample <- rng_binomial h1_mean ;;
  ret (pre_sigmoid_h1, h1_mean, h1_sample).

Definition propdown (self : t) (hid v_history : matrix) : matrix :=
  let mean_activation :=
    T.dot hid (T.transpose (W self)) +m T.dot v_history (A self)
    +r vbias self in
  mean_activation.

Definition sample_v_given_h (h0_sample v_history : matrix)
  : M (matrix * matrix) :=
  self <- get_self ;;
  let v1_mean := propdown self h0_sample v_history in
  let v1_sample := v1_mean in
  ret (v1_mean, v1_sample).

(** The five outputs of one Gibbs step. *)
Definition outputs : Type :=
  (matrix * matrix * matrix * matrix * matrix)%type.

Definition gibbs_hvh (h0_sample v_history : matrix) : M outputs :=
  ' (v1_mean, v1_sample) <- sample_v_given_h h0_sample v_history ;;
  ' (pre_sigmoid_h1, h1_mean, h1_sample) <-
      sample_h_given_v v1_sample v_history ;;
  ret (v1_mean, v1_sample, pre_sigmoid_h1, h1_mean, h1_sample).

Definition gibbs_vhv (v0_sample v_history : matrix) : M outputs :=
  ' (pre_sigmoid_h1, h1_mean, h1_sample) <-
      sample_h_given_v v0_sample v_history ;;
  ' (v1_mean, v1_sample) <- sample_v_given_h h1_sample v_history ;;
  ret (pre_sigmoid_h1, h1_mean, h1_sample, v1_mean, v1_sample).

(** *** [theano.scan]

    [theano.scan(fn, outputs_info=[None, None, None, None, init],
    non_sequences=ns, n_steps=n)]: [fn] is applied [n] times to the
    fifth output of the step before (to [init] at first) and to [ns];
    each of the five results is the sequence of that output over the
    steps.  The sixth result holds the updates of the random streams
    used by [fn]. *)

Definition out1 (o : outputs) : matrix :=
  let '(a, _, _, _, _) := o in a.
Definition out2 (o : outputs) : matrix :=
  let '(_, b, _, _, _) := o in b.
Definition out3 (o : outputs) : matrix :=
  let '(_, _, c, _, _) := o in c.
Definition out4 (o : outputs) : matrix :=
  let '(_, _, _, d, _) := o in d.
Definition out5 (o : outputs) : matrix :=
  let '(_, _, _, _, e) := o in e.

Fixpoint scan_steps (fn : matrix -> matrix -> M outputs)
    (state non_sequences : matrix) (n : nat) : M (list outputs) :=
  match n with
  | O => ret []
  | S n' =>
      o <- fn state non_sequences ;;
      rest <- scan_steps fn (out5 o) non_sequences n' ;;
      ret (o :: rest)
  end.

Definition scan (fn : matrix -> matrix -> M outputs)
    (outputs_info non_sequences : matrix) (n_steps : Z)
  : M (list matrix * list matrix * list matrix * list matrix
       * list matrix * updates_dict) :=
  steps <- scan_steps fn outputs_info non_sequences (Z.to_nat n_steps) ;;
  self <- get_self ;;
  ret (map out1 steps, map out2 steps, map out3 steps, map out4 steps,
       map out5 steps,
       [(StateOf_theano_rng, NewState (theano_rng self))]).

(** *** The cost of CD and [T.grad]

    [cost] is the expression of which [get_cost_updates] takes the
    gradient, as a function of the model (of its parameters) and of the
    chain end.

    [T_grad self chain_end] stands for
    [T.grad(cost, self.params, consider_constant=[chain_end])]: the
    list, in the order of [self.params], of the derivatives of [cost]
    by the parameters at their current values, [chain_end] being a
    constant.  Theano derives them from the expression graph; here they
    are written out, and [T_grad_is_gradient] below proves from the
    definition of the derivative that the list is the gradient of
    [cost], and [gradient_unique] that no other list is. *)

Definition cost (self : t) (chain_end : matrix) : R :=
  T.mean (free_energy self (input self) (input_history self))
  - T.mean (free_energy self chain_end (input_history self)).

Definition outer (u v : vector) : matrix := map (fun x => vscale x v) u.

(** [T.dot(x.T, y)], as the sum of the outer products of the rows. *)
Fixpoint tdot (x y : matrix) : matrix :=
  match x, y with
  | r :: x', s :: y' => outer r s +m tdot x' y'
  | _, _ => []
  end.

(** [T.sum(_, axis=0)]. *)
Definition sum_axis0 (a : matrix) : vector := fold_right vadd [] a.

(** The derivatives of [mean(free_energy(v_sample, v_history))] by [W],
    [A], [B], [hbias] and [vbias], by the chain rule: [d_wx] and [d_ax]
    are the derivatives of the free energy of a row by [wx_b] and by
    [ax_b], that is [- sigmoid(wx_b)] and [- (v_sample - ax_b)], and
    [n] is the number of rows of the batch. *)
Definition grad_mean_free_energy (self : t) (v_sample v_history : matrix)
  : list tensor :=
  let wx_b := T.dot v_sample (W self) +m T.dot v_history (B self)
              +r hbias self in
  let ax_b := T.dot v_history (A self) +r vbias self in
  let n := INR (length v_sample) in
  let d_wx := mmap (fun x => - T.sigmoid1 x) wx_b in
  let d_ax := mmap Ropp (v_sample -m ax_b) in
  [ Matrix ((1 / n) *m tdot v_sample d_wx);
    Matrix ((1 / n) *m tdot v_history d_ax);
    Matrix ((1 / n) *m tdot v_history d_wx);
    Vector (vscale (1 / n) (sum_axis0 d_wx));
    Vector (vscale (1 / n) (sum_axis0 d_ax)) ].

Fixpoint tensors_sub (l l' : list tensor) : list tensor :=
  match l, l' with
  | a :: l1, b :: l1' => tensor_sub a b :: tensors_sub l1 l1'
  | _, _ => []
  end.

Definition T_grad (self : t) (chain_end : matrix) : list tensor :=
  tensors_sub
    (grad_mean_free_energy self (input self) (input_history self))
    (grad_mean_free_energy self chain_end (input_history self)).

(** *** [get_reconstruction_cost] and [get_cost_updates] *)

Definition get_reconstruction_cost (self : t) (updates : updates_dict)
    (pre_sigmoid_nv : matrix) : R :=
  let recon :=
    T.mean (T.sum_axis1 (T.sqr (input self -m pre_sigmoid_nv))) in
  recon.

(** The body of the loop that fills the update dictionary. *)
Definition update_rule (self : t) (lr : R) (updates : updates_dict)
    (gp : tensor * parameter) : updates_dict :=
  let '(gparam, param) := gp in
  if parameter_eqb param pA then
    dict_set updates (Param param)
      (NewTensor (tensor_sub (value self param)
                    (tensor_mul (tensor_mul gparam 0.01) lr)))
  else
    dict_set updates (Param param)
      (NewTensor (tensor_sub (value self param) (tensor_mul gparam lr))).

Definition get_cost_updates (lr : R) (k : Z) : M (R * updates_dict) :=
  self <- get_self ;;
  ' (pre_sigmoid_ph, ph_mean, ph_sample) <-
      sample_h_given_v (input self) (input_history self) ;;
  let chain_start := ph_sample in
  ' (nv_means, nv_samples, pre_sigmoid_nhs, nh_means, nh_samples,
     updates) <-
      scan gibbs_hvh chain_start (input_history self) k ;;
  chain_end <- lift (last_item nv_samples) ;;
  self <- get_self ;;
  (* cost = T.mean(self.free_energy(self.input, self.input_history))
            - T.mean(self.free_energy(chain_end, self.input_history))
     gparams = T.grad(cost, self.params, consider_constant=[chain_end]) *)
  let gparams := T_grad self chain_end in
  let updates :=
    fold_left (update_rule self lr) (combine gparams params) updates in
  nv_mean <- lift (last_item nv_means) ;;
  let monitoring_cost := get_reconstruction_cost self updates nv_mean in
  ret (monitoring_cost, updates).

End CRBM.

(** * Definitions of the specification *)

(** The free energy of one visible vector [v] under one history [h], as
    the specification writes it. *)
Definition free_energy_row (self : CRBM.t) (v h : vector) : R :=
  let wx_b :=
    vadd (vadd (vecmat v (CRBM.W self)) (vecmat h (CRBM.B self)))
         (CRBM.hbias self) in
  let ax_b := vadd (vecmat h (CRBM.A self)) (CRBM.vbias self) in
  let visible_term := 0.5 * Rsum (map Rsqr (vsub v ax_b)) in
  let hidden_term := Rsum (map (fun x => ln (1 + exp x)) wx_b) in
  visible_term - hidden_term.

(** The values of the five parameters of a model. *)
Definition parameters (self : CRBM.t)
  : matrix * matrix * matrix * vector * vector :=
  (CRBM.W self, CRBM.A self, CRBM.B self, CRBM.hbias self,
   CRBM.vbias self).

(** The entries of a matrix, row after row. *)
Definition entries (a : matrix) : vector := concat a.

(** The shape of an array: the lengths of its rows. *)
Definition shape (a : matrix) : list nat := map (@length R) a.

(** The trials of [p] decided by the draws of [g] from position [n]
    on, one draw per entry. *)
Definition trials (g : nat -> R) (n : nat) (p : vector) : vector :=
  map (fun ix => bernoulli (g (fst ix)) (snd ix))
      (combine (seq n (length p)) p).

(** A method that is a function of [self], as a computation. *)
Definition method {X : Type} (f : CRBM.t -> X) : CRBM.M X :=
  CRBM.bind CRBM.get_self (fun self => CRBM.ret (f self)).

(** One hidden -> visible -> hidden transition under the history
    [v_history], as a map from a hidden sample to the next one. *)
Definition hvh (v_history h : matrix) : CRBM.M matrix :=
  CRBM.bind (CRBM.gibbs_hvh h v_history)
    (fun o => CRBM.ret (CRBM.out5 o)).

(** [n] transitions in a row, each from the sample of the one before. *)
Fixpoint iterate (n : nat) (step : matrix -> CRBM.M matrix) (h : matrix)
  : CRBM.M matrix :=
  match n with
  | O => CRBM.ret h
  | S n' => CRBM.bind (step h) (iterate n' step)
  end.

(** The monitoring cost and the updates, from the last step [o] of the
    chain: the chain end is the visible sample of [o], the
    reconstruction is its visible mean. *)
Definition cd_result (lr : R) (o : CRBM.outputs)
  : CRBM.M (R * updates_dict) :=
  CRBM.bind CRBM.get_self (fun self =>
    let chain_end := CRBM.out2 o in
    let updates :=
      fold_left (CRBM.update_rule self lr)
        (combine (CRBM.T_grad self chain_end) CRBM.params)
        [(StateOf_theano_rng, NewState (CRBM.theano_rng self))] in
    CRBM.ret
      (CRBM.get_reconstruction_cost self updates (CRBM.out1 o), updates)).

(** The Gibbs chain of CD-k as the specification describes it: the
    hidden sample of the input starts the chain, the transition is
    iterated under the history of the input, and the k-th step is the
    last one. *)
Definition gibbs_chain (k : nat) : CRBM.M CRBM.outputs :=
  CRBM.bind CRBM.get_self (fun self =>
  CRBM.bind
    (CRBM.sample_h_given_v (CRBM.input self) (CRBM.input_history self))
    (fun ph =>
  let ph_sample := snd ph in
  CRBM.bind (iterate (k - 1) (hvh (CRBM.input_history self)) ph_sample)
    (fun h => CRBM.gibbs_hvh h (CRBM.input_history self)))).

Definition cd_k (lr : R) (k : nat) : CRBM.M (R * updates_dict) :=
  CRBM.bind (gibbs_chain k) (cd_result lr).

(** A computation that at most advances the random stream. *)
Definition only_rng {X : Type} (c : CRBM.M X) : Prop :=
  forall self, exists rng, snd (c self) = CRBM.set_theano_rng self rng.

(** A computation that raises no exception. *)
Definition total {X : Type} (c : CRBM.M X) : Prop :=
  forall self, exists x, fst (c self) = Ok x.

(** The squared error of the reconstruction [m] of the batch [x],
    summed over the visible units and averaged over the batch. *)
Definition reconstruction_error (x m : matrix) : R :=
  T.mean (map (fun row => Rsum (map Rsqr row)) (x -m m)).

(** The inner product of two matrices. *)
Fixpoint mdot (a b : matrix) : R :=
  match a, b with
  | r :: a', s :: b' => vdot r s + mdot a' b'
  | _, _ => 0
  end.

(** A matrix of [n] rows of length [c]. *)
Definition has_shape (n c : nat) (a : matrix) : Prop :=
  length a = n /\ Forall (fun r => length r = c) a.

(** The parameters of [self] have the shapes that the constructor gives
    them. *)
Definition well_shaped (self : CRBM.t) : Prop :=
  has_shape (CRBM.n_visible self) (CRBM.n_hidden self) (CRBM.W self)
  /\ has_shape (CRBM.n_visible self * CRBM.delay self)
       (CRBM.n_visible self) (CRBM.A self)
  /\ has_shape (CRBM.n_visible self * CRBM.delay self)
       (CRBM.n_hidden self) (CRBM.B self)
  /\ length (CRBM.hbias self) = CRBM.n_hidden self
  /\ length (CRBM.vbias self) = CRBM.n_visible self.

(** The input of [self] is a batch of at least one row, with one
    history per row. *)
Definition well_shaped_input (self : CRBM.t) : Prop :=
  (0 < length (CRBM.input self))%nat
  /\ Forall (fun r => length r = CRBM.n_visible self) (CRBM.input self)
  /\ has_shape (length (CRBM.input self))
       (CRBM.n_visible self * CRBM.delay self) (CRBM.input_history self).

(** A direction in the space of the parameters. *)
Record direction : Type := mkDirection {
  dW : matrix;
  dA : matrix;
  dB : matrix;
  dhbias : vector;
  dvbias : vector
}.

Definition direction_of (self : CRBM.t) (d : direction) : Prop :=
  has_shape (CRBM.n_visible self) (CRBM.n_hidden self) (dW d)
  /\ has_shape (CRBM.n_visible self * CRBM.delay self)
       (CRBM.n_visible self) (dA d)
  /\ has_shape (CRBM.n_visible self * CRBM.delay self)
       (CRBM.n_hidden self) (dB d)
  /\ length (dhbias d) = CRBM.n_hidden self
  /\ length (dvbias d) = CRBM.n_visible self.

(** The model [self] with its parameters moved by [s] times [d]. *)
Definition shift (self : CRBM.t) (s : R) (d : direction) : CRBM.t :=
  CRBM.mk (CRBM.n_visible self) (CRBM.n_hidden self) (CRBM.delay self)
    (CRBM.input self) (CRBM.input_history self)
    (CRBM.W self +m s *m dW d)
    (CRBM.A self +m s *m dA d)
    (CRBM.B self +m s *m dB d)
    (vadd (CRBM.hbias self) (vscale s (dhbias d)))
    (vadd (CRBM.vbias self) (vscale s (dvbias d)))
    (CRBM.theano_rng self).

(** [g] is the gradient at [self] of the function [f] of the
    parameters: [g] lists one array of the shape of each parameter, in
    the order of [self.params], and the derivative of [f] along each
    direction [d] is the inner product of [g] and [d]. *)
Definition is_gradient (f : CRBM.t -> R) (self : CRBM.t) (g : list tensor)
  : Prop :=
  exists gW gA gB gh gv,
    g = [Matrix gW; Matrix gA; Matrix gB; Vector gh; Vector gv]
    /\ shape gW = shape (CRBM.W self)
    /\ shape gA = shape (CRBM.A self)
    /\ shape gB = shape (CRBM.B self)
    /\ length gh = length (CRBM.hbias self)
    /\ length gv = length (CRBM.vbias self)
    /\ forall d, direction_of self d ->
         derivable_pt_lim (fun s => f (shift self s d)) 0
           (mdot gW (dW d) + mdot gA (dA d) + mdot gB (dB d)
            + vdot gh (dhbias d) + vdot gv (dvbias d)).

(** The pre-activation of the hidden units and the mean of the visible
    units for one row. *)
Definition wx_row (self : CRBM.t) (v h : vector) : vector :=
  vadd (vadd (vecmat v (CRBM.W self)) (vecmat h (CRBM.B self)))
       (CRBM.hbias self).

Definition ax_row (self : CRBM.t) (h : vector) : vector :=
  vadd (vecmat h (CRBM.A self)) (CRBM.vbias self).

(** The derivative of the free energy of one row along [d]. *)
Definition free_energy_row_slope (self : CRBM.t) (d : direction)
    (v h : vector) : R :=
  - vdot (vsub v (ax_row self h)) (vadd (vecmat h (dA d)) (dvbias d))
  - vdot (map T.sigmoid1 (wx_row self v h))
      (vadd (vadd (vecmat v (dW d)) (vecmat h (dB d))) (dhbias d)).

(** The inner product of a list of five arrays and a direction. *)
Definition pairing (g : list tensor) (d : direction) : R :=
  match g with
  | [Matrix gW; Matrix gA; Matrix gB; Vector gh; Vector gv] =>
      mdot gW (dW d) + mdot gA (dA d) + mdot gB (dB d)
      + vdot gh (dhbias d) + vdot gv (dvbias d)
  | _ => 0
  end.

(** The arrays that are zero but for one entry 1, and the direction
    that moves one entry of one parameter. *)
Definition zeros (n c : nat) : matrix := repeat (repeat 0 c) n.

Fixpoint unit_vector (n j : nat) : vector :=
  match n with
  | O => []
  | S n' =>
      match j with
      | O => 1 :: repeat 0 n'
      | S j' => 0 :: unit_vector n' j'
      end
  end.

Fixpoint unit_matrix (n c i j : nat) : matrix :=
  match n with
  | O => []
  | S n' =>
      match i with
      | O => unit_vector c j :: zeros n' c
      | S i' => repeat 0 c :: unit_matrix n' c i' j
      end
  end.

Definition along (self : CRBM.t) (p : parameter) (i j : nat) : direction :=
  let nv := CRBM.n_visible self in
  let nh := CRBM.n_hidden self in
  let nd := (CRBM.n_visible self * CRBM.delay self)%nat in
  mkDirection
    (match p with pW => unit_matrix nv nh i j | _ => zeros nv nh end)
    (match p with pA => unit_matrix nd nv i j | _ => zeros nd nv end)
    (match p with pB => unit_matrix nd nh i j | _ => zeros nd nh end)
    (match p with phbias => unit_vector nh j | _ => repeat 0 nh end)
    (match p with pvbias => unit_vector nv j | _ => repeat 0 nv end).

(** The entry [(i, j)] of a matrix, the entry [j] of a vector. *)
Definition entry (t : tensor) (i j : nat) : R :=
  match t with
  | Matrix m => nth j (nth i m []) 0
  | Vector v => nth j v 0
  end.

(** The array of the parameter [p] in a list in the order of
    [self.params]. *)
Definition component (g : list tensor) (p : parameter) : tensor :=
  match p with
  | pW => nth 0 g (Vector [])
  | pA => nth 1 g (Vector [])
  | pB => nth 2 g (Vector [])
  | phbias => nth 3 g (Vector [])
  | pvbias => nth 4 g (Vector [])
  end.

(** [(i, j)] is the index of an entry of the parameter [p]. *)
Definition in_range (self : CRBM.t) (p : parameter) (i j : nat) : Prop :=
  match p with
  | pW => (i < CRBM.n_visible self /\ j < CRBM.n_hidden self)%nat
  | pA => (i < CRBM.n_visible self * CRBM.delay self
           /\ j < CRBM.n_visible self)%nat
  | pB => (i < CRBM.n_visible self * CRBM.delay self
           /\ j < CRBM.n_hidden self)%nat
  | phbias => (j < CRBM.n_hidden self)%nat
  | pvbias => (j < CRBM.n_visible self)%nat
  end.

(** A small model: one visible unit, one hidden unit, a history of one
    frame, all weights and biases zero, a batch of one row. *)
Definition demo : CRBM.t :=
  CRBM.mk 1 1 1 [[1]] [[0]] [[0]] [[0]] [[0]] [0] [0]
    (mkRandomStreams (fun _ => 0) 0).

(** A model with two visible units, one hidden unit and a history of
    one frame, on a batch of two rows. *)
Definition model2 : CRBM.t :=
  CRBM.mk 2 1 1
    [[1; 2]; [3; 4]] [[0; 1]; [1; 0]]
    [[1]; [2]] [[1; 0]; [0; 1]] [[1]; [1]] [1] [0; 1]
    (mkRandomStreams (fun n => / INR (S n)) 0).

(** * The driver [train_crbm]

    The rest of [crbm.py]: the function [train_crbm], which cuts a
    sequence of frames into mini-batches of frames and of their
    histories and trains a model on them.  Python integers are in [Z];
    the lengths that the class keeps as numbers of units ([delay],
    [n_dim]) are in [nat].  Printing and timing are left out. *)

From Stdlib Require Import Permutation.

(** ** numpy and Theano: indices, slices and shapes *)

(** [range(a, b)]. *)
Definition range (a b : Z) : list Z :=
  map (fun i => (a + Z.of_nat i)%Z) (seq 0 (Z.to_nat (b - a))).

(** A bound of a slice of a sequence of length [n]: a negative bound
    counts from the end, and a bound outside the sequence is moved to
    its nearer end. *)
Definition slice_bound (n i : Z) : Z :=
  if (i <? 0)%Z then Z.max 0 (i + n) else Z.min i n.

(** [l[start:stop]]. *)
Definition slice {X : Type} (l : list X) (start stop : Z) : list X :=
  let n := Z.of_nat (length l) in
  let s := slice_bound n start in
  let e := slice_bound n stop in
  firstn (Z.to_nat (e - s)) (skipn (Z.to_nat s) l).

(** [a[i]] for a row index [i] of a two-dimensional array: a negative
    index counts from the end, an index out of bounds raises. *)
Definition row_at (a : matrix) (i : Z) : result vector :=
  let n := Z.of_nat (length a) in
  if ((0 <=? i) && (i <? n))%Z then Ok (nth (Z.to_nat i) a [])
  else if ((- n <=? i) && (i <? 0))%Z then Ok (nth (Z.to_nat (i + n)) a [])
  else Err IndexError.

(** [a[idx]] for a vector [idx] of row indices. *)
Fixpoint take (a : matrix) (idx : list Z) : result matrix :=
  match idx with
  | [] => Ok []
  | i :: idx' =>
      match row_at a i with
      | Ok r =>
          match take a idx' with
          | Ok rest => Ok (r :: rest)
          | Err e => Err e
          end
      | Err e => Err e
      end
  end.

(** The array of [r] rows of length [c] whose entries, row after row,
    are those of [flat]. *)
Definition rows_of_flat (r c : nat) (flat : vector) : matrix :=
  map (fun i => firstn c (skipn (i * c) flat)) (seq 0 r).

(** [a.reshape((r, c))]: the entries of [a], row after row, as [r] rows
    of length [c].  One of [r] and [c] can be [-1] and is then worked
    out from the other; otherwise the number of entries must be
    [r * c]. *)
Definition reshape (a : matrix) (r c : Z) : result matrix :=
  let flat := concat a in
  let size := Z.of_nat (length flat) in
  if ((r =? -1) && (c =? -1))%Z then Err ValueError
  else if (r =? -1)%Z then
    if ((0 <? c) && (size mod c =? 0))%Z
    then Ok (rows_of_flat (Z.to_nat (size / c)) (Z.to_nat c) flat)
    else Err ValueError
  else if (c =? -1)%Z then
    if ((0 <? r) && (size mod r =? 0))%Z
    then Ok (rows_of_flat (Z.to_nat r) (Z.to_nat (size / r)) flat)
    else Err ValueError
  else if ((0 <=? r) && (0 <=? c) && (r * c =? size))%Z
    then Ok (rows_of_flat (Z.to_nat r) (Z.to_nat c) flat)
    else Err ValueError.

(** The attribute [.T] of a two-dimensional array of integers, and
    [ravel()]. *)
Definition int_transpose (a : list (list Z)) : list (list Z) :=
  map (fun j => map (fun r => nth j r 0%Z) a) (seq 0 (length (hd [] a))).

Definition ravel (a : list (list Z)) : list Z := concat a.

(** ** The indices of the frames and of their histories *)

(** The valid starting indices: the loop over [[seqlen]] that fills
    [batchdataindex]. *)
Definition batchdataindex (seqlen delay : Z) : list Z :=
  let body := fun (state : list Z * Z) (s : Z) =>
    let '(batchdataindex, last) := state in
    (batchdataindex ++ range (last + delay) (last + s), (last + s)%Z) in
  fst (fold_left body [seqlen] ([], 0%Z)).

(** What can stop the driver: an exception of the model, a value of the
    wrong type, a division by zero. *)
Inductive failure : Type :=
| Raised (e : exn)
| TypeError
| ZeroDivisionError.

Inductive outcome (X : Type) : Type :=
| Done (x : X)
| Failed (f : failure).
Arguments Done {X} x.
Arguments Failed {X} f.

(** [int(seqlen / batch_size)]: the quotient, rounded towards zero. *)
Definition n_train_batches (seqlen batch_size : Z) : outcome Z :=
  if (batch_size =? 0)%Z then Failed ZeroDivisionError
  else Done (Z.quot seqlen batch_size).

(** [permindex[batch_index * batch_size:(batch_index + 1) * batch_size]]. *)
Definition data_idx (permindex : list Z) (batch_size batch_index : Z)
  : list Z :=
  slice permindex (batch_index * batch_size)
    ((batch_index + 1) * batch_size).

(** [np.array([data_idx - n for n in range(1, delay + 1)]).T]. *)
Definition hist_idx (data_idx : list Z) (delay : Z) : list (list Z) :=
  int_transpose
    (map (fun n => map (fun t => (t - n)%Z) data_idx) (range 1 (delay + 1))).

(** The frame of index [t] of the sequence, and the history of the
    frame of index [t]: the [delay] frames before it, the nearest
    first, one after the other in one row. *)
Definition frame (batchdata : matrix) (t : Z) : vector :=
  nth (Z.to_nat t) batchdata [].

Definition history (batchdata : matrix) (delay : nat) (t : Z) : vector :=
  concat (map (fun n => frame batchdata (t - n))
            (range 1 (Z.of_nat delay + 1))).

(** ** The compiled function [train_crbm]

    [theano.function([index, index_hist], cost, updates=updates,
    givens=...)]: a call binds the inputs of the model as [givens]
    says, evaluates the cost and the new values of the update
    dictionary, and then writes the new values to the shared variables.
    A call that raises writes nothing. *)

(** The values that [givens] binds to [x] and to [x_history]. *)
Definition givens (batchdata : matrix) (batch_size : Z) (delay n_dim : nat)
    (index index_hist : list Z) : result (matrix * matrix) :=
  match take batchdata index with
  | Err e => Err e
  | Ok x =>
      match take batchdata index_hist with
      | Err e => Err e
      | Ok frames =>
          match reshape frames batch_size
                  (Z.of_nat delay * Z.of_nat n_dim) with
          | Err e => Err e
          | Ok x_history => Ok (x, x_history)
          end
      end
  end.

Definition set_inputs (self : CRBM.t) (x x_history : matrix) : CRBM.t :=
  CRBM.mk (CRBM.n_visible self) (CRBM.n_hidden self) (CRBM.delay self)
    x x_history (CRBM.W self) (CRBM.A self) (CRBM.B self)
    (CRBM.hbias self) (CRBM.vbias self) (CRBM.theano_rng self).

(** Writing one new value to its shared variable; a new value that is
    not of the type of the variable is refused. *)
Definition apply_update (self : CRBM.t) (u : shared * new_value)
  : option CRBM.t :=
  let mk' := fun w a b hb vb rng =>
    CRBM.mk (CRBM.n_visible self) (CRBM.n_hidden self) (CRBM.delay self)
      (CRBM.input self) (CRBM.input_history self) w a b hb vb rng in
  let w := CRBM.W self in
  let a := CRBM.A self in
  let b := CRBM.B self in
  let hb := CRBM.hbias self in
  let vb := CRBM.vbias self in
  let rng := CRBM.theano_rng self in
  match u with
  | (Param pW, NewTensor (Matrix m)) => Some (mk' m a b hb vb rng)
  | (Param pA, NewTensor (Matrix m)) => Some (mk' w m b hb vb rng)
  | (Param pB, NewTensor (Matrix m)) => Some (mk' w a m hb vb rng)
  | (Param phbias, NewTensor (Vector v)) => Some (mk' w a b v vb rng)
  | (Param pvbias, NewTensor (Vector v)) => Some (mk' w a b hb v rng)
  | (StateOf_theano_rng, NewState r) => Some (mk' w a b hb vb r)
  | _ => None
  end.

Fixpoint apply_updates (self : CRBM.t) (updates : updates_dict)
  : option CRBM.t :=
  match updates with
  | [] => Some self
  | u :: updates' =>
      match apply_update self u with
      | Some self' => apply_updates self' updates'
      | None => None
      end
  end.

(** The driver's computations: a model in, an outcome and a model out. *)
Definition D (X : Type) : Type := CRBM.t -> outcome X * CRBM.t.

(** One call [train_crbm(index, index_hist)] of the compiled function,
    built from [crbm.get_cost_updates(lr=learning_rate, k=1)]. *)
Definition train_crbm_call (batchdata : matrix) (batch_size : Z)
    (delay n_dim : nat) (learning_rate : R) (index index_hist : list Z)
  : D R :=
  fun self =>
    match givens batchdata batch_size delay n_dim index index_hist with
    | Err e => (Failed (Raised e), self)
    | Ok (x, x_history) =>
        match fst (CRBM.get_cost_updates learning_rate 1
                     (set_inputs self x x_history)) with
        | Err e => (Failed (Raised e), self)
        | Ok (cost, updates) =>
            match apply_updates self updates with
            | Some self' => (Done cost, self')
            | None => (Failed TypeError, self)
            end
        end
    end.

(** The model [self] after a step of rate [lr] against the list [g] of
    five arrays, in the order of [self.params], and with the random
    stream [rng]: the step of [A] is 0.01 times as long. *)
Definition gradient_step (self : CRBM.t) (lr : R) (g : list tensor)
    (rng : RandomStreams) : CRBM.t :=
  match g with
  | [Matrix gW; Matrix gA; Matrix gB; Vector gh; Vector gv] =>
      CRBM.mk (CRBM.n_visible self) (CRBM.n_hidden self) (CRBM.delay self)
        (CRBM.input self) (CRBM.input_history self)
        (CRBM.W self -m lr *m gW)
        (CRBM.A self -m (0.01 * lr) *m gA)
        (CRBM.B self -m lr *m gB)
        (vsub (CRBM.hbias self) (vscale lr gh))
        (vsub (CRBM.vbias self) (vscale lr gv))
        rng
  | _ => self
  end.

(** [self] is a model for frames of [n_dim] entries with histories of
    [delay] frames, with parameters of the shapes of the constructor. *)
Definition fits (self : CRBM.t) (n_dim delay : nat) : Prop :=
  well_shaped self /\ CRBM.n_visible self = n_dim
  /\ CRBM.delay self = delay.

(** ** The training loops *)

(** The body of the loop over the batches.  [np.array] of an empty list
    is an array of floats: with no starting index at all [data_idx] is
    one, with [delay = 0] [hist_idx] is one, and the compiled function
    refuses an array of floats as a vector of indices. *)
Definition train_batch (batchdata : matrix) (permindex : list Z)
    (batch_size : Z) (delay n_dim : nat) (learning_rate : R)
    (batch_index : Z) : D R :=
  let data_idx := data_idx permindex batch_size batch_index in
  let hist_idx := hist_idx data_idx (Z.of_nat delay) in
  match permindex, delay with
  | [], _ => fun self => (Failed TypeError, self)
  | _, O => fun self => (Failed TypeError, self)
  | _ :: _, S _ =>
      train_crbm_call batchdata batch_size delay n_dim learning_rate
        data_idx (ravel hist_idx)
  end.

(** The loop over the batches of one epoch, from the costs [mean_cost]
    gathered so far. *)
Fixpoint train_batches (batchdata : matrix) (permindex : list Z)
    (batch_size : Z) (delay n_dim : nat) (learning_rate : R)
    (batches : list Z) (mean_cost : list R) : D (list R) :=
  match batches with
  | [] => fun self => (Done mean_cost, self)
  | batch_index :: batches' =>
      fun self =>
        match train_batch batchdata permindex batch_size delay n_dim
                learning_rate batch_index self with
        | (Done this_cost, self') =>
            train_batches batchdata permindex batch_size delay n_dim
              learning_rate batches' (mean_cost ++ [this_cost]) self'
        | (Failed f, self') => (Failed f, self')
        end
  end.

(** The loop over the epochs; the result lists the costs of each
    epoch, of which the driver prints the mean. *)
Fixpoint train_epochs (batchdata : matrix) (permindex : list Z)
    (batch_size : Z) (delay n_dim : nat) (learning_rate : R)
    (n_batches : Z) (epochs : list Z) : D (list (list R)) :=
  match epochs with
  | [] => fun self => (Done [], self)
  | epoch :: epochs' =>
      fun self =>
        match train_batches batchdata permindex batch_size delay n_dim
                learning_rate (range 0 n_batches) [] self with
        | (Done mean_cost, self') =>
            match train_epochs batchdata permindex batch_size delay n_dim
                    learning_rate n_batches epochs' self' with
            | (Done costs, self'') => (Done (mean_cost :: costs), self'')
            | (Failed f, self'') => (Failed f, self'')
            end
        | (Failed f, self') => (Failed f, self')
        end
  end.

(** * The constructor [CRBM.__init__]

    The constructor draws the weights that it is not given from a
    [numpy.random.RandomState].  The generator is a parameter of the
    model of the constructor: a type of states, the draw of one
    standard normal variate, [randint], and the two constructors
    [RandomState(seed)] and [RandomStreams(seed)]. *)

Section Constructor.

Variable RandomState : Type.

(** One standard normal variate and the state after it. *)
Variable normal : RandomState -> R * RandomState.

(** [numpy_rng.randint(high)]. *)
Variable randint : Z -> RandomState -> Z * RandomState.

(** [numpy.random.RandomState(seed)] and [RandomStreams(seed)]. *)
Variable RandomState_of_seed : Z -> RandomState.
Variable RandomStreams_of_seed : Z -> RandomStreams.

(** [n] variates in a row. *)
Fixpoint normals (n : nat) (rng : RandomState) : vector * RandomState :=
  match n with
  | O => ([], rng)
  | S n' =>
      let '(x, rng1) := normal rng in
      let '(xs, rng2) := normals n' rng1 in
      (x :: xs, rng2)
  end.

(** [numpy_rng.randn(d0, d1)]: [d0 * d1] variates, row after row. *)
Definition randn (d0 d1 : nat) (rng : RandomState)
  : matrix * RandomState :=
  let '(flat, rng') := normals (d0 * d1) rng in
  (rows_of_flat d0 d1 flat, rng').

(** [numpy.zeros(n)]. *)
Definition numpy_zeros (n : nat) : vector := repeat 0 n.

(** [CRBM(input, input_history, n_visible, n_hidden, delay, A, B, W,
    hbias, vbias, numpy_rng, theano_rng)]: [None] for an argument left
    out.  The result is the instance and the generator as the
    constructor leaves it.  An input that is left out is a symbolic
    matrix with no value yet, here the empty matrix. *)
Definition CRBM__init__ (input input_history : option matrix)
    (n_visible n_hidden delay : nat) (A B W : option matrix)
    (hbias vbias : option vector) (numpy_rng : option RandomState)
    (theano_rng : option RandomStreams) : CRBM.t * RandomState :=
  let numpy_rng :=
    match numpy_rng with
    | None => RandomState_of_seed 1234
    | Some rng => rng
    end in
  let '(theano_rng, numpy_rng) :=
    match theano_rng with
    | None =>
        let '(seed, rng) := randint (2 ^ 30) numpy_rng in
        (RandomStreams_of_seed seed, rng)
    | Some t => (t, numpy_rng)
    end in
  let '(W, numpy_rng) :=
    match W with
    | None =>
        let '(initial_W, rng) := randn n_visible n_hidden numpy_rng in
        (0.01 *m initial_W, rng)
    | Some W => (W, numpy_rng)
    end in
  let '(A, numpy_rng) :=
    match A with
    | None =>
        let '(initial_A, rng) :=
          randn (n_visible * delay) n_visible numpy_rng in
        (0.01 *m initial_A, rng)
    | Some A => (A, numpy_rng)
    end in
  let '(B, numpy_rng) :=
    match B with
    | None =>
        let '(initial_B, rng) :=
          randn (n_visible * delay) n_hidden numpy_rng in
        (0.01 *m initial_B, rng)
    | Some B => (B, numpy_rng)
    end in
  let hbias :=
    match hbias with
    | None => numpy_zeros n_hidden
    | Some hbias => hbias
    end in
  let vbias :=
    match vbias with
    | None => numpy_zeros n_visible
    | Some vbias => vbias
    end in
  let input :=
    match input with
    | None => []
    | Some input => input
    end in
  let input_history :=
    match input_history with
    | None => []
    | Some input_history => input_history
    end in
  (CRBM.mk n_visible n_hidden delay input input_history W A B hbias vbias
     theano_rng,
   numpy_rng).

End Constructor.

(** * Properties *)

(** ** Arrays *)

Lemma map_Rplus_0 (v : vector) : map (Rplus 0) v = v.
Proof.
  induction v as [|x v IH]; simpl; [reflexivity|].
  rewrite IH, Rplus_0_l. reflexivity.
Qed.

Lemma map_Rplus_0_r (v : vector) : map (fun x => x + 0) v = v.
Proof.
  induction v as [|x v IH]; simpl; [reflexivity|].
  rewrite IH, Rplus_0_r. reflexivity.
Qed.

Lemma vadd_nil_l (v : vector) : vadd [] v = v.
Proof. apply map_Rplus_0. Qed.

Lemma vadd_nil_r (v : vector) : vadd v [] = v.
Proof.
  destruct v as [|x v]; [reflexivity|]. apply (map_Rplus_0_r (x :: v)).
Qed.

Lemma vadd_cons (x y : R) (u v : vector) :
  vadd (x :: u) (y :: v) = (x + y) :: vadd u v.
Proof. reflexivity. Qed.

Lemma ewise_length (f : R -> R -> R) (u v : vector) :
  length (ewise f u v) = Nat.max (length u) (length v).
Proof.
  revert v; induction u as [|x u IH]; intros [|y v]; simpl;
    rewrite ?length_map; auto.
Qed.

Lemma mewise_length (f : R -> R -> R) (a b : matrix) :
  length (mewise f a b) = Nat.max (length a) (length b).
Proof.
  revert b; induction a as [|x a IH]; intros [|y b]; simpl;
    rewrite ?length_map; auto.
Qed.

Lemma Rsum_cons (x : R) (v : vector) : Rsum (x :: v) = x + Rsum v.
Proof. reflexivity. Qed.

Lemma Rsum_app (u v : vector) : Rsum (u ++ v) = Rsum u + Rsum v.
Proof.
  induction u as [|x u IH]; simpl; [lra|].
  fold (Rsum (u ++ v)) (Rsum u). rewrite IH. lra.
Qed.

Lemma Rsum_scale (c : R) (v : vector) : Rsum (map (Rmult c) v) = c * Rsum v.
Proof.
  induction v as [|x v IH]; simpl; [lra|].
  fold (Rsum (map (Rmult c) v)) (Rsum v). rewrite IH. lra.
Qed.

Lemma Rsum_repeat (x : R) (n : nat) : Rsum (repeat x n) = INR n * x.
Proof.
  induction n as [|n IH]; [simpl; lra|].
  rewrite S_INR. simpl repeat. rewrite Rsum_cons, IH. lra.
Qed.

Lemma dot_cons (m : vector) (a b : matrix) :
  T.dot (m :: a) b = vecmat m b :: T.dot a b.
Proof. reflexivity. Qed.

(** ** Linear algebra of the arrays *)

Lemma nth_nil_0 (i : nat) : nth i (@nil R) 0 = 0.
Proof. destruct i; reflexivity. Qed.

Lemma nth_map_0 (f : R -> R) (v : vector) (i : nat) :
  f 0 = 0 -> nth i (map f v) 0 = f (nth i v 0).
Proof. intros H. rewrite <- H at 1. apply map_nth. Qed.

Lemma nth_ewise (f : R -> R -> R) (u v : vector) (i : nat) :
  f 0 0 = 0 -> nth i (ewise f u v) 0 = f (nth i u 0) (nth i v 0).
Proof.
  intros H0. revert v i.
  induction u as [|x u IH]; intros v i.
  - change (ewise f [] v) with (map (f 0) v).
    rewrite nth_nil_0. apply (nth_map_0 (f 0)). exact H0.
  - destruct v as [|y v].
    + change (ewise f (x :: u) []) with (map (fun x => f x 0) (x :: u)).
      rewrite nth_nil_0. apply (nth_map_0 (fun x => f x 0)). exact H0.
    + destruct i as [|i]; simpl; [reflexivity|apply IH].
Qed.

Lemma nth_vadd (u v : vector) (i : nat) :
  nth i (vadd u v) 0 = nth i u 0 + nth i v 0.
Proof. apply nth_ewise. lra. Qed.

Lemma nth_vsub (u v : vector) (i : nat) :
  nth i (vsub u v) 0 = nth i u 0 - nth i v 0.
Proof. apply nth_ewise. lra. Qed.

Lemma nth_vscale (c : R) (v : vector) (i : nat) :
  nth i (vscale c v) 0 = c * nth i v 0.
Proof. apply (nth_map_0 (Rmult c)). lra. Qed.

Lemma vadd_length (u v : vector) :
  length (vadd u v) = Nat.max (length u) (length v).
Proof. apply ewise_length. Qed.

Lemma vsub_length (u v : vector) :
  length (vsub u v) = Nat.max (length u) (length v).
Proof. apply ewise_length. Qed.

Lemma vscale_length (c : R) (v : vector) : length (vscale c v) = length v.
Proof. apply length_map. Qed.

Lemma vector_ext (u v : vector) :
  length u = length v -> (forall i, nth i u 0 = nth i v 0) -> u = v.
Proof. intros Hl Hn. apply (nth_ext u v 0 0 Hl). intros i _. apply Hn. Qed.

(** Equations between vectors, entry by entry. *)
Ltac vector_eq :=
  apply vector_ext;
  [ repeat first [ rewrite vadd_length | rewrite vsub_length
                 | rewrite vscale_length | rewrite length_map ];
    lia
  | intros;
    repeat first [ rewrite nth_vadd | rewrite nth_vsub
                 | rewrite nth_vscale ];
    try ring ].

Lemma vadd_comm (u v : vector) : vadd u v = vadd v u.
Proof. vector_eq. Qed.

Lemma vadd_assoc (u v w : vector) : vadd (vadd u v) w = vadd u (vadd v w).
Proof. vector_eq. Qed.

Lemma vscale_vadd (c : R) (u v : vector) :
  vscale c (vadd u v) = vadd (vscale c u) (vscale c v).
Proof. vector_eq. Qed.

Lemma vscale_vscale (c d : R) (v : vector) :
  vscale c (vscale d v) = vscale d (vscale c v).
Proof. vector_eq. Qed.

Lemma vdot_nil_l (d : vector) : vdot [] d = 0.
Proof.
  unfold vdot. simpl. induction d as [|y d IH]; simpl; [reflexivity|].
  fold (Rsum (map (Rmult 0) d)). rewrite IH. lra.
Qed.

Lemma vdot_nil_r (u : vector) : vdot u [] = 0.
Proof.
  unfold vdot. destruct u as [|x u]; [reflexivity|].
  change (ewise Rmult (x :: u) []) with (map (fun a => a * 0) (x :: u)).
  generalize (x :: u). intros l.
  induction l as [|y l IH]; simpl; [reflexivity|].
  fold (Rsum (map (fun a => a * 0) l)). rewrite IH. lra.
Qed.

Lemma vdot_cons (x y : R) (u v : vector) :
  vdot (x :: u) (y :: v) = x * y + vdot u v.
Proof. reflexivity. Qed.

Lemma vdot_vadd_l (a b d : vector) :
  vdot (vadd a b) d = vdot a d + vdot b d.
Proof.
  revert b d. induction a as [|x a IH]; intros b d.
  - rewrite vadd_nil_l, vdot_nil_l. lra.
  - destruct b as [|y b].
    + rewrite vadd_nil_r, vdot_nil_l. lra.
    + destruct d as [|z d].
      * rewrite !vdot_nil_r. lra.
      * rewrite vadd_cons, !vdot_cons, IH. lra.
Qed.

Lemma vdot_comm (u v : vector) : vdot u v = vdot v u.
Proof.
  revert v. induction u as [|x u IH]; intros v.
  - rewrite vdot_nil_l, vdot_nil_r. reflexivity.
  - destruct v as [|y v].
    + rewrite vdot_nil_l, vdot_nil_r. reflexivity.
    + rewrite !vdot_cons, IH. lra.
Qed.

Lemma vdot_vadd_r (d a b : vector) :
  vdot d (vadd a b) = vdot d a + vdot d b.
Proof. rewrite vdot_comm, vdot_vadd_l, !(vdot_comm d). reflexivity. Qed.

Lemma vdot_vscale_l (c : R) (u v : vector) :
  vdot (vscale c u) v = c * vdot u v.
Proof.
  revert v. induction u as [|x u IH]; intros v.
  - change (vscale c []) with (@nil R). rewrite vdot_nil_l. lra.
  - destruct v as [|y v].
    + rewrite !vdot_nil_r. lra.
    + change (vscale c (x :: u)) with (c * x :: vscale c u).
      rewrite !vdot_cons, IH. lra.
Qed.

Lemma vdot_vscale_r (c : R) (u v : vector) :
  vdot u (vscale c v) = c * vdot u v.
Proof. rewrite vdot_comm, vdot_vscale_l, vdot_comm. reflexivity. Qed.

Lemma vdot_opp_l (u v : vector) : vdot (map Ropp u) v = - vdot u v.
Proof.
  revert v. induction u as [|x u IH]; intros v.
  - simpl map. rewrite vdot_nil_l. lra.
  - destruct v as [|y v].
    + rewrite !vdot_nil_r. lra.
    + simpl map. rewrite !vdot_cons, IH. lra.
Qed.

Lemma map_map_Rplus_0 (a : matrix) : map (map (Rplus 0)) a = a.
Proof.
  induction a as [|r a IH]; simpl; [reflexivity|].
  rewrite IH, map_Rplus_0. reflexivity.
Qed.

Lemma map_map_Rplus_0_r (a : matrix) : map (map (fun x => x + 0)) a = a.
Proof.
  induction a as [|r a IH]; simpl; [reflexivity|].
  rewrite IH, map_Rplus_0_r. reflexivity.
Qed.

Lemma madd_nil_l (a : matrix) : [] +m a = a.
Proof. apply map_map_Rplus_0. Qed.

Lemma madd_nil_r (a : matrix) : a +m [] = a.
Proof.
  destruct a as [|r a]; [reflexivity|]. apply (map_map_Rplus_0_r (r :: a)).
Qed.

Lemma madd_cons (r s : vector) (a b : matrix) :
  (r :: a) +m (s :: b) = vadd r s :: (a +m b).
Proof. reflexivity. Qed.

Lemma vecmat_nil_r (v : vector) : vecmat v [] = [].
Proof. destruct v; reflexivity. Qed.

Lemma vecmat_madd (v : vector) (a b : matrix) :
  vecmat v (a +m b) = vadd (vecmat v a) (vecmat v b).
Proof.
  revert a b. induction v as [|x v IH]; intros a b; [reflexivity|].
  destruct a as [|r a].
  - rewrite madd_nil_l, vecmat_nil_r, vadd_nil_l. reflexivity.
  - destruct b as [|t b].
    + rewrite madd_nil_r, vecmat_nil_r, vadd_nil_r. reflexivity.
    + rewrite madd_cons. simpl vecmat. rewrite IH. vector_eq.
Qed.

Lemma vecmat_mscale (s : R) (v : vector) (d : matrix) :
  vecmat v (s *m d) = vscale s (vecmat v d).
Proof.
  revert d. induction v as [|x v IH]; intros d; [reflexivity|].
  destruct d as [|r d]; [reflexivity|].
  change (s *m (r :: d)) with (vscale s r :: s *m d).
  simpl vecmat. rewrite IH. vector_eq.
Qed.

Lemma mdot_nil_r (a : matrix) : mdot a [] = 0.
Proof. destruct a; reflexivity. Qed.

Lemma mdot_madd_l (a b d : matrix) :
  mdot (a +m b) d = mdot a d + mdot b d.
Proof.
  revert b d. induction a as [|r a IH]; intros b d.
  - rewrite madd_nil_l. simpl. lra.
  - destruct b as [|t b].
    + rewrite madd_nil_r. simpl mdot at 3. lra.
    + destruct d as [|z d].
      * rewrite !mdot_nil_r. lra.
      * rewrite madd_cons. simpl mdot. rewrite IH, vdot_vadd_l. lra.
Qed.

Lemma mdot_mscale_l (c : R) (a d : matrix) :
  mdot (c *m a) d = c * mdot a d.
Proof.
  revert d. induction a as [|r a IH]; intros d.
  - simpl. lra.
  - destruct d as [|z d].
    + rewrite !mdot_nil_r. lra.
    + change (c *m (r :: a)) with (vscale c r :: c *m a).
      simpl mdot. rewrite IH, vdot_vscale_l. lra.
Qed.

(** ** The products of the arrays, entry by entry *)

(** The entry [j] of [v.n] is the sum over [i] of [v_i * n_ij]. *)
Lemma vecmat_entry (v : vector) (n : matrix) (j : nat) :
  nth j (vecmat v n) 0
  = Rsum (map (fun p => fst p * nth j (snd p) 0) (combine v n)).
Proof.
  revert n. induction v as [|x v IH]; intros n.
  - simpl. apply nth_nil_0.
  - destruct n as [|r n]; [apply nth_nil_0|].
    simpl vecmat. rewrite nth_vadd, nth_vscale, IH. reflexivity.
Qed.

Lemma dot_entry (a b : matrix) (i j : nat) :
  nth j (nth i (T.dot a b) []) 0
  = Rsum (map (fun p => fst p * nth j (snd p) 0) (combine (nth i a []) b)).
Proof.
  unfold T.dot.
  change (@nil R) with (vecmat [] b) at 1.
  rewrite (map_nth (fun m => vecmat m b)). apply vecmat_entry.
Qed.

Lemma column_entry (w : matrix) (i j : nat) :
  nth i (column j w) 0 = nth j (nth i w []) 0.
Proof.
  unfold column.
  destruct (Nat.lt_ge_cases i (length w)) as [Hi|Hi].
  - rewrite (nth_indep _ 0 (nth j [] 0)) by (rewrite length_map; exact Hi).
    apply (map_nth (fun r => nth j r 0)).
  - rewrite (nth_overflow (map _ w)) by (rewrite length_map; exact Hi).
    rewrite (nth_overflow w) by exact Hi.
    symmetry. apply nth_nil_0.
Qed.

Lemma combine_map_r {X Y Z : Type} (f : Y -> Z) (l : list X) (l' : list Y) :
  combine l (map f l')
  = map (fun p => (fst p, f (snd p))) (combine l l').
Proof.
  revert l'. induction l as [|x l IH]; intros [|y l']; simpl;
    try reflexivity.
  rewrite IH. reflexivity.
Qed.

(** The entry [i] of [h.W^T] is the sum over [j] of [h_j * W_ij]. *)
Lemma vecmat_transpose_entry (h : vector) (w : matrix) (i : nat) :
  nth i (vecmat h (T.transpose w)) 0
  = Rsum (map (fun p => fst p * nth (snd p) (nth i w []) 0)
            (combine h (seq 0 (ncols w)))).
Proof.
  rewrite vecmat_entry. unfold T.transpose.
  rewrite combine_map_r, map_map. f_equal.
  apply map_ext. intros [x j]. simpl. rewrite column_entry. reflexivity.
Qed.

(** ** The free energy, row by row *)

Lemma free_energy_cons (self : CRBM.t) (v h : vector) (vs hs : matrix) :
  CRBM.free_energy self (v :: vs) (h :: hs)
  = free_energy_row self v h :: CRBM.free_energy self vs hs.
Proof.
  unfold CRBM.free_energy, free_energy_row, vsub at 1 3.
  cbn [T.dot map madd msub mewise add_row T.sum_axis1 T.sqr T.log T.exp
       mmap mscale ewise].
  f_equal.
  fold vadd vsub.
  rewrite Rsum_scale, !map_map. reflexivity.
Qed.

Lemma free_energy_by_rows (self : CRBM.t) (v_sample v_history : matrix) :
  length v_sample = length v_history ->
  CRBM.free_energy self v_sample v_history
  = map (fun vh => free_energy_row self (fst vh) (snd vh))
        (combine v_sample v_history).
Proof.
  revert v_history.
  induction v_sample as [|v vs IH]; intros [|h hs] Hlen; try discriminate.
  - reflexivity.
  - rewrite free_energy_cons, IH by (simpl in Hlen; lia). reflexivity.
Qed.

(** C3. On a batch of visible vectors and as many histories,
    [free_energy] returns, row by row, [visible_term - hidden_term] with
    [wx_b = v.W + v_history.B + hbias], [ax_b = v_history.A + vbias],
    [visible_term] half the sum over the visible units of
    [(v - ax_b)^2] and [hidden_term] the sum over the hidden units of
    [log(1 + exp(wx_b))]. *)
Theorem free_energy_rows (self : CRBM.t) (v_sample v_history : matrix) :
  length v_sample = length v_history ->
  CRBM.free_energy self v_sample v_history
  = map (fun vh =>
           let v := fst vh in
           let h := snd vh in
           let wx_b :=
             vadd (vadd (vecmat v (CRBM.W self)) (vecmat h (CRBM.B self)))
                  (CRBM.hbias self) in
           let ax_b := vadd (vecmat h (CRBM.A self)) (CRBM.vbias self) in
           let visible_term := 0.5 * Rsum (map Rsqr (vsub v ax_b)) in
           let hidden_term := Rsum (map (fun x => ln (1 + exp x)) wx_b) in
           visible_term - hidden_term)
        (combine v_sample v_history).
Proof. apply free_energy_by_rows. Qed.

Lemma free_energy_rows_witness :
  CRBM.free_energy model2 (CRBM.input model2) (CRBM.input_history model2)
  = map (fun vh =>
           let v := fst vh in
           let h := snd vh in
           let wx_b :=
             vadd (vadd (vecmat v (CRBM.W model2))
                        (vecmat h (CRBM.B model2)))
                  (CRBM.hbias model2) in
           let ax_b :=
             vadd (vecmat h (CRBM.A model2)) (CRBM.vbias model2) in
           let visible_term := 0.5 * Rsum (map Rsqr (vsub v ax_b)) in
           let hidden_term := Rsum (map (fun x => ln (1 + exp x)) wx_b) in
           visible_term - hidden_term)
        (combine (CRBM.input model2) (CRBM.input_history model2)).
Proof.
  apply (free_energy_rows model2 (CRBM.input model2)
           (CRBM.input_history model2)).
  reflexivity.
Defined.

(** ** A model with zero weights *)

Lemma vscale_zeros (x : R) (c : nat) : vscale x (repeat 0 c) = repeat 0 c.
Proof.
  unfold vscale. induction c as [|c IH]; simpl; [reflexivity|].
  rewrite IH, Rmult_0_r. reflexivity.
Qed.

Lemma vadd_zeros (a b : nat) :
  vadd (repeat 0 a) (repeat 0 b) = repeat 0 (Nat.max a b).
Proof.
  revert b. induction a as [|a IH]; intros b.
  - apply vadd_nil_l.
  - destruct b as [|b]; [apply vadd_nil_r|].
    simpl repeat. rewrite vadd_cons, IH, Rplus_0_r. reflexivity.
Qed.

Lemma vadd_zeros_l (c : nat) (b : vector) :
  (c <= length b)%nat -> vadd (repeat 0 c) b = b.
Proof.
  revert b. induction c as [|c IH]; intros b Hc.
  - apply vadd_nil_l.
  - destruct b as [|y b]; [simpl in Hc; lia|].
    simpl repeat. rewrite vadd_cons, IH, Rplus_0_l by (simpl in Hc; lia).
    reflexivity.
Qed.

Lemma vecmat_zeros (v : vector) (n c : nat) :
  exists c', (c' <= c)%nat /\ vecmat v (repeat (repeat 0 c) n) = repeat 0 c'.
Proof.
  revert n. induction v as [|x v IH]; intros n.
  - exists 0%nat. split; [lia|]. destruct n; reflexivity.
  - destruct n as [|n].
    + exists 0%nat. split; [lia|reflexivity].
    + destruct (IH n) as (c' & Hc' & E).
      exists (Nat.max c c'). split; [lia|].
      simpl. rewrite E, vscale_zeros. apply vadd_zeros.
Qed.

Lemma softplus_sum (b : vector) :
  Rsum (map (fun x => ln (1 + exp x)) b)
  = INR (length b) * ln 2 - Rsum (map (fun x => ln 2 - ln (1 + exp x)) b).
Proof.
  induction b as [|x b IH].
  - simpl. lra.
  - cbn [map length]. rewrite !Rsum_cons, IH, S_INR. lra.
Qed.

Lemma softplus_sum_zeros (n : nat) :
  Rsum (map (fun x => ln (1 + exp x)) (repeat 0 n)) = INR n * ln 2.
Proof.
  rewrite map_repeat, Rsum_repeat, exp_0.
  replace (1 + 1) with 2 by lra. reflexivity.
Qed.

Lemma free_energy_row_zero_weights (self : CRBM.t) (v h : vector) :
  CRBM.W self = repeat (repeat 0 (CRBM.n_hidden self)) (CRBM.n_visible self) ->
  CRBM.A self
  = repeat (repeat 0 (CRBM.n_visible self))
      (CRBM.n_visible self * CRBM.delay self) ->
  CRBM.B self
  = repeat (repeat 0 (CRBM.n_hidden self))
      (CRBM.n_visible self * CRBM.delay self) ->
  length (CRBM.hbias self) = CRBM.n_hidden self ->
  length (CRBM.vbias self) = CRBM.n_visible self ->
  free_energy_row self v h
  = 0.5 * Rsum (map Rsqr (vsub v (CRBM.vbias self)))
    - Rsum (map (fun x => ln (1 + exp x)) (CRBM.hbias self)).
Proof.
  intros HW HA HB Hh Hv. unfold free_energy_row.
  rewrite HW, HA, HB.
  destruct (vecmat_zeros v (CRBM.n_visible self) (CRBM.n_hidden self))
    as (c1 & Hc1 & ->).
  destruct (vecmat_zeros h (CRBM.n_visible self * CRBM.delay self)
              (CRBM.n_hidden self)) as (c2 & Hc2 & ->).
  destruct (vecmat_zeros h (CRBM.n_visible self * CRBM.delay self)
              (CRBM.n_visible self)) as (c3 & Hc3 & ->).
  rewrite vadd_zeros, !vadd_zeros_l by lia. reflexivity.
Qed.

(** C8. With [W = 0], [A = 0] and [B = 0] the free energy of a row [v]
    is [0.5 * sum((v - vbias)^2) - n_hidden * log(2)] plus a sum over
    the hidden units of a term of [hbias] alone; with [hbias = 0] it is
    [0.5 * sum((v - vbias)^2) - n_hidden * log(2)]. *)
Theorem free_energy_zero_weights
    (self : CRBM.t) (v_sample v_history : matrix) :
  CRBM.W self = repeat (repeat 0 (CRBM.n_hidden self)) (CRBM.n_visible self) ->
  CRBM.A self
  = repeat (repeat 0 (CRBM.n_visible self))
      (CRBM.n_visible self * CRBM.delay self) ->
  CRBM.B self
  = repeat (repeat 0 (CRBM.n_hidden self))
      (CRBM.n_visible self * CRBM.delay self) ->
  length (CRBM.hbias self) = CRBM.n_hidden self ->
  length (CRBM.vbias self) = CRBM.n_visible self ->
  length v_sample = length v_history ->
  CRBM.free_energy self v_sample v_history
  = map (fun v =>
           0.5 * Rsum (map Rsqr (vsub v (CRBM.vbias self)))
           - INR (CRBM.n_hidden self) * ln 2
           + Rsum (map (fun b => ln 2 - ln (1 + exp b)) (CRBM.hbias self)))
        v_sample
  /\ (CRBM.hbias self = repeat 0 (CRBM.n_hidden self) ->
      CRBM.free_energy self v_sample v_history
      = map (fun v =>
               0.5 * Rsum (map Rsqr (vsub v (CRBM.vbias self)))
               - INR (CRBM.n_hidden self) * ln 2)
            v_sample).
Proof.
  intros HW HA HB Hh Hv Hlen.
  assert (E : CRBM.free_energy self v_sample v_history
              = map (fun v =>
                       0.5 * Rsum (map Rsqr (vsub v (CRBM.vbias self)))
                       - Rsum (map (fun x => ln (1 + exp x))
                                 (CRBM.hbias self)))
                    v_sample).
  { rewrite free_energy_by_rows by exact Hlen.
    revert v_history Hlen.
    induction v_sample as [|v vs IH]; intros [|h hs] Hlen;
      try discriminate Hlen; simpl; [reflexivity|].
    rewrite IH, free_energy_row_zero_weights
      by (assumption || (simpl in Hlen; lia)).
    reflexivity. }
  split.
  - rewrite E. apply map_ext. intros v.
    rewrite softplus_sum, Hh. lra.
  - intros H0. rewrite E. apply map_ext. intros v.
    rewrite H0, softplus_sum_zeros. reflexivity.
Qed.

Lemma free_energy_zero_weights_witness :
  CRBM.free_energy demo [[1]] [[0]]
  = map (fun v =>
           0.5 * Rsum (map Rsqr (vsub v (CRBM.vbias demo)))
           - INR (CRBM.n_hidden demo) * ln 2
           + Rsum (map (fun b => ln 2 - ln (1 + exp b)) (CRBM.hbias demo)))
        [[1]]
  /\ (CRBM.hbias demo = repeat 0 (CRBM.n_hidden demo) ->
      CRBM.free_energy demo [[1]] [[0]]
      = map (fun v =>
               0.5 * Rsum (map Rsqr (vsub v (CRBM.vbias demo)))
               - INR (CRBM.n_hidden demo) * ln 2)
            [[1]]).
Proof.
  apply (free_energy_zero_weights demo [[1]] [[0]]); reflexivity.
Defined.

(** ** Upward propagation *)

Lemma sigmoid1_range (x : R) : 0 < T.sigmoid1 x < 1.
Proof.
  unfold T.sigmoid1.
  pose proof (exp_pos (- x)) as He.
  assert (H1 : 0 < 1 + exp (- x)) by lra.
  split.
  - apply Rdiv_lt_0_compat; lra.
  - apply (Rmult_lt_reg_r (1 + exp (- x))); [assumption|].
    unfold Rdiv. rewrite Rmult_assoc, Rinv_l by lra. lra.
Qed.

(** C6. [propup] returns the pre-activation
    [a = v.W + v_history.B + hbias] and the probability [sigmoid(a)],
    as two values, in that order; each probability lies strictly
    between 0 and 1. *)
Theorem propup_exposes_both (self : CRBM.t) (vis v_history : matrix) :
  let a := T.dot vis (CRBM.W self) +m T.dot v_history (CRBM.B self)
           +r CRBM.hbias self in
  CRBM.propup self vis v_history
  = (a, mmap (fun x => 1 / (1 + exp (- x))) a)
  /\ shape (snd (CRBM.propup self vis v_history)) = shape a
  /\ forall row p,
       In row (snd (CRBM.propup self vis v_history)) -> In p row ->
       0 < p < 1.
Proof.
  intros a. split; [reflexivity|]. split.
  - unfold CRBM.propup, shape, T.sigmoid, mmap. simpl. fold a.
    rewrite map_map. apply map_ext. intros r. apply length_map.
  - unfold CRBM.propup, T.sigmoid, mmap. simpl. fold a.
    intros row p Hrow Hp.
    apply in_map_iff in Hrow. destruct Hrow as [r [<- _]].
    apply in_map_iff in Hp. destruct Hp as [x [<- _]].
    apply sigmoid1_range.
Qed.

(** ** Sampling *)

Lemma binomial_vector_trials (g : nat -> R) (n : nat) (p : vector) :
  binomial_vector g n p = (trials g n p, (n + length p)%nat).
Proof.
  revert n. induction p as [|x p IH]; intros n; simpl.
  - unfold trials. simpl. f_equal. lia.
  - rewrite IH. unfold trials. simpl. f_equal. lia.
Qed.

Lemma trials_app (g : nat -> R) (n : nat) (p q : vector) :
  trials g n (p ++ q) = trials g n p ++ trials g (n + length p) q.
Proof.
  revert n. induction p as [|x p IH]; intros n.
  - simpl. rewrite Nat.add_0_r. reflexivity.
  - unfold trials in *. simpl. f_equal.
    rewrite IH. simpl. rewrite Nat.add_succ_r. reflexivity.
Qed.

Lemma trials_length (g : nat -> R) (n : nat) (p : vector) :
  length (trials g n p) = length p.
Proof.
  unfold trials.
  rewrite length_map, length_combine, length_seq. apply Nat.min_id.
Qed.

Lemma binomial_matrix_trials (g : nat -> R) (n : nat) (p : matrix) :
  entries (fst (binomial_matrix g n p)) = trials g n (entries p)
  /\ shape (fst (binomial_matrix g n p)) = shape p
  /\ snd (binomial_matrix g n p) = (n + length (entries p))%nat.
Proof.
  revert n. induction p as [|r p IH]; intros n.
  - simpl. repeat split. lia.
  - simpl. rewrite binomial_vector_trials.
    destruct (IH (n + length r)%nat) as (He & Hs & Hn).
    destruct (binomial_matrix g (n + length r) p) as [rest n2].
    simpl in *. unfold entries in *. simpl.
    rewrite trials_app, He, Hs, Hn, trials_length, length_app.
    repeat split. lia.
Qed.

Lemma bernoulli_binary (u p : R) : bernoulli u p = 0 \/ bernoulli u p = 1.
Proof. unfold bernoulli. destruct (Rlt_dec u p); auto. Qed.

Lemma trials_binary (g : nat -> R) (n : nat) (p : vector) (x : R) :
  In x (trials g n p) -> x = 0 \/ x = 1.
Proof.
  unfold trials. intros H. apply in_map_iff in H.
  destruct H as [ix [<- _]]. apply bernoulli_binary.
Qed.

Lemma in_entries (a : matrix) (row : vector) (x : R) :
  In row a -> In x row -> In x (entries a).
Proof.
  intros Hrow Hx. unfold entries. apply in_concat. exists row. auto.
Qed.

Lemma sample_h_given_v_run
    (self : CRBM.t) (v0_sample v_history : matrix) :
  let a := fst (CRBM.propup self v0_sample v_history) in
  let p := snd (CRBM.propup self v0_sample v_history) in
  let rng := CRBM.theano_rng self in
  exists h1_sample : matrix,
    CRBM.sample_h_given_v v0_sample v_history self
    = (Ok (a, p, h1_sample),
       CRBM.set_theano_rng self
         (mkRandomStreams (draws rng)
            (pos rng + length (entries p))))
    /\ p = T.sigmoid a
    /\ shape h1_sample = shape p
    /\ entries h1_sample = trials (draws rng) (pos rng) (entries p)
    /\ forall row x, In row h1_sample -> In x row -> x = 0 \/ x = 1.
Proof.
  intros a p rng.
  pose proof (binomial_matrix_trials (draws rng) (pos rng) p)
    as (He & Hs & Hn).
  exists (fst (binomial_matrix (draws rng) (pos rng) p)).
  split; [|split; [reflexivity|split; [exact Hs|split; [exact He|]]]].
  - unfold CRBM.sample_h_given_v, CRBM.bind, CRBM.get_self,
      CRBM.rng_binomial, CRBM.ret, binomial.
    change (CRBM.propup self v0_sample v_history) with (a, p).
    cbv beta iota. subst rng.
    destruct (binomial_matrix _ _ p) as [s n] eqn:Eb.
    simpl in Hn. subst n. reflexivity.
  - intros row x Hrow Hx.
    apply (trials_binary (draws rng) (pos rng) (entries p)).
    rewrite <- He. eapply in_entries; eassumption.
Qed.

Lemma bernoulli_success (u p : R) : bernoulli u p = 1 <-> u < p.
Proof.
  unfold bernoulli. destruct (Rlt_dec u p) as [H|H]; split; intros H';
    try assumption; try reflexivity; [lra|contradiction].
Qed.

(** C5. [sample_h_given_v] returns the pre-activation and the
    probability of [propup] and a sample of the shape of the
    probability.  Each entry of the sample is one Bernoulli trial of its
    own draw of the random stream, with the sigmoid of the
    pre-activation as success probability: it is 1 when the uniform
    draw falls below that probability, and 0 otherwise. *)
Theorem sample_h_given_v_bernoulli
    (self : CRBM.t) (v0_sample v_history : matrix) :
  let a := fst (CRBM.propup self v0_sample v_history) in
  let p := snd (CRBM.propup self v0_sample v_history) in
  let rng := CRBM.theano_rng self in
  exists h1_sample : matrix,
    CRBM.sample_h_given_v v0_sample v_history self
    = (Ok (a, p, h1_sample),
       CRBM.set_theano_rng self
         (mkRandomStreams (draws rng)
            (pos rng + length (entries p))))
    /\ p = T.sigmoid a
    /\ shape h1_sample = shape p
    /\ entries h1_sample = trials (draws rng) (pos rng) (entries p)
    /\ (forall row x, In row h1_sample -> In x row -> x = 0 \/ x = 1)
    /\ (forall u x, bernoulli u x = 1 <-> u < x)
    /\ (forall u x, bernoulli u x = 0 <-> ~ u < x).
Proof.
  intros a p rng.
  destruct (sample_h_given_v_run self v0_sample v_history)
    as (h1_sample & Hrun & Hp & Hshape & Hentries & Hbin).
  exists h1_sample. repeat split; try assumption.
  - apply bernoulli_success.
  - apply bernoulli_success.
  - unfold bernoulli. destruct (Rlt_dec u x); intros H; [lra|assumption].
  - unfold bernoulli. destruct (Rlt_dec u x); intros H;
      [contradiction|reflexivity].
Qed.

(** ** Downward propagation *)

Lemma transpose_entry (a : matrix) (i j : nat) :
  (j < ncols a)%nat ->
  nth i (nth j (T.transpose a) []) 0 = nth j (nth i a []) 0.
Proof.
  intros Hj. unfold T.transpose.
  rewrite (nth_indep _ [] (column 0 a))
    by (rewrite length_map, length_seq; exact Hj).
  rewrite (map_nth (fun j => column j a)), seq_nth by exact Hj.
  simpl. unfold column.
  destruct (Nat.lt_ge_cases i (length a)) as [Hi|Hi].
  - rewrite (nth_indep _ 0 (nth j [] 0)) by (rewrite length_map; exact Hi).
    apply (map_nth (fun r => nth j r 0)).
  - rewrite (nth_overflow (map _ a)) by (rewrite length_map; exact Hi).
    rewrite (nth_overflow a) by exact Hi.
    destruct j; reflexivity.
Qed.

(** C4. [sample_v_given_h] returns the pair [(m, m)] of the mean-field
    activation [m = h.W^T + v_history.A + vbias]: no sigmoid, no noise.
    It uses no draw and leaves the object as it is, so its output does
    not depend on the random stream and two calls on the same arguments
    return the same pair. *)
Theorem sample_v_given_h_mean_field
    (self : CRBM.t) (h0_sample v_history : matrix) :
  let m := T.dot h0_sample (T.transpose (CRBM.W self))
           +m T.dot v_history (CRBM.A self) +r CRBM.vbias self in
  CRBM.sample_v_given_h h0_sample v_history self = (Ok (m, m), self)
  /\ (forall rng,
       fst (CRBM.sample_v_given_h h0_sample v_history
              (CRBM.set_theano_rng self rng)) = Ok (m, m))
  /\ CRBM.bind (CRBM.sample_v_given_h h0_sample v_history)
       (fun first =>
          CRBM.bind (CRBM.sample_v_given_h h0_sample v_history)
            (fun second => CRBM.ret (first, second))) self
     = (Ok ((m, m), (m, m)), self).
Proof.
  intros m. repeat split.
Qed.

(** ** What a method does to the object *)

Lemma set_theano_rng_same (self : CRBM.t) :
  CRBM.set_theano_rng self (CRBM.theano_rng self) = self.
Proof. destruct self; reflexivity. Qed.

Lemma set_theano_rng_twice (self : CRBM.t) (r r' : RandomStreams) :
  CRBM.set_theano_rng (CRBM.set_theano_rng self r) r'
  = CRBM.set_theano_rng self r'.
Proof. reflexivity. Qed.

Lemma parameters_set_theano_rng (self : CRBM.t) (r : RandomStreams) :
  parameters (CRBM.set_theano_rng self r) = parameters self.
Proof. reflexivity. Qed.

Lemma only_rng_parameters {X : Type} (c : CRBM.M X) (self : CRBM.t) :
  only_rng c -> parameters (snd (c self)) = parameters self.
Proof.
  intros H. destruct (H self) as [rng ->]. apply parameters_set_theano_rng.
Qed.

Lemma only_rng_ret {X : Type} (x : X) : only_rng (CRBM.ret x).
Proof.
  intros self. exists (CRBM.theano_rng self).
  simpl. symmetry. apply set_theano_rng_same.
Qed.

Lemma only_rng_lift {X : Type} (r : result X) : only_rng (CRBM.lift r).
Proof.
  intros self. exists (CRBM.theano_rng self).
  simpl. symmetry. apply set_theano_rng_same.
Qed.

Lemma only_rng_get_self : only_rng CRBM.get_self.
Proof.
  intros self. exists (CRBM.theano_rng self).
  simpl. symmetry. apply set_theano_rng_same.
Qed.

Lemma only_rng_binomial (p : matrix) : only_rng (CRBM.rng_binomial p).
Proof.
  intros self. unfold CRBM.rng_binomial.
  destruct (binomial (CRBM.theano_rng self) p) as [s rng].
  exists rng. reflexivity.
Qed.

Lemma only_rng_bind {X Y : Type} (c : CRBM.M X) (f : X -> CRBM.M Y) :
  only_rng c -> (forall x, only_rng (f x)) -> only_rng (CRBM.bind c f).
Proof.
  intros Hc Hf self. unfold CRBM.bind.
  destruct (Hc self) as [rng Hrng].
  destruct (c self) as [[x|e] self1]; simpl in Hrng; subst self1.
  - destruct (Hf x (CRBM.set_theano_rng self rng)) as [rng' Hrng'].
    exists rng'. rewrite Hrng'. apply set_theano_rng_twice.
  - exists rng. reflexivity.
Qed.

Lemma total_ret {X : Type} (x : X) : total (CRBM.ret x).
Proof. intros self. exists x. reflexivity. Qed.

Lemma total_get_self : total CRBM.get_self.
Proof. intros self. exists self. reflexivity. Qed.

Lemma total_binomial (p : matrix) : total (CRBM.rng_binomial p).
Proof.
  intros self. unfold CRBM.rng_binomial.
  destruct (binomial (CRBM.theano_rng self) p) as [s rng].
  exists s. reflexivity.
Qed.

Lemma total_bind {X Y : Type} (c : CRBM.M X) (f : X -> CRBM.M Y) :
  total c -> (forall x, total (f x)) -> total (CRBM.bind c f).
Proof.
  intros Hc Hf self. unfold CRBM.bind.
  destruct (Hc self) as [x Hx].
  destruct (c self) as [[x'|e] self1]; simpl in Hx; [|discriminate].
  apply Hf.
Qed.

Create HintDb crbm.
#[local] Hint Resolve only_rng_ret only_rng_lift only_rng_get_self
  only_rng_binomial total_ret total_get_self total_binomial : crbm.

Ltac step_bind :=
  first [ apply only_rng_bind | apply total_bind ];
  [ auto with crbm | intros ].

Lemma only_rng_sample_h_given_v (v h : matrix) :
  only_rng (CRBM.sample_h_given_v v h).
Proof.
  unfold CRBM.sample_h_given_v. step_bind.
  destruct (CRBM.propup _ _ _). step_bind. auto with crbm.
Qed.

Lemma total_sample_h_given_v (v h : matrix) :
  total (CRBM.sample_h_given_v v h).
Proof.
  unfold CRBM.sample_h_given_v. step_bind.
  destruct (CRBM.propup _ _ _). step_bind. auto with crbm.
Qed.

Lemma only_rng_sample_v_given_h (v h : matrix) :
  only_rng (CRBM.sample_v_given_h v h).
Proof. unfold CRBM.sample_v_given_h. step_bind. auto with crbm. Qed.

Lemma total_sample_v_given_h (v h : matrix) :
  total (CRBM.sample_v_given_h v h).
Proof. unfold CRBM.sample_v_given_h. step_bind. auto with crbm. Qed.

#[local] Hint Resolve only_rng_sample_h_given_v total_sample_h_given_v
  only_rng_sample_v_given_h total_sample_v_given_h : crbm.

Lemma only_rng_gibbs_hvh (h v_history : matrix) :
  only_rng (CRBM.gibbs_hvh h v_history).
Proof.
  unfold CRBM.gibbs_hvh. step_bind. destruct x as [v1_mean v1_sample].
  step_bind. destruct x as [[a p] s]. auto with crbm.
Qed.

Lemma total_gibbs_hvh (h v_history : matrix) :
  total (CRBM.gibbs_hvh h v_history).
Proof.
  unfold CRBM.gibbs_hvh. step_bind. destruct x as [v1_mean v1_sample].
  step_bind. destruct x as [[a p] s]. auto with crbm.
Qed.

Lemma only_rng_gibbs_vhv (v v_history : matrix) :
  only_rng (CRBM.gibbs_vhv v v_history).
Proof.
  unfold CRBM.gibbs_vhv. step_bind. destruct x as [[a p] s].
  step_bind. destruct x as [v1_mean v1_sample]. auto with crbm.
Qed.

#[local] Hint Resolve only_rng_gibbs_hvh total_gibbs_hvh
  only_rng_gibbs_vhv : crbm.

Lemma only_rng_scan_steps (h ns : matrix) (n : nat) :
  only_rng (CRBM.scan_steps CRBM.gibbs_hvh h ns n).
Proof.
  revert h. induction n as [|n IH]; intros h; simpl.
  - auto with crbm.
  - step_bind. step_bind. auto with crbm.
Qed.

Lemma only_rng_get_cost_updates (lr : R) (k : Z) :
  only_rng (CRBM.get_cost_updates lr k).
Proof.
  unfold CRBM.get_cost_updates, CRBM.scan.
  step_bind. step_bind. destruct x0 as [[a p] s].
  apply only_rng_bind.
  - apply only_rng_bind; [apply only_rng_scan_steps|intros].
    step_bind. auto with crbm.
  - intros [[[[[m1 m2] m3] m4] m5] u].
    step_bind. step_bind. step_bind. auto with crbm.
Qed.

(** C10. No operation of the model changes a parameter: after
    [free_energy], [propup], [propdown], either sampling function,
    either Gibbs transition or [get_cost_updates], whatever the
    arguments and whether or not the call raises, [W], [A], [B],
    [hbias] and [vbias] are what they were before the call.  The new
    values of [get_cost_updates] are in the dictionary it returns. *)
Theorem parameters_unchanged
    (self : CRBM.t) (v h : matrix) (lr : R) (k : Z) :
  parameters (snd (method (fun s => CRBM.free_energy s v h) self))
  = parameters self
  /\ parameters (snd (method (fun s => CRBM.propup s v h) self))
     = parameters self
  /\ parameters (snd (method (fun s => CRBM.propdown s v h) self))
     = parameters self
  /\ parameters (snd (CRBM.sample_h_given_v v h self)) = parameters self
  /\ parameters (snd (CRBM.sample_v_given_h v h self)) = parameters self
  /\ parameters (snd (CRBM.gibbs_hvh v h self)) = parameters self
  /\ parameters (snd (CRBM.gibbs_vhv v h self)) = parameters self
  /\ parameters (snd (CRBM.get_cost_updates lr k self)) = parameters self.
Proof.
  repeat split; try reflexivity; apply only_rng_parameters;
    auto using only_rng_get_cost_updates with crbm.
Qed.

(** ** The Gibbs chain *)

Lemma bind_ok {X Y : Type} (c : CRBM.M X) (f : X -> CRBM.M Y)
    (self self' : CRBM.t) (x : X) :
  c self = (Ok x, self') -> CRBM.bind c f self = f x self'.
Proof. intros H. unfold CRBM.bind. rewrite H. reflexivity. Qed.

Lemma bind_err {X Y : Type} (c : CRBM.M X) (f : X -> CRBM.M Y)
    (self self' : CRBM.t) (e : exn) :
  c self = (Err e, self') -> CRBM.bind c f self = (Err e, self').
Proof. intros H. unfold CRBM.bind. rewrite H. reflexivity. Qed.

Lemma total_run {X : Type} (c : CRBM.M X) (self : CRBM.t) :
  total c -> exists x self', c self = (Ok x, self').
Proof.
  intros H. destruct (H self) as [x Hx].
  exists x, (snd (c self)).
  destruct (c self) as [r s]. simpl in *. subst r. reflexivity.
Qed.

Lemma total_hvh (ns h : matrix) : total (hvh ns h).
Proof. unfold hvh. step_bind. auto with crbm. Qed.

Lemma total_iterate (ns : matrix) (n : nat) (h : matrix) :
  total (iterate n (hvh ns) h).
Proof.
  revert h. induction n as [|n IH]; intros h; simpl.
  - auto with crbm.
  - apply total_bind; [apply total_hvh|exact IH].
Qed.

Lemma last_item_snoc {X : Type} (l : list X) (x : X) :
  last_item (l ++ [x]) = Ok x.
Proof. unfold last_item. rewrite rev_unit. reflexivity. Qed.

(** The steps of [scan]: all but the last one are the iteration of the
    transition, and the last one starts from its result. *)
Lemma scan_steps_last (ns : matrix) (n : nat) (h : matrix)
    (self : CRBM.t) :
  exists h' self1 o self2 front,
    iterate n (hvh ns) h self = (Ok h', self1)
    /\ CRBM.gibbs_hvh h' ns self1 = (Ok o, self2)
    /\ CRBM.scan_steps CRBM.gibbs_hvh h ns (S n) self
       = (Ok (front ++ [o]), self2)
    /\ length front = n.
Proof.
  revert h self. induction n as [|n IH]; intros h self.
  - destruct (total_run (CRBM.gibbs_hvh h ns) self (total_gibbs_hvh _ _))
      as (o & self2 & Ho).
    exists h, self, o, self2, []. repeat split; [exact Ho|].
    simpl. rewrite (bind_ok _ _ _ _ _ Ho). reflexivity.
  - destruct (total_run (CRBM.gibbs_hvh h ns) self (total_gibbs_hvh _ _))
      as (o1 & self1 & Ho1).
    destruct (IH (CRBM.out5 o1) self1)
      as (h' & self2 & o & self3 & front & Hit & Hstep & Hscan & Hlen).
    exists h', self2, o, self3, (o1 :: front). repeat split.
    + assert (Hh : hvh ns h self = (Ok (CRBM.out5 o1), self1))
        by (unfold hvh; rewrite (bind_ok _ _ _ _ _ Ho1); reflexivity).
      simpl. rewrite (bind_ok _ _ _ _ _ Hh). exact Hit.
    + exact Hstep.
    + change (CRBM.scan_steps CRBM.gibbs_hvh h ns (S (S n)))
        with (CRBM.bind (CRBM.gibbs_hvh h ns) (fun o =>
              CRBM.bind (CRBM.scan_steps CRBM.gibbs_hvh (CRBM.out5 o) ns (S n))
                (fun rest => CRBM.ret (o :: rest)))).
      rewrite (bind_ok _ _ _ _ _ Ho1), (bind_ok _ _ _ _ _ Hscan).
      reflexivity.
    + simpl. congruence.
Qed.

Lemma scan_run (ns : matrix) (n : nat) (h : matrix) (self : CRBM.t) :
  exists h' self1 o self2 front,
    iterate n (hvh ns) h self = (Ok h', self1)
    /\ CRBM.gibbs_hvh h' ns self1 = (Ok o, self2)
    /\ CRBM.scan CRBM.gibbs_hvh h ns (Z.of_nat (S n)) self
       = (Ok (map CRBM.out1 (front ++ [o]), map CRBM.out2 (front ++ [o]),
              map CRBM.out3 (front ++ [o]), map CRBM.out4 (front ++ [o]),
              map CRBM.out5 (front ++ [o]),
              [(StateOf_theano_rng, NewState (CRBM.theano_rng self2))]), self2).
Proof.
  destruct (scan_steps_last ns n h self)
    as (h' & self1 & o & self2 & front & Hit & Hstep & Hscan & _).
  exists h', self1, o, self2, front. repeat split; try assumption.
  unfold CRBM.scan. rewrite Nat2Z.id.
  rewrite (bind_ok _ _ _ _ _ Hscan). reflexivity.
Qed.

Lemma total_gibbs_chain (k : nat) : total (gibbs_chain k).
Proof.
  unfold gibbs_chain. step_bind. step_bind.
  apply total_bind; [apply total_iterate|intros]. auto with crbm.
Qed.

Lemma total_cd_k (lr : R) (k : nat) : total (cd_k lr k).
Proof.
  unfold cd_k. apply total_bind; [apply total_gibbs_chain|intros].
  unfold cd_result. step_bind. auto with crbm.
Qed.

(** [get_cost_updates] with [k = n + 1], step by step. *)
Lemma get_cost_updates_run (lr : R) (n : nat) (self : CRBM.t) :
  exists o self',
    gibbs_chain (S n) self = (Ok o, self')
    /\ CRBM.get_cost_updates lr (Z.of_nat (S n)) self
       = cd_result lr o self'.
Proof.
  unfold CRBM.get_cost_updates, gibbs_chain.
  rewrite !(bind_ok CRBM.get_self _ self self self eq_refl).
  destruct (total_run _ self
              (total_sample_h_given_v (CRBM.input self)
                 (CRBM.input_history self)))
    as ([[a p] ph] & self1 & Hph).
  rewrite !(bind_ok _ _ _ _ _ Hph). cbv beta iota. simpl snd.
  destruct (scan_run (CRBM.input_history self) n ph self1)
    as (h' & self2 & o & self3 & front & Hit & Hstep & Hscan).
  exists o, self3.
  rewrite (bind_ok _ _ _ _ _ Hscan). cbv beta iota.
  replace (S n - 1)%nat with n by lia.
  rewrite (bind_ok _ _ _ _ _ Hit), Hstep.
  split; [reflexivity|].
  rewrite !map_app. simpl map.
  unfold CRBM.lift at 1.
  rewrite (bind_ok _ _ self3 self3 (CRBM.out2 o))
    by (rewrite last_item_snoc; reflexivity).
  unfold cd_result.
  rewrite !(bind_ok CRBM.get_self _ self3 self3 self3 eq_refl).
  unfold CRBM.lift.
  rewrite (bind_ok _ _ self3 self3 (CRBM.out1 o))
    by (rewrite last_item_snoc; reflexivity).
  reflexivity.
Qed.

(** C2. For [k >= 1] the negative phase of [get_cost_updates] is the
    k-fold iteration of [gibbs_hvh]: it starts from the hidden sample
    [ph_sample] of the input, every step is taken under the history of
    the input, each step starts from the hidden sample of the step
    before, and the visible sample of the k-th step is the chain end of
    the cost.  The call raises no exception. *)
Theorem negative_phase_iterates_gibbs_hvh
    (lr : R) (k : Z) (self : CRBM.t) :
  (1 <= k)%Z ->
  CRBM.get_cost_updates lr k self = cd_k lr (Z.to_nat k) self
  /\ exists r, fst (CRBM.get_cost_updates lr k self) = Ok r.
Proof.
  intros Hk.
  destruct (Z.to_nat k) as [|n] eqn:En; [lia|].
  assert (Ek : k = Z.of_nat (S n)) by lia. subst k.
  destruct (get_cost_updates_run lr n self) as (o & self' & Hchain & Hrun).
  assert (E : CRBM.get_cost_updates lr (Z.of_nat (S n)) self
              = cd_k lr (S n) self).
  { unfold cd_k. rewrite (bind_ok _ _ _ _ _ Hchain). exact Hrun. }
  split; [exact E|].
  rewrite E. apply total_cd_k.
Qed.

Lemma negative_phase_iterates_gibbs_hvh_witness :
  CRBM.get_cost_updates (1 / 10) 2 demo = cd_k (1 / 10) (Z.to_nat 2) demo
  /\ exists r, fst (CRBM.get_cost_updates (1 / 10) 2 demo) = Ok r.
Proof.
  apply (negative_phase_iterates_gibbs_hvh (1 / 10) 2 demo). lia.
Defined.

(** ** The number of Gibbs steps *)





(** ** The monitoring cost *)

Lemma gibbs_hvh_visible (h v_history : matrix) (self self' : CRBM.t)
    (o : CRBM.outputs) :
  CRBM.gibbs_hvh h v_history self = (Ok o, self') ->
  CRBM.out1 o = CRBM.propdown self h v_history
  /\ CRBM.out2 o = CRBM.propdown self h v_history.
Proof.
  unfold CRBM.gibbs_hvh.
  rewrite (bind_ok (CRBM.sample_v_given_h h v_history) _ self self
             (CRBM.propdown self h v_history,
              CRBM.propdown self h v_history) eq_refl).
  cbv beta iota.
  destruct (total_run _ self
              (total_sample_h_given_v (CRBM.propdown self h v_history)
                 v_history))
    as ([[a p] s] & self1 & Hs).
  rewrite (bind_ok _ _ _ _ _ Hs). cbv beta iota.
  intros H. inversion H. split; reflexivity.
Qed.

Lemma only_rng_hvh (ns h : matrix) : only_rng (hvh ns h).
Proof. unfold hvh. step_bind. auto with crbm. Qed.

Lemma only_rng_iterate (ns : matrix) (n : nat) (h : matrix) :
  only_rng (iterate n (hvh ns) h).
Proof.
  revert h. induction n as [|n IH]; intros h; simpl.
  - auto with crbm.
  - apply only_rng_bind; [apply only_rng_hvh|exact IH].
Qed.

Lemma only_rng_gibbs_chain (k : nat) : only_rng (gibbs_chain k).
Proof.
  unfold gibbs_chain. step_bind. step_bind.
  apply only_rng_bind; [apply only_rng_iterate|intros]. auto with crbm.
Qed.

Lemma get_reconstruction_cost_error (self : CRBM.t) (upd : updates_dict)
    (nv : matrix) :
  CRBM.get_reconstruction_cost self upd nv
  = reconstruction_error (CRBM.input self) nv.
Proof.
  unfold CRBM.get_reconstruction_cost, reconstruction_error,
    T.sum_axis1, T.sqr, mmap.
  rewrite map_map. reflexivity.
Qed.

Lemma cd_result_monitoring (lr : R) (o : CRBM.outputs) (self : CRBM.t) :
  exists upd,
    cd_result lr o self
    = (Ok (reconstruction_error (CRBM.input self) (CRBM.out1 o), upd),
       self).
Proof.
  unfold cd_result.
  rewrite (bind_ok CRBM.get_self _ self self self eq_refl).
  eexists. unfold CRBM.ret.
  rewrite get_reconstruction_cost_error. reflexivity.
Qed.

Lemma demo_propdown (rng : RandomStreams) (b : R) :
  CRBM.propdown (CRBM.set_theano_rng demo rng) [[b]] [[0]] = [[0]].
Proof.
  unfold CRBM.propdown, T.dot, T.transpose, add_row, madd, vadd. simpl.
  repeat f_equal. lra.
Qed.

(** The chain of one step on [demo] ends in the visible vector 0
    whatever is drawn. *)
Lemma demo_chain (o : CRBM.outputs) (self' : CRBM.t) :
  gibbs_chain 1 demo = (Ok o, self') ->
  CRBM.out1 o = [[0]] /\ CRBM.out2 o = [[0]]
  /\ exists rng, self' = CRBM.set_theano_rng demo rng.
Proof.
  intros Hchain.
  assert (Hrng : exists rng, self' = CRBM.set_theano_rng demo rng).
  { destruct (only_rng_gibbs_chain 1 demo) as [rng Hr].
    rewrite Hchain in Hr. exists rng. exact Hr. }
  revert Hchain. unfold gibbs_chain.
  rewrite (bind_ok CRBM.get_self _ demo demo demo eq_refl).
  destruct (sample_h_given_v_run demo (CRBM.input demo)
              (CRBM.input_history demo))
    as (ph & Hph & _ & Hshape & _).
  rewrite (bind_ok _ _ _ _ _ Hph). cbv beta iota. simpl snd.
  simpl iterate. unfold CRBM.bind at 1, CRBM.ret at 1.
  intros Ho. apply gibbs_hvh_visible in Ho.
  destruct ph as [|[|b [|]] [|]]; try discriminate Hshape.
  change (CRBM.input_history demo) with [[0]] in Ho.
  rewrite demo_propdown in Ho. destruct Ho as [H1 H2]. auto.
Qed.

Lemma demo_cost (rng : RandomStreams) :
  CRBM.cost (CRBM.set_theano_rng demo rng) [[0]] = 1 / 2.
Proof.
  unfold CRBM.cost. simpl CRBM.input. simpl CRBM.input_history.
  rewrite !free_energy_cons.
  change (CRBM.free_energy _ [] []) with (@nil R).
  unfold free_energy_row, T.mean. simpl.
  repeat match goal with
         | |- context [exp ?x] =>
             lazymatch x with
             | 0 => fail
             | _ => replace x with 0 by lra
             end
         end.
  unfold Rsqr. lra.
Qed.

Lemma demo_reconstruction_error : reconstruction_error [[1]] [[0]] = 1.
Proof.
  unfold reconstruction_error, T.mean. simpl. unfold Rsqr. lra.
Qed.

(** C7. For [k >= 1] the monitoring cost that [get_cost_updates]
    returns is the squared error between the input and the visible mean
    of the last step of the chain ([nv_means[-1]]), summed over the
    visible units and averaged over the batch.  It is not the
    free-energy difference of which the gradient is taken: on the model
    [demo] the two differ. *)
Theorem monitoring_cost_is_reconstruction_error
    (lr : R) (k : Z) (self : CRBM.t) :
  (1 <= k)%Z ->
  (exists o self' upd,
      gibbs_chain (Z.to_nat k) self = (Ok o, self')
      /\ CRBM.get_cost_updates lr k self
         = (Ok (reconstruction_error (CRBM.input self) (CRBM.out1 o), upd),
            self'))
  /\ (exists o self' monitoring_cost upd,
         gibbs_chain 1 demo = (Ok o, self')
         /\ CRBM.get_cost_updates lr 1 demo
            = (Ok (monitoring_cost, upd), self')
         /\ monitoring_cost <> CRBM.cost self' (CRBM.out2 o)).
Proof.
  intros Hk. split.
  - destruct (Z.to_nat k) as [|n] eqn:En; [lia|].
    assert (Ek : k = Z.of_nat (S n)) by lia. subst k.
    destruct (get_cost_updates_run lr n self)
      as (o & self' & Hchain & Hrun).
    destruct (cd_result_monitoring lr o self') as [upd Hupd].
    exists o, self', upd. split; [exact Hchain|].
    rewrite Hrun, Hupd.
    destruct (only_rng_gibbs_chain (S n) self) as [rng Hr].
    rewrite Hchain in Hr. simpl in Hr. subst self'. reflexivity.
  - destruct (get_cost_updates_run lr 0 demo)
      as (o & self' & Hchain & Hrun).
    destruct (cd_result_monitoring lr o self') as [upd Hupd].
    destruct (demo_chain o self' Hchain) as (H1 & H2 & rng & Hself).
    exists o, self', (reconstruction_error (CRBM.input self') (CRBM.out1 o)),
      upd.
    split; [exact Hchain|]. split.
    + change 1%Z with (Z.of_nat 1). rewrite Hrun. exact Hupd.
    + rewrite H1, H2, Hself. simpl CRBM.input.
      rewrite demo_reconstruction_error, demo_cost. lra.
Qed.

Lemma monitoring_cost_is_reconstruction_error_witness :
  (exists o self' upd,
      gibbs_chain (Z.to_nat 1) demo = (Ok o, self')
      /\ CRBM.get_cost_updates (1 / 10) 1 demo
         = (Ok (reconstruction_error (CRBM.input demo) (CRBM.out1 o), upd),
            self'))
  /\ (exists o self' monitoring_cost upd,
         gibbs_chain 1 demo = (Ok o, self')
         /\ CRBM.get_cost_updates (1 / 10) 1 demo
            = (Ok (monitoring_cost, upd), self')
         /\ monitoring_cost <> CRBM.cost self' (CRBM.out2 o)).
Proof.
  apply (monitoring_cost_is_reconstruction_error (1 / 10) 1 demo). lia.
Defined.

(** ** Derivatives *)

Lemma sigmoid1_exp (x : R) : T.sigmoid1 x = exp x / (1 + exp x).
Proof.
  unfold T.sigmoid1. rewrite exp_Ropp.
  pose proof (exp_pos x) as He. field. split; lra.
Qed.

Lemma D_affine (x y : R) : derivable_pt_lim (fun s => x + s * y) 0 y.
Proof.
  apply (derivable_pt_lim_ext (fct_cte x + mult_real_fct y id)%F).
  - intros s. unfold plus_fct, fct_cte, mult_real_fct, id. ring.
  - replace y with (0 + y * 1) at 2 by ring.
    apply derivable_pt_lim_plus.
    + apply derivable_pt_lim_const.
    + apply derivable_pt_lim_scal, derivable_pt_lim_id.
Qed.

Lemma D_softplus (x y : R) :
  derivable_pt_lim (fun s => ln (1 + exp (x + s * y))) 0
    (T.sigmoid1 x * y).
Proof.
  pose proof (exp_pos x) as He.
  apply (derivable_pt_lim_ext
           (comp ln (comp (fct_cte 1 + exp)%F (fun s => x + s * y)))).
  - intros s. reflexivity.
  - replace (T.sigmoid1 x * y)
      with (/ (1 + exp (x + 0 * y)) * ((0 + exp (x + 0 * y)) * y)).
    + apply derivable_pt_lim_comp.
      * apply derivable_pt_lim_comp; [apply D_affine|].
        apply derivable_pt_lim_plus;
          [apply derivable_pt_lim_const|apply derivable_pt_lim_exp].
      * apply derivable_pt_lim_ln.
        unfold comp, plus_fct, fct_cte.
        pose proof (exp_pos (x + 0 * y)). lra.
    + rewrite sigmoid1_exp.
      replace (x + 0 * y) with x by ring. field. lra.
Qed.

Lemma D_sqr (u d : R) :
  derivable_pt_lim (fun s => Rsqr (u - s * d)) 0 (- 2 * (u * d)).
Proof.
  apply (derivable_pt_lim_ext (comp Rsqr (fun s => u + s * - d))).
  - intros s. unfold comp. f_equal. ring.
  - replace (- 2 * (u * d)) with (2 * (u + 0 * - d) * - d) by ring.
    apply derivable_pt_lim_comp; [apply D_affine|].
    apply derivable_pt_lim_Rsqr.
Qed.

Lemma D_plus (f g : R -> R) (l m : R) :
  derivable_pt_lim f 0 l -> derivable_pt_lim g 0 m ->
  derivable_pt_lim (fun s => f s + g s) 0 (l + m).
Proof. intros Hf Hg. apply (derivable_pt_lim_plus f g 0 l m Hf Hg). Qed.

Lemma D_minus (f g : R -> R) (l m : R) :
  derivable_pt_lim f 0 l -> derivable_pt_lim g 0 m ->
  derivable_pt_lim (fun s => f s - g s) 0 (l - m).
Proof. intros Hf Hg. apply (derivable_pt_lim_minus f g 0 l m Hf Hg). Qed.

Lemma D_scal (c : R) (f : R -> R) (l : R) :
  derivable_pt_lim f 0 l -> derivable_pt_lim (fun s => c * f s) 0 (c * l).
Proof. intros Hf. apply (derivable_pt_lim_scal f c 0 l Hf). Qed.

Lemma D_const (c : R) : derivable_pt_lim (fun _ => c) 0 0.
Proof. apply (derivable_pt_lim_const c 0). Qed.

Lemma D_value (f : R -> R) (l m : R) :
  l = m -> derivable_pt_lim f 0 l -> derivable_pt_lim f 0 m.
Proof. intros ->. auto. Qed.

(** The sum over a list of functions of [s]. *)
Lemma D_Rsum_map {X : Type} (f : R -> X -> R) (f' : X -> R) (l : list X) :
  (forall x, In x l -> derivable_pt_lim (fun s => f s x) 0 (f' x)) ->
  derivable_pt_lim (fun s => Rsum (map (f s) l)) 0 (Rsum (map f' l)).
Proof.
  induction l as [|x l IH]; intros H.
  - simpl. apply D_const.
  - simpl map. apply (D_plus (fun s => f s x) (fun s => Rsum (map (f s) l))).
    + apply H. left. reflexivity.
    + apply IH. intros y Hy. apply H. right. exact Hy.
Qed.

Lemma D_sum_softplus (w d : vector) :
  length w = length d ->
  derivable_pt_lim
    (fun s => Rsum (map (fun x => ln (1 + exp x)) (vadd w (vscale s d)))) 0
    (vdot (map T.sigmoid1 w) d).
Proof.
  revert d. induction w as [|x w IH]; intros [|y d] Hlen;
    try discriminate Hlen.
  - simpl. apply D_const.
  - simpl map. rewrite vdot_cons.
    apply (D_plus (fun s => ln (1 + exp (x + s * y)))
             (fun s => Rsum (map (fun x => ln (1 + exp x))
                               (vadd w (vscale s d))))).
    + apply D_softplus.
    + apply IH. simpl in Hlen. lia.
Qed.

Lemma D_sum_sqr (u d : vector) :
  length u = length d ->
  derivable_pt_lim
    (fun s => Rsum (map Rsqr (vsub u (vscale s d)))) 0
    (- 2 * vdot u d).
Proof.
  revert d. induction u as [|x u IH]; intros [|y d] Hlen;
    try discriminate Hlen.
  - simpl. apply (D_value _ 0); [unfold vdot; simpl; lra|apply D_const].
  - rewrite vdot_cons.
    apply (D_value _ (- 2 * (x * y) + - 2 * vdot u d)); [ring|].
    apply (D_plus (fun s => Rsqr (x - s * y))
             (fun s => Rsum (map Rsqr (vsub u (vscale s d))))).
    + apply D_sqr.
    + apply IH. simpl in Hlen. lia.
Qed.

(** ** The derivative of the free energy *)

Lemma vecmat_length (v : vector) (n : matrix) (c : nat) :
  Forall (fun r => length r = c) n -> (length (vecmat v n) <= c)%nat.
Proof.
  intros H. revert v. induction H as [|r n Hr Hn IH]; intros v.
  - rewrite vecmat_nil_r. simpl. lia.
  - destruct v as [|x v]; [simpl; lia|].
    simpl vecmat. rewrite vadd_length, vscale_length, Hr.
    specialize (IH v). lia.
Qed.

Lemma wx_row_length (self : CRBM.t) (v h : vector) :
  well_shaped self -> length (wx_row self v h) = CRBM.n_hidden self.
Proof.
  intros ((_ & HW) & _ & (_ & HB) & Hh & _). unfold wx_row.
  rewrite !vadd_length, Hh.
  pose proof (vecmat_length v _ _ HW). pose proof (vecmat_length h _ _ HB).
  lia.
Qed.

Lemma ax_row_length (self : CRBM.t) (h : vector) :
  well_shaped self -> length (ax_row self h) = CRBM.n_visible self.
Proof.
  intros (_ & (_ & HA) & _ & _ & Hv). unfold ax_row.
  rewrite vadd_length, Hv.
  pose proof (vecmat_length h _ _ HA). lia.
Qed.

Lemma shift_visible (s : R) (v a a' b b' : vector) :
  vsub v (vadd (vadd a (vscale s a')) (vadd b (vscale s b')))
  = vsub (vsub v (vadd a b)) (vscale s (vadd a' b')).
Proof. vector_eq. Qed.

Lemma shift_hidden (s : R) (a a' b b' c c' : vector) :
  vadd (vadd (vadd a (vscale s a')) (vadd b (vscale s b')))
       (vadd c (vscale s c'))
  = vadd (vadd (vadd a b) c) (vscale s (vadd (vadd a' b') c')).
Proof. vector_eq. Qed.

Lemma free_energy_row_shift (self : CRBM.t) (d : direction) (s : R)
    (v h : vector) :
  free_energy_row (shift self s d) v h
  = 0.5 * Rsum (map Rsqr
                  (vsub (vsub v (ax_row self h))
                     (vscale s (vadd (vecmat h (dA d)) (dvbias d)))))
    - Rsum (map (fun x => ln (1 + exp x))
              (vadd (wx_row self v h)
                 (vscale s (vadd (vadd (vecmat v (dW d)) (vecmat h (dB d)))
                              (dhbias d))))).
Proof.
  unfold free_energy_row, wx_row, ax_row, shift.
  cbn [CRBM.W CRBM.A CRBM.B CRBM.hbias CRBM.vbias].
  rewrite !vecmat_madd, !vecmat_mscale, shift_visible, shift_hidden.
  reflexivity.
Qed.

Lemma D_free_energy_row (self : CRBM.t) (d : direction) (v h : vector) :
  well_shaped self -> direction_of self d ->
  length v = CRBM.n_visible self ->
  derivable_pt_lim (fun s => free_energy_row (shift self s d) v h) 0
    (free_energy_row_slope self d v h).
Proof.
  intros Hself Hd Hv.
  apply (derivable_pt_lim_ext _ _ _ _
           (fun s => eq_sym (free_energy_row_shift self d s v h))).
  destruct Hd as ((_ & HdW) & (_ & HdA) & (_ & HdB) & Hdh & Hdv).
  unfold free_energy_row_slope.
  apply D_minus.
  - apply (D_value _ (0.5 * (- 2 * vdot (vsub v (ax_row self h))
                                  (vadd (vecmat h (dA d)) (dvbias d)))));
      [lra|].
    apply D_scal, D_sum_sqr.
    rewrite vsub_length, vadd_length, ax_row_length, Hv, Hdv by assumption.
    pose proof (vecmat_length h _ _ HdA). lia.
  - apply D_sum_softplus.
    rewrite !vadd_length, wx_row_length, Hdh by assumption.
    pose proof (vecmat_length v _ _ HdW).
    pose proof (vecmat_length h _ _ HdB). lia.
Qed.

Lemma mean_free_energy_rows (self : CRBM.t) (v_sample v_history : matrix) :
  length v_sample = length v_history ->
  T.mean (CRBM.free_energy self v_sample v_history)
  = / INR (length v_sample)
    * Rsum (map (fun vh => free_energy_row self (fst vh) (snd vh))
              (combine v_sample v_history)).
Proof.
  intros Hlen. rewrite free_energy_by_rows by exact Hlen.
  unfold T.mean.
  rewrite length_map, length_combine, <- Hlen, Nat.min_id.
  unfold Rdiv. ring.
Qed.

Lemma D_mean_free_energy (self : CRBM.t) (d : direction)
    (v_sample v_history : matrix) :
  well_shaped self -> direction_of self d ->
  Forall (fun r => length r = CRBM.n_visible self) v_sample ->
  length v_sample = length v_history ->
  derivable_pt_lim
    (fun s => T.mean (CRBM.free_energy (shift self s d) v_sample v_history))
    0
    (/ INR (length v_sample)
     * Rsum (map (fun vh =>
                    free_energy_row_slope self d (fst vh) (snd vh))
               (combine v_sample v_history))).
Proof.
  intros Hself Hd Hrows Hlen.
  apply (derivable_pt_lim_ext _ _ _ _
           (fun s => eq_sym (mean_free_energy_rows (shift self s d)
                               v_sample v_history Hlen))).
  apply D_scal.
  apply (D_Rsum_map
           (fun s vh => free_energy_row (shift self s d) (fst vh) (snd vh))).
  intros [v h] Hin. simpl.
  apply D_free_energy_row; try assumption.
  apply in_combine_l in Hin.
  rewrite Forall_forall in Hrows. apply Hrows. exact Hin.
Qed.

Lemma outer_pairing (v e : vector) (d : matrix) :
  mdot (CRBM.outer v e) d = vdot e (vecmat v d).
Proof.
  revert d. induction v as [|x v IH]; intros d.
  - simpl. rewrite vdot_nil_r. reflexivity.
  - destruct d as [|r d].
    + rewrite mdot_nil_r, vecmat_nil_r, vdot_nil_r. reflexivity.
    + change (CRBM.outer (x :: v) e) with (vscale x e :: CRBM.outer v e).
      simpl mdot. simpl vecmat.
      rewrite IH, vdot_vadd_r, vdot_vscale_l, vdot_vscale_r. reflexivity.
Qed.

Lemma vdot_map_opp (f : R -> R) (w d : vector) :
  vdot (map (fun x => - f x) w) d = - vdot (map f w) d.
Proof. rewrite <- vdot_opp_l, map_map. reflexivity. Qed.

(** The gradient of the sum of the free energies of a batch, paired
    with a direction. *)
Lemma slope_sum (self : CRBM.t) (d : direction)
    (v_sample v_history : matrix) :
  length v_sample = length v_history ->
  let wx_b := T.dot v_sample (CRBM.W self)
              +m T.dot v_history (CRBM.B self) +r CRBM.hbias self in
  let ax_b := T.dot v_history (CRBM.A self) +r CRBM.vbias self in
  let d_wx := mmap (fun x => - T.sigmoid1 x) wx_b in
  let d_ax := mmap Ropp (v_sample -m ax_b) in
  Rsum (map (fun vh => free_energy_row_slope self d (fst vh) (snd vh))
          (combine v_sample v_history))
  = mdot (CRBM.tdot v_sample d_wx) (dW d)
    + mdot (CRBM.tdot v_history d_ax) (dA d)
    + mdot (CRBM.tdot v_history d_wx) (dB d)
    + vdot (CRBM.sum_axis0 d_wx) (dhbias d)
    + vdot (CRBM.sum_axis0 d_ax) (dvbias d).
Proof.
  revert v_history.
  induction v_sample as [|v vs IH]; intros [|h hs] Hlen;
    try discriminate Hlen.
  - simpl. rewrite !vdot_nil_l. lra.
  - specialize (IH hs ltac:(simpl in Hlen; lia)).
    cbv zeta in IH |- *.
    cbn [T.dot map madd msub mewise add_row mmap combine CRBM.tdot
         CRBM.sum_axis0 fold_right fst snd].
    fold madd msub vadd vsub.
    fold (T.dot vs (CRBM.W self)) (T.dot hs (CRBM.B self))
         (T.dot hs (CRBM.A self)).
    fold (add_row (T.dot vs (CRBM.W self) +m T.dot hs (CRBM.B self))
            (CRBM.hbias self)).
    fold (add_row (T.dot hs (CRBM.A self)) (CRBM.vbias self)).
    fold (mmap (fun x => - T.sigmoid1 x)
            (T.dot vs (CRBM.W self) +m T.dot hs (CRBM.B self)
             +r CRBM.hbias self)).
    fold (mmap Ropp
            (vs -m (T.dot hs (CRBM.A self) +r CRBM.vbias self))).
    fold (CRBM.sum_axis0
            (mmap (fun x => - T.sigmoid1 x)
               (T.dot vs (CRBM.W self) +m T.dot hs (CRBM.B self)
                +r CRBM.hbias self))).
    fold (CRBM.sum_axis0
            (mmap Ropp
               (vs -m (T.dot hs (CRBM.A self) +r CRBM.vbias self)))).
    rewrite Rsum_cons, IH, !mdot_madd_l, !outer_pairing, !vdot_vadd_l.
    unfold free_energy_row_slope.
    fold (wx_row self v h) (ax_row self h).
    rewrite !vdot_opp_l, !(vdot_map_opp T.sigmoid1), !vdot_vadd_r.
    ring.
Qed.

Lemma grad_mean_free_energy_pairing (self : CRBM.t) (d : direction)
    (v_sample v_history : matrix) :
  length v_sample = length v_history ->
  pairing (CRBM.grad_mean_free_energy self v_sample v_history) d
  = / INR (length v_sample)
    * Rsum (map (fun vh =>
                   free_energy_row_slope self d (fst vh) (snd vh))
              (combine v_sample v_history)).
Proof.
  intros Hlen. rewrite (slope_sum self d v_sample v_history Hlen).
  unfold CRBM.grad_mean_free_energy, pairing. cbv zeta.
  rewrite !mdot_mscale_l, !vdot_vscale_l. unfold Rdiv. ring.
Qed.

Lemma vsub_vadd (u v : vector) : vsub u v = vadd u (vscale (- 1) v).
Proof. vector_eq. Qed.

Lemma msub_madd (a b : matrix) : a -m b = a +m (- 1) *m b.
Proof.
  revert b. induction a as [|r a IH]; intros b.
  - rewrite madd_nil_l. unfold msub, mscale, mmap. simpl.
    apply map_ext. intros t. apply map_ext. intros x. ring.
  - destruct b as [|t b].
    + change ((- 1) *m []) with (@nil vector). rewrite madd_nil_r.
      unfold msub.
      change (mewise Rminus (r :: a) [])
        with (map (map (fun x => x - 0)) (r :: a)).
      rewrite <- (map_map_Rplus_0_r (r :: a)) at 2.
      apply map_ext. intros t. apply map_ext. intros x. ring.
    + change ((r :: a) -m (t :: b)) with (vsub r t :: (a -m b)).
      change ((- 1) *m (t :: b)) with (vscale (- 1) t :: (- 1) *m b).
      rewrite madd_cons, IH, vsub_vadd. reflexivity.
Qed.

Lemma mdot_msub_l (a b d : matrix) :
  mdot (a -m b) d = mdot a d - mdot b d.
Proof. rewrite msub_madd, mdot_madd_l, mdot_mscale_l. ring. Qed.

Lemma vdot_vsub_l (a b d : vector) :
  vdot (vsub a b) d = vdot a d - vdot b d.
Proof. rewrite vsub_vadd, vdot_vadd_l, vdot_vscale_l. ring. Qed.

Lemma T_grad_pairing (self : CRBM.t) (d : direction) (chain_end : matrix) :
  pairing (CRBM.T_grad self chain_end) d
  = pairing (CRBM.grad_mean_free_energy self (CRBM.input self)
               (CRBM.input_history self)) d
    - pairing (CRBM.grad_mean_free_energy self chain_end
                 (CRBM.input_history self)) d.
Proof.
  unfold CRBM.T_grad, CRBM.grad_mean_free_energy, pairing. cbv zeta.
  cbn [CRBM.tensors_sub tensor_sub].
  rewrite !mdot_msub_l, !vdot_vsub_l. ring.
Qed.

(** The derivative of the cost of CD along a direction, the chain end
    being a constant. *)
Lemma D_cost (self : CRBM.t) (d : direction) (chain_end : matrix) :
  well_shaped self -> well_shaped_input self -> direction_of self d ->
  has_shape (length (CRBM.input self)) (CRBM.n_visible self) chain_end ->
  derivable_pt_lim (fun s => CRBM.cost (shift self s d) chain_end) 0
    (pairing (CRBM.T_grad self chain_end) d).
Proof.
  intros Hself (Hpos & Hrows & Hlen & Hhist) Hd (Hclen & Hcrows).
  rewrite T_grad_pairing, !grad_mean_free_energy_pairing by congruence.
  unfold CRBM.cost.
  cbn [shift CRBM.input CRBM.input_history].
  apply D_minus; apply D_mean_free_energy; auto; congruence.
Qed.

(** ** Shapes *)

Lemma has_shape_shape (n c : nat) (a : matrix) :
  has_shape n c a -> shape a = repeat c n.
Proof.
  intros [Hn Hc]. subst n. induction Hc as [|r a Hr Ha IH].
  - reflexivity.
  - change (shape (r :: a)) with (length r :: shape a).
    rewrite Hr, IH. reflexivity.
Qed.

Lemma shape_has_shape (n c : nat) (a : matrix) :
  shape a = repeat c n -> has_shape n c a.
Proof.
  revert n. induction a as [|r a IH]; intros [|n] H; try discriminate H.
  - split; [reflexivity|constructor].
  - change (length r :: shape a = c :: repeat c n) in H.
    injection H as Hr Ha.
    destruct (IH n Ha) as [Hn Hc].
    split; [simpl; congruence|constructor; assumption].
Qed.

Lemma shape_mewise_same (f : R -> R -> R) (a b : matrix) :
  shape a = shape b -> shape (mewise f a b) = shape a.
Proof.
  revert b. induction a as [|r a IH]; intros [|t b] H; try discriminate H.
  - reflexivity.
  - change (length r :: shape a = length t :: shape b) in H.
    injection H as Hr Ha.
    change (length (ewise f r t) :: shape (mewise f a b)
            = length r :: shape a).
    rewrite ewise_length, <- Hr, Nat.max_id, (IH b Ha). reflexivity.
Qed.

Lemma shape_mmap (f : R -> R) (a : matrix) : shape (mmap f a) = shape a.
Proof.
  unfold shape, mmap. rewrite map_map.
  apply map_ext. intros r. apply length_map.
Qed.

Lemma shape_outer (v e : vector) :
  shape (CRBM.outer v e) = repeat (length e) (length v).
Proof.
  unfold shape, CRBM.outer. rewrite map_map.
  induction v as [|x v IH]; [reflexivity|].
  cbn [map length repeat]. rewrite IH, vscale_length. reflexivity.
Qed.

Lemma shape_tdot (n c : nat) (x y : matrix) :
  (0 < length x)%nat -> length x = length y ->
  Forall (fun r => length r = n) x -> Forall (fun r => length r = c) y ->
  shape (CRBM.tdot x y) = repeat c n.
Proof.
  intros Hpos Hlen Hx. revert y Hlen Hpos.
  induction Hx as [|r x Hr Hx IH]; intros [|t y] Hlen Hpos Hy;
    try discriminate Hlen; [simpl in Hpos; lia|].
  apply Forall_cons_iff in Hy. destruct Hy as [Ht Hy].
  simpl CRBM.tdot.
  destruct x as [|r' x].
  - destruct y; [|discriminate Hlen].
    change (CRBM.tdot [] []) with (@nil vector).
    rewrite madd_nil_r, shape_outer, Hr, Ht. reflexivity.
  - unfold madd. rewrite shape_mewise_same.
    + rewrite shape_outer, Hr, Ht. reflexivity.
    + rewrite shape_outer, Hr, Ht. symmetry. apply IH; try assumption.
      * simpl in Hlen |- *. lia.
      * simpl. lia.
Qed.

Lemma sum_axis0_length (c : nat) (a : matrix) :
  (0 < length a)%nat -> Forall (fun r => length r = c) a ->
  length (CRBM.sum_axis0 a) = c.
Proof.
  intros Hpos Ha.
  assert (Hle : forall b, Forall (fun r => length r = c) b ->
                          (length (CRBM.sum_axis0 b) <= c)%nat).
  { intros b Hb. induction Hb as [|r b Hr Hb IH]; simpl; [lia|].
    rewrite vadd_length. fold (CRBM.sum_axis0 b). lia. }
  destruct Ha as [|r a Hr Ha]; [simpl in Hpos; lia|].
  simpl. rewrite vadd_length. fold (CRBM.sum_axis0 a).
  specialize (Hle a Ha). lia.
Qed.

Lemma wx_b_rows (self : CRBM.t) (v_sample v_history : matrix) :
  length v_sample = length v_history ->
  T.dot v_sample (CRBM.W self) +m T.dot v_history (CRBM.B self)
  +r CRBM.hbias self
  = map (fun vh => wx_row self (fst vh) (snd vh))
        (combine v_sample v_history).
Proof.
  revert v_history.
  induction v_sample as [|v vs IH]; intros [|h hs] Hlen;
    try discriminate Hlen; [reflexivity|].
  simpl. f_equal. apply IH. simpl in Hlen. lia.
Qed.

Lemma ax_b_rows (self : CRBM.t) (v_sample v_history : matrix) :
  length v_sample = length v_history ->
  v_sample -m (T.dot v_history (CRBM.A self) +r CRBM.vbias self)
  = map (fun vh => vsub (fst vh) (ax_row self (snd vh)))
        (combine v_sample v_history).
Proof.
  revert v_history.
  induction v_sample as [|v vs IH]; intros [|h hs] Hlen;
    try discriminate Hlen; [reflexivity|].
  change ((v :: vs)
          -m (T.dot (h :: hs) (CRBM.A self) +r CRBM.vbias self))
    with (vsub v (ax_row self h)
          :: (vs -m (T.dot hs (CRBM.A self) +r CRBM.vbias self))).
  simpl. f_equal. apply IH. simpl in Hlen. lia.
Qed.

Lemma Forall_map_rows {X : Type} (f : X -> vector) (l : list X) (c : nat) :
  (forall x, In x l -> length (f x) = c) ->
  Forall (fun r => length r = c) (map f l).
Proof.
  intros H. apply Forall_forall. intros r Hr.
  apply in_map_iff in Hr. destruct Hr as [x [<- Hx]]. apply H. exact Hx.
Qed.

Lemma d_wx_shape (self : CRBM.t) (v_sample v_history : matrix) :
  well_shaped self -> length v_sample = length v_history ->
  has_shape (length v_sample) (CRBM.n_hidden self)
    (mmap (fun x => - T.sigmoid1 x)
       (T.dot v_sample (CRBM.W self) +m T.dot v_history (CRBM.B self)
        +r CRBM.hbias self)).
Proof.
  intros Hself Hlen. rewrite wx_b_rows by exact Hlen.
  unfold mmap. rewrite map_map. split.
  - rewrite length_map, length_combine. lia.
  - apply Forall_map_rows. intros vh _.
    rewrite length_map. apply wx_row_length. exact Hself.
Qed.

Lemma d_ax_shape (self : CRBM.t) (v_sample v_history : matrix) :
  well_shaped self -> length v_sample = length v_history ->
  Forall (fun r => length r = CRBM.n_visible self) v_sample ->
  has_shape (length v_sample) (CRBM.n_visible self)
    (mmap Ropp
       (v_sample
        -m (T.dot v_history (CRBM.A self) +r CRBM.vbias self))).
Proof.
  intros Hself Hlen Hrows. rewrite ax_b_rows by exact Hlen.
  unfold mmap. rewrite map_map. split.
  - rewrite length_map, length_combine. lia.
  - apply Forall_map_rows. intros [v h] Hin.
    rewrite length_map, vsub_length, ax_row_length by exact Hself.
    apply in_combine_l in Hin. rewrite Forall_forall in Hrows.
    simpl fst. rewrite (Hrows _ Hin). lia.
Qed.

Lemma shape_mscale (c : R) (a : matrix) : shape (c *m a) = shape a.
Proof. apply shape_mmap. Qed.

Lemma shape_msub_same (a b : matrix) (l : list nat) :
  shape a = l -> shape b = l -> shape (a -m b) = l.
Proof.
  intros Ha Hb. unfold msub. rewrite shape_mewise_same; congruence.
Qed.

Lemma grad_W_shape (self : CRBM.t) (v_sample v_history : matrix) (c : R) :
  well_shaped self -> (0 < length v_sample)%nat ->
  length v_sample = length v_history ->
  Forall (fun r => length r = CRBM.n_visible self) v_sample ->
  shape (c *m CRBM.tdot v_sample
                (mmap (fun x => - T.sigmoid1 x)
                   (T.dot v_sample (CRBM.W self)
                    +m T.dot v_history (CRBM.B self) +r CRBM.hbias self)))
  = repeat (CRBM.n_hidden self) (CRBM.n_visible self).
Proof.
  intros Hself Hpos Hlen Hrows.
  destruct (d_wx_shape self v_sample v_history Hself Hlen) as [Hn Hc].
  rewrite shape_mscale. apply shape_tdot; auto.
Qed.

Lemma grad_B_shape (self : CRBM.t) (v_sample v_history : matrix) (c : R) :
  well_shaped self -> (0 < length v_sample)%nat ->
  has_shape (length v_sample) (CRBM.n_visible self * CRBM.delay self)
    v_history ->
  shape (c *m CRBM.tdot v_history
                (mmap (fun x => - T.sigmoid1 x)
                   (T.dot v_sample (CRBM.W self)
                    +m T.dot v_history (CRBM.B self) +r CRBM.hbias self)))
  = repeat (CRBM.n_hidden self) (CRBM.n_visible self * CRBM.delay self).
Proof.
  intros Hself Hpos [Hlen Hhist].
  destruct (d_wx_shape self v_sample v_history Hself (eq_sym Hlen))
    as [Hn Hc].
  rewrite shape_mscale. apply shape_tdot; auto; lia.
Qed.

Lemma grad_A_shape (self : CRBM.t) (v_sample v_history : matrix) (c : R) :
  well_shaped self -> (0 < length v_sample)%nat ->
  has_shape (length v_sample) (CRBM.n_visible self * CRBM.delay self)
    v_history ->
  Forall (fun r => length r = CRBM.n_visible self) v_sample ->
  shape (c *m CRBM.tdot v_history
                (mmap Ropp
                   (v_sample
                    -m (T.dot v_history (CRBM.A self)
                        +r CRBM.vbias self))))
  = repeat (CRBM.n_visible self) (CRBM.n_visible self * CRBM.delay self).
Proof.
  intros Hself Hpos [Hlen Hhist] Hrows.
  destruct (d_ax_shape self v_sample v_history Hself (eq_sym Hlen) Hrows)
    as [Hn Hc].
  rewrite shape_mscale. apply shape_tdot; auto; lia.
Qed.

(** The list that models [T.grad] is the gradient of the cost, the
    chain end being a constant. *)
Lemma T_grad_is_gradient (self : CRBM.t) (chain_end : matrix) :
  well_shaped self -> well_shaped_input self ->
  has_shape (length (CRBM.input self)) (CRBM.n_visible self) chain_end ->
  is_gradient (fun m => CRBM.cost m chain_end) self
    (CRBM.T_grad self chain_end).
Proof.
  intros Hself Hin Hc.
  pose proof Hin as (Hpos & Hrows & Hhist).
  pose proof Hc as (Hclen & Hcrows).
  pose proof Hself as (HW & HA & HB & Hh & Hv).
  assert (Hhist' : has_shape (length chain_end)
                     (CRBM.n_visible self * CRBM.delay self)
                     (CRBM.input_history self))
    by (rewrite Hclen; exact Hhist).
  assert (Hlen : length (CRBM.input self)
                 = length (CRBM.input_history self))
    by (symmetry; apply Hhist).
  assert (Hlen' : length chain_end = length (CRBM.input_history self))
    by congruence.
  assert (Hcpos : (0 < length chain_end)%nat) by lia.
  unfold is_gradient, CRBM.T_grad, CRBM.grad_mean_free_energy.
  cbv zeta. cbn [CRBM.tensors_sub tensor_sub].
  do 5 eexists. split; [reflexivity|].
  repeat split.
  - rewrite (has_shape_shape _ _ _ HW).
    apply shape_msub_same; apply grad_W_shape; assumption.
  - rewrite (has_shape_shape _ _ _ HA).
    apply shape_msub_same; apply grad_A_shape; assumption.
  - rewrite (has_shape_shape _ _ _ HB).
    apply shape_msub_same; apply grad_B_shape; assumption.
  - destruct (d_wx_shape self _ _ Hself Hlen) as [Hn1 Hc1].
    destruct (d_wx_shape self _ _ Hself Hlen') as [Hn2 Hc2].
    rewrite vsub_length, !vscale_length,
      !(sum_axis0_length (CRBM.n_hidden self)) by (assumption || lia).
    lia.
  - destruct (d_ax_shape self _ _ Hself Hlen Hrows) as [Hn1 Hc1].
    destruct (d_ax_shape self _ _ Hself Hlen' Hcrows) as [Hn2 Hc2].
    rewrite vsub_length, !vscale_length,
      !(sum_axis0_length (CRBM.n_visible self)) by (assumption || lia).
    lia.
  - intros d Hd.
    apply (D_cost self d chain_end Hself Hin Hd Hc).
Qed.

(** ** The shape of the chain end *)

Lemma affine_rows (a b w w' : matrix) (c : vector) :
  length a = length b ->
  T.dot a w +m T.dot b w' +r c
  = map (fun p => vadd (vadd (vecmat (fst p) w) (vecmat (snd p) w')) c)
        (combine a b).
Proof.
  revert b. induction a as [|r a IH]; intros [|t b] Hlen;
    try discriminate Hlen; [reflexivity|].
  simpl. f_equal. apply IH. simpl in Hlen. lia.
Qed.

Lemma transpose_rows (a : matrix) :
  Forall (fun r => length r = length a) (T.transpose a).
Proof.
  unfold T.transpose. apply Forall_map_rows. intros j _.
  unfold column. apply length_map.
Qed.

Lemma propdown_shape (self : CRBM.t) (h v_history : matrix) :
  well_shaped self -> length h = length v_history ->
  has_shape (length v_history) (CRBM.n_visible self)
    (CRBM.propdown self h v_history).
Proof.
  intros ((HWn & _) & (_ & HA) & _ & _ & Hv) Hlen.
  unfold CRBM.propdown. rewrite affine_rows by exact Hlen. split.
  - rewrite length_map, length_combine. lia.
  - apply Forall_map_rows. intros [r t] _. simpl fst. simpl snd.
    rewrite !vadd_length, Hv.
    pose proof (vecmat_length r _ _ (transpose_rows (CRBM.W self))).
    pose proof (vecmat_length t _ _ HA). lia.
Qed.

Lemma propup_rows (self : CRBM.t) (v v_history : matrix) :
  length v = length v_history ->
  length (snd (CRBM.propup self v v_history)) = length v_history.
Proof.
  intros Hlen. unfold CRBM.propup, T.sigmoid, mmap. simpl snd.
  rewrite affine_rows by exact Hlen.
  rewrite !length_map, length_combine. lia.
Qed.

Lemma shape_length (a b : matrix) : shape a = shape b -> length a = length b.
Proof.
  intros H. apply (f_equal (@length nat)) in H.
  unfold shape in H. rewrite !length_map in H. exact H.
Qed.

Lemma sample_h_given_v_rows (self self' : CRBM.t) (v v_history : matrix)
    (a p s : matrix) :
  CRBM.sample_h_given_v v v_history self = (Ok (a, p, s), self') ->
  length v = length v_history ->
  length s = length v_history.
Proof.
  intros Hrun Hlen.
  destruct (sample_h_given_v_run self v v_history)
    as (s' & Hrun' & _ & Hshape & _).
  rewrite Hrun in Hrun'. injection Hrun' as _ _ -> _.
  rewrite (shape_length _ _ Hshape). apply propup_rows. exact Hlen.
Qed.

Lemma gibbs_hvh_rows (self self' : CRBM.t) (h v_history : matrix)
    (o : CRBM.outputs) :
  CRBM.gibbs_hvh h v_history self = (Ok o, self') ->
  well_shaped self -> length h = length v_history ->
  has_shape (length v_history) (CRBM.n_visible self) (CRBM.out2 o)
  /\ length (CRBM.out5 o) = length v_history.
Proof.
  intros Hrun Hself Hlen.
  pose proof (propdown_shape self h v_history Hself Hlen) as Hshape.
  revert Hrun. unfold CRBM.gibbs_hvh.
  rewrite (bind_ok (CRBM.sample_v_given_h h v_history) _ self self
             (CRBM.propdown self h v_history,
              CRBM.propdown self h v_history) eq_refl).
  cbv beta iota.
  destruct (total_run _ self
              (total_sample_h_given_v (CRBM.propdown self h v_history)
                 v_history))
    as ([[a p] s] & self1 & Hs).
  rewrite (bind_ok _ _ _ _ _ Hs). cbv beta iota.
  intros H. inversion H. subst. simpl. split; [exact Hshape|].
  apply (sample_h_given_v_rows _ _ _ _ _ _ _ Hs). apply Hshape.
Qed.

Lemma well_shaped_set_theano_rng (self : CRBM.t) (rng : RandomStreams) :
  well_shaped self -> well_shaped (CRBM.set_theano_rng self rng).
Proof. intros H. exact H. Qed.

Lemma only_rng_run {X : Type} (c : CRBM.M X) (self self' : CRBM.t)
    (r : result X) :
  only_rng c -> c self = (r, self') ->
  exists rng, self' = CRBM.set_theano_rng self rng.
Proof.
  intros H Hrun. destruct (H self) as [rng Hrng].
  rewrite Hrun in Hrng. exists rng. exact Hrng.
Qed.

Lemma iterate_rows (v_history : matrix) (n : nat) (h h' : matrix)
    (self self' : CRBM.t) :
  iterate n (hvh v_history) h self = (Ok h', self') ->
  well_shaped self -> length h = length v_history ->
  length h' = length v_history.
Proof.
  revert h self. induction n as [|n IH]; intros h self Hrun Hself Hlen.
  - simpl in Hrun. inversion Hrun. subst. exact Hlen.
  - simpl in Hrun.
    destruct (total_run _ self (total_gibbs_hvh h v_history))
      as (o & self1 & Ho).
    assert (Hh : hvh v_history h self = (Ok (CRBM.out5 o), self1))
      by (unfold hvh; rewrite (bind_ok _ _ _ _ _ Ho); reflexivity).
    rewrite (bind_ok _ _ _ _ _ Hh) in Hrun.
    destruct (only_rng_run _ _ _ _ (only_rng_gibbs_hvh h v_history) Ho)
      as [rng ->].
    apply (IH _ _ Hrun).
    + apply well_shaped_set_theano_rng. exact Hself.
    + apply (gibbs_hvh_rows _ _ _ _ _ Ho Hself Hlen).
Qed.

Lemma gibbs_chain_end_shape (n : nat) (self self' : CRBM.t)
    (o : CRBM.outputs) :
  gibbs_chain (S n) self = (Ok o, self') ->
  well_shaped self ->
  length (CRBM.input self) = length (CRBM.input_history self) ->
  has_shape (length (CRBM.input self)) (CRBM.n_visible self) (CRBM.out2 o).
Proof.
  intros Hrun Hself Hlen. revert Hrun. unfold gibbs_chain.
  rewrite (bind_ok CRBM.get_self _ self self self eq_refl).
  destruct (total_run _ self
              (total_sample_h_given_v (CRBM.input self)
                 (CRBM.input_history self)))
    as ([[a p] ph] & self1 & Hph).
  rewrite (bind_ok _ _ _ _ _ Hph). simpl snd.
  destruct (total_run _ self1
              (total_iterate (CRBM.input_history self) (S n - 1) ph))
    as (h & self2 & Hit).
  rewrite (bind_ok _ _ _ _ _ Hit).
  destruct (only_rng_run _ _ _ _
              (only_rng_sample_h_given_v _ _) Hph) as [rng1 ->].
  destruct (only_rng_run _ _ _ _
              (only_rng_iterate _ _ _) Hit) as [rng2 ->].
  intros Ho. rewrite Hlen.
  apply (gibbs_hvh_rows _ _ _ _ _ Ho).
  - exact Hself.
  - apply (iterate_rows _ _ _ _ _ _ Hit).
    + exact Hself.
    + apply (sample_h_given_v_rows _ _ _ _ _ _ _ Hph). exact Hlen.
Qed.

(** ** Partial derivatives, and the gradient is unique *)

Lemma vdot_zeros_r (g : vector) (c : nat) : vdot g (repeat 0 c) = 0.
Proof.
  revert c. induction g as [|x g IH]; intros c.
  - apply vdot_nil_l.
  - destruct c as [|c]; [apply vdot_nil_r|].
    simpl repeat. rewrite vdot_cons, IH. ring.
Qed.

Lemma vdot_unit (g : vector) (n j : nat) :
  (j < n)%nat -> vdot g (unit_vector n j) = nth j g 0.
Proof.
  revert g j. induction n as [|n IH]; intros g j Hj; [lia|].
  destruct g as [|x g].
  - rewrite vdot_nil_l, nth_nil_0. reflexivity.
  - destruct j as [|j]; simpl unit_vector; rewrite vdot_cons.
    + rewrite vdot_zeros_r. simpl. ring.
    + rewrite IH by lia. simpl. ring.
Qed.

Lemma mdot_zeros_r (g : matrix) (n c : nat) : mdot g (zeros n c) = 0.
Proof.
  revert n. induction g as [|r g IH]; intros n; [reflexivity|].
  destruct n as [|n]; [reflexivity|].
  unfold zeros in *. simpl. rewrite vdot_zeros_r, IH. ring.
Qed.

Lemma mdot_unit (g : matrix) (n c i j : nat) :
  (i < n)%nat -> (j < c)%nat ->
  mdot g (unit_matrix n c i j) = nth j (nth i g []) 0.
Proof.
  revert g i. induction n as [|n IH]; intros g i Hi Hj; [lia|].
  destruct g as [|r g].
  - simpl. destruct i; rewrite nth_nil_0; reflexivity.
  - destruct i as [|i]; simpl.
    + rewrite vdot_unit, mdot_zeros_r by exact Hj. ring.
    + rewrite vdot_zeros_r, IH by lia. ring.
Qed.

Lemma unit_vector_length (n j : nat) : length (unit_vector n j) = n.
Proof.
  revert j. induction n as [|n IH]; intros j; [reflexivity|].
  destruct j; simpl; [rewrite repeat_length|rewrite IH]; reflexivity.
Qed.

Lemma zeros_shape (n c : nat) : has_shape n c (zeros n c).
Proof.
  unfold zeros. split; [apply repeat_length|].
  apply Forall_forall. intros r Hr.
  apply repeat_spec in Hr. subst r. apply repeat_length.
Qed.

Lemma unit_matrix_shape (n c i j : nat) : has_shape n c (unit_matrix n c i j).
Proof.
  revert i. induction n as [|n IH]; intros i.
  - split; [reflexivity|constructor].
  - destruct i as [|i]; simpl.
    + destruct (zeros_shape n c) as [Hn Hc].
      split; [simpl; congruence|].
      constructor; [apply unit_vector_length|exact Hc].
    + destruct (IH i) as [Hn Hc].
      split; [simpl; congruence|].
      constructor; [apply repeat_length|exact Hc].
Qed.

Lemma along_direction (self : CRBM.t) (p : parameter) (i j : nat) :
  direction_of self (along self p i j).
Proof.
  unfold direction_of, along.
  destruct p; simpl;
    repeat split;
    try apply zeros_shape; try apply unit_matrix_shape;
    try apply repeat_length; try apply unit_vector_length.
Qed.

Lemma along_pairing (self : CRBM.t) (p : parameter) (i j : nat)
    (gW gA gB : matrix) (gh gv : vector) :
  in_range self p i j ->
  pairing [Matrix gW; Matrix gA; Matrix gB; Vector gh; Vector gv]
    (along self p i j)
  = entry (component
             [Matrix gW; Matrix gA; Matrix gB; Vector gh; Vector gv] p)
      i j.
Proof.
  intros Hr. unfold pairing, along.
  destruct p; simpl in Hr |- *;
    rewrite ?mdot_zeros_r, ?vdot_zeros_r;
    rewrite ?mdot_unit, ?vdot_unit by (apply Hr || lia); ring.
Qed.

(** The entries of a gradient are the partial derivatives: the entry
    [(i, j)] of the array of [p] is the derivative of [f] when that
    entry of [p] alone moves. *)
Lemma gradient_partial (f : CRBM.t -> R) (self : CRBM.t) (g : list tensor)
    (p : parameter) (i j : nat) :
  is_gradient f self g -> in_range self p i j ->
  derivable_pt_lim (fun s => f (shift self s (along self p i j))) 0
    (entry (component g p) i j).
Proof.
  intros (gW & gA & gB & gh & gv & -> & _ & _ & _ & _ & _ & Hd) Hr.
  rewrite <- (along_pairing self p i j) by exact Hr.
  apply Hd, along_direction.
Qed.

Lemma vector_ext_range (a b : vector) (c : nat) :
  length a = c -> length b = c ->
  (forall j, (j < c)%nat -> nth j a 0 = nth j b 0) -> a = b.
Proof.
  intros Ha Hb H. apply (nth_ext a b 0 0); [congruence|].
  intros j Hj. apply H. lia.
Qed.

Lemma matrix_ext_range (a b : matrix) (l : list nat) :
  shape a = l -> shape b = l ->
  (forall i j, (i < length l)%nat -> (j < nth i l 0%nat)%nat ->
               nth j (nth i a []) 0 = nth j (nth i b []) 0) ->
  a = b.
Proof.
  revert a b. induction l as [|c l IH]; intros a b Ha Hb H.
  - destruct a; [|discriminate Ha]. destruct b; [|discriminate Hb].
    reflexivity.
  - destruct a as [|r a]; [discriminate Ha|].
    destruct b as [|t b]; [discriminate Hb|].
    change (length r :: shape a = c :: l) in Ha.
    change (length t :: shape b = c :: l) in Hb.
    injection Ha as Hr Ha. injection Hb as Ht Hb.
    f_equal.
    + apply (vector_ext_range r t c Hr Ht).
      intros j Hj. apply (H 0%nat j); simpl; lia.
    + apply IH; try assumption.
      intros i j Hi Hj. apply (H (S i) j); simpl; [lia|exact Hj].
Qed.

Lemma nth_repeat_lt (c n i : nat) : (i < n)%nat -> nth i (repeat c n) 0%nat = c.
Proof.
  revert i. induction n as [|n IH]; intros i Hi; [lia|].
  destruct i as [|i]; simpl; [reflexivity|apply IH; lia].
Qed.

(** A function of the parameters has at most one gradient. *)
Lemma gradient_unique (f : CRBM.t -> R) (self : CRBM.t)
    (g g' : list tensor) :
  well_shaped self ->
  is_gradient f self g -> is_gradient f self g' -> g = g'.
Proof.
  intros (HW & HA & HB & Hh & Hv) Hg Hg'.
  assert (Hp : forall p i j, in_range self p i j ->
                 entry (component g p) i j = entry (component g' p) i j).
  { intros p i j Hr.
    apply (uniqueness_limite
             (fun s => f (shift self s (along self p i j))) 0);
      apply gradient_partial; assumption. }
  destruct Hg as (gW & gA & gB & gh & gv & -> & SW & SA & SB & Lh & Lv & _).
  destruct Hg' as (gW' & gA' & gB' & gh' & gv' & -> & SW' & SA' & SB'
                   & Lh' & Lv' & _).
  rewrite (has_shape_shape _ _ _ HW) in SW, SW'.
  rewrite (has_shape_shape _ _ _ HA) in SA, SA'.
  rewrite (has_shape_shape _ _ _ HB) in SB, SB'.
  f_equal; [|f_equal; [|f_equal; [|f_equal; [|f_equal]]]]; f_equal.
  - apply (matrix_ext_range _ _ _ SW SW'). intros i j Hi Hj.
    rewrite repeat_length in Hi. rewrite nth_repeat_lt in Hj by exact Hi.
    apply (Hp pW i j). split; assumption.
  - apply (matrix_ext_range _ _ _ SA SA'). intros i j Hi Hj.
    rewrite repeat_length in Hi. rewrite nth_repeat_lt in Hj by exact Hi.
    apply (Hp pA i j). split; assumption.
  - apply (matrix_ext_range _ _ _ SB SB'). intros i j Hi Hj.
    rewrite repeat_length in Hi. rewrite nth_repeat_lt in Hj by exact Hi.
    apply (Hp pB i j). split; assumption.
  - apply (vector_ext_range gh gh' (CRBM.n_hidden self)); try congruence.
    intros j Hj. apply (Hp phbias 0%nat j). exact Hj.
  - apply (vector_ext_range gv gv' (CRBM.n_visible self)); try congruence.
    intros j Hj. apply (Hp pvbias 0%nat j). exact Hj.
Qed.

(** ** The updates of CD-k *)

Lemma mmap_mul_r (c : R) (a : matrix) : mmap (fun x => x * c) a = c *m a.
Proof.
  unfold mscale, mmap. apply map_ext. intros r.
  apply map_ext. intros x. ring.
Qed.

Lemma map_mul_r (c : R) (v : vector) : map (fun x => x * c) v = vscale c v.
Proof. unfold vscale. apply map_ext. intros x. ring. Qed.

Lemma mscale_mscale (c c' : R) (a : matrix) :
  c *m (c' *m a) = (c * c') *m a.
Proof.
  unfold mscale, mmap. rewrite map_map. apply map_ext. intros r.
  rewrite map_map. apply map_ext. intros x. ring.
Qed.

Lemma model2_well_shaped : well_shaped model2 /\ well_shaped_input model2.
Proof.
  unfold well_shaped, well_shaped_input, has_shape. simpl.
  repeat split; try lia; repeat constructor.
Qed.

(** C1. For every learning rate [lr], the dictionary returned by
    [get_cost_updates] maps each of [W], [B], [hbias] and [vbias] to
    [p - lr * g_p] and [A] to [A - 0.01 * lr * g_A], the step of [A]
    being 0.01 times the step of the common rule.  The [g_p] form the
    gradient of [mean(free_energy(x, x_history)) -
    mean(free_energy(chain_end, x_history))] by the parameters with the
    chain end, the visible sample of the last Gibbs step, held
    constant: they are the only such gradient, and each of their
    entries is the partial derivative of that cost by the same entry of
    the parameter. *)
Theorem updates_follow_gradient (lr : R) (k : Z) (self : CRBM.t) :
  well_shaped self -> well_shaped_input self -> (1 <= k)%Z ->
  exists o self' monitoring_cost upd gW gA gB gh gv,
    let g := [Matrix gW; Matrix gA; Matrix gB; Vector gh; Vector gv] in
    let cost := fun m => CRBM.cost m (CRBM.out2 o) in
    gibbs_chain (Z.to_nat k) self = (Ok o, self')
    /\ CRBM.get_cost_updates lr k self = (Ok (monitoring_cost, upd), self')
    /\ is_gradient cost self g
    /\ (forall g', is_gradient cost self g' -> g' = g)
    /\ (forall p i j, in_range self p i j ->
          derivable_pt_lim (fun s => cost (shift self s (along self p i j)))
            0 (entry (component g p) i j))
    /\ dict_get upd (Param pW)
       = Some (NewTensor (Matrix (CRBM.W self -m lr *m gW)))
    /\ dict_get upd (Param pB)
       = Some (NewTensor (Matrix (CRBM.B self -m lr *m gB)))
    /\ dict_get upd (Param phbias)
       = Some (NewTensor (Vector (vsub (CRBM.hbias self) (vscale lr gh))))
    /\ dict_get upd (Param pvbias)
       = Some (NewTensor (Vector (vsub (CRBM.vbias self) (vscale lr gv))))
    /\ dict_get upd (Param pA)
       = Some (NewTensor (Matrix (CRBM.A self -m (0.01 * lr) *m gA)))
    /\ (0.01 * lr) *m gA = 0.01 *m (lr *m gA).
Proof.
  intros Hself Hin Hk.
  destruct (Z.to_nat k) as [|n] eqn:En; [lia|].
  assert (Ek : k = Z.of_nat (S n)) by lia. subst k.
  destruct (get_cost_updates_run lr n self) as (o & self' & Hchain & Hrun).
  destruct (only_rng_run _ _ _ _ (only_rng_gibbs_chain (S n)) Hchain)
    as [rng ->].
  assert (Hlen : length (CRBM.input self)
                 = length (CRBM.input_history self))
    by (symmetry; apply Hin).
  pose proof (gibbs_chain_end_shape n _ _ _ Hchain Hself Hlen) as Hc.
  pose proof (T_grad_is_gradient self (CRBM.out2 o) Hself Hin Hc) as Hg.
  pose proof Hg as (gW & gA & gB & gh & gv & Eg & _).
  rewrite Eg in Hg.
  exists o, (CRBM.set_theano_rng self rng).
  eexists. eexists. exists gW, gA, gB, gh, gv.
  cbv zeta.
  split; [exact Hchain|].
  split.
  { rewrite Hrun. unfold cd_result.
    rewrite (bind_ok CRBM.get_self _ _ _ _ eq_refl).
    change (CRBM.T_grad (CRBM.set_theano_rng self rng) (CRBM.out2 o))
      with (CRBM.T_grad self (CRBM.out2 o)).
    rewrite Eg. reflexivity. }
  split; [exact Hg|].
  split.
  { intros g' Hg'. exact (gradient_unique _ _ _ _ Hself Hg' Hg). }
  split.
  { intros p i j Hr.
    exact (gradient_partial _ _ _ p i j Hg Hr). }
  cbn [combine CRBM.params fold_left CRBM.update_rule shared_eqb
       parameter_eqb dict_set
       dict_get CRBM.value tensor_sub tensor_mul CRBM.set_theano_rng
       CRBM.W CRBM.A CRBM.B CRBM.hbias CRBM.vbias].
  rewrite !mmap_mul_r, !map_mul_r, !mscale_mscale.
  repeat split.
  do 4 f_equal. unfold mscale, mmap.
  apply map_ext. intros r. apply map_ext. intros x. ring.
Qed.

Lemma updates_follow_gradient_witness :
  exists o self' monitoring_cost upd gW gA gB gh gv,
    let g := [Matrix gW; Matrix gA; Matrix gB; Vector gh; Vector gv] in
    let cost := fun m => CRBM.cost m (CRBM.out2 o) in
    gibbs_chain (Z.to_nat 2) model2 = (Ok o, self')
    /\ CRBM.get_cost_updates (1 / 10) 2 model2
       = (Ok (monitoring_cost, upd), self')
    /\ is_gradient cost model2 g
    /\ (forall g', is_gradient cost model2 g' -> g' = g)
    /\ (forall p i j, in_range model2 p i j ->
          derivable_pt_lim
            (fun s => cost (shift model2 s (along model2 p i j)))
            0 (entry (component g p) i j))
    /\ dict_get upd (Param pW)
       = Some (NewTensor (Matrix (CRBM.W model2 -m (1 / 10) *m gW)))
    /\ dict_get upd (Param pB)
       = Some (NewTensor (Matrix (CRBM.B model2 -m (1 / 10) *m gB)))
    /\ dict_get upd (Param phbias)
       = Some (NewTensor
                 (Vector (vsub (CRBM.hbias model2) (vscale (1 / 10) gh))))
    /\ dict_get upd (Param pvbias)
       = Some (NewTensor
                 (Vector (vsub (CRBM.vbias model2) (vscale (1 / 10) gv))))
    /\ dict_get upd (Param pA)
       = Some (NewTensor
                 (Matrix (CRBM.A model2 -m (0.01 * (1 / 10)) *m gA)))
    /\ (0.01 * (1 / 10)) *m gA = 0.01 *m ((1 / 10) *m gA).
Proof.
  apply (updates_follow_gradient (1 / 10) 2 model2).
  - apply model2_well_shaped.
  - apply model2_well_shaped.
  - lia.
Defined.

(** * Properties of the driver *)

(** ** Ranges and slices *)

Lemma range_length (a b : Z) : length (range a b) = Z.to_nat (b - a).
Proof. unfold range. rewrite length_map, length_seq. reflexivity. Qed.

Lemma In_range (a b x : Z) : In x (range a b) <-> (a <= x < b)%Z.
Proof.
  unfold range. rewrite in_map_iff. split.
  - intros (i & <- & Hi). apply in_seq in Hi. lia.
  - intros Hx. exists (Z.to_nat (x - a)). split; [lia|].
    apply in_seq. lia.
Qed.

Lemma range_S (a : Z) (n : nat) :
  range a (a + Z.of_nat (S n)) = a :: range (a + 1) (a + 1 + Z.of_nat n).
Proof.
  unfold range.
  replace (Z.to_nat (a + Z.of_nat (S n) - a)) with (S n) by lia.
  replace (Z.to_nat (a + 1 + Z.of_nat n - (a + 1))) with n by lia.
  simpl. f_equal; [f_equal; lia|].
  rewrite <- seq_shift, map_map. apply map_ext. intros i. lia.
Qed.

Lemma range_nat (a : Z) (n : nat) :
  range a (a + Z.of_nat n) = map (fun i => (a + Z.of_nat i)%Z) (seq 0 n).
Proof. unfold range. f_equal. f_equal. lia. Qed.


Lemma NoDup_range (a b : Z) : NoDup (range a b).
Proof.
  unfold range. apply Finite.Injective_map_NoDup.
  - intros i j H. lia.
  - apply seq_NoDup.
Qed.

Lemma batchdataindex_range (seqlen delay : Z) :
  batchdataindex seqlen delay = range delay seqlen.
Proof. reflexivity. Qed.

(** A slice between two bounds that are not negative. *)
Lemma slice_nonneg {X : Type} (l : list X) (a b : Z) :
  (0 <= a <= b)%Z ->
  slice l a b = firstn (Z.to_nat (b - a)) (skipn (Z.to_nat a) l).
Proof.
  intros Hab. unfold slice, slice_bound.
  destruct (Z.ltb_spec a 0) as [Ha|Ha]; [lia|].
  destruct (Z.ltb_spec b 0) as [Hb|Hb]; [lia|].
  set (n := Z.of_nat (length l)).
  destruct (Z.le_gt_cases a n) as [Han|Han].
  - rewrite (Z.min_l a n) by exact Han.
    destruct (Z.le_gt_cases b n) as [Hbn|Hbn].
    + rewrite (Z.min_l b n) by exact Hbn. reflexivity.
    + rewrite (Z.min_r b n) by lia.
      rewrite !firstn_all2; try reflexivity;
        rewrite length_skipn; subst n; lia.
  - rewrite (Z.min_r a n), (Z.min_r b n) by lia.
    rewrite !(skipn_all2 l) by (subst n; lia).
    rewrite !firstn_nil. reflexivity.
Qed.

Lemma slice_length {X : Type} (l : list X) (a b : Z) :
  (0 <= a <= b)%Z ->
  Z.of_nat (length (slice l a b))
  = (Z.min b (Z.of_nat (length l)) - Z.min a (Z.of_nat (length l)))%Z.
Proof.
  intros Hab. rewrite slice_nonneg by exact Hab.
  rewrite length_firstn, length_skipn. lia.
Qed.

Lemma In_firstn {X : Type} (n : nat) (l : list X) (x : X) :
  In x (firstn n l) -> In x l.
Proof.
  intros H. rewrite <- (firstn_skipn n l). apply in_or_app. left. exact H.
Qed.

Lemma In_skipn {X : Type} (n : nat) (l : list X) (x : X) :
  In x (skipn n l) -> In x l.
Proof.
  intros H. rewrite <- (firstn_skipn n l). apply in_or_app. right. exact H.
Qed.

Lemma slice_incl {X : Type} (l : list X) (a b : Z) : incl (slice l a b) l.
Proof.
  unfold slice. intros x Hx.
  apply In_firstn in Hx. apply In_skipn in Hx. exact Hx.
Qed.

Lemma data_idx_firstn (permindex : list Z) (batch_size batch_index : Z) :
  (0 < batch_size)%Z -> (0 <= batch_index)%Z ->
  data_idx permindex batch_size batch_index
  = firstn (Z.to_nat batch_size)
      (skipn (Z.to_nat (batch_index * batch_size)) permindex).
Proof.
  intros Hs Hb. unfold data_idx. rewrite slice_nonneg by nia.
  f_equal. lia.
Qed.

(** ** The indices of the histories *)

Lemma map_nth_seq {X Y : Type} (h : X -> Y) (d : list X) (x0 : X) :
  map (fun j => h (nth j d x0)) (seq 0 (length d)) = map h d.
Proof.
  induction d as [|x d IH]; [reflexivity|].
  simpl. f_equal. rewrite <- seq_shift, map_map. exact IH.
Qed.

Lemma flat_map_nil {X Y : Type} (d : list X) :
  flat_map (fun _ : X => @nil Y) d = [].
Proof. induction d as [|x d IH]; [reflexivity|exact IH]. Qed.

Lemma ravel_hist_idx (data_idx : list Z) (delay : Z) :
  ravel (hist_idx data_idx delay)
  = flat_map (fun t => map (fun n => (t - n)%Z) (range 1 (delay + 1)))
      data_idx.
Proof.
  unfold ravel, hist_idx, int_transpose.
  destruct (range 1 (delay + 1)) as [|n0 ns] eqn:Ens.
  - simpl. rewrite flat_map_nil. reflexivity.
  - clear Ens.
    change (length (hd [] (map (fun n => map (fun t => (t - n)%Z) data_idx)
                             (n0 :: ns))))
      with (length (map (fun t => (t - n0)%Z) data_idx)).
    rewrite length_map.
    generalize (n0 :: ns). clear n0 ns. intros ns.
    rewrite flat_map_concat_map. f_equal.
    rewrite <- (map_nth_seq (fun t => map (fun n => (t - n)%Z) ns)
                  data_idx 0%Z).
    apply map_ext_in. intros j Hj. apply in_seq in Hj.
    rewrite map_map. apply map_ext. intros n.
    rewrite (nth_indep _ 0%Z ((fun t => (t - n)%Z) 0%Z))
      by (rewrite length_map; lia).
    apply (map_nth (fun t => (t - n)%Z)).
Qed.

Lemma ravel_hist_idx_length (data_idx : list Z) (delay : Z) :
  length (ravel (hist_idx data_idx delay))
  = (length data_idx * Z.to_nat delay)%nat.
Proof.
  rewrite ravel_hist_idx.
  induction data_idx as [|t d IH]; [reflexivity|].
  simpl. rewrite length_app, IH, length_map, range_length.
  replace (delay + 1 - 1)%Z with delay by lia. reflexivity.
Qed.

(** X1. The vector of history indices that the driver passes to the
    compiled function lists, for each index [t] of [data_idx] in turn,
    the [delay] indices before it, the nearest first:
    [t - 1, t - 2, ..., t - delay]. *)
Theorem hist_idx_layout (data_idx : list Z) (delay : Z) :
  ravel (hist_idx data_idx delay)
  = flat_map (fun t => map (fun n => (t - n)%Z) (range 1 (delay + 1)))
      data_idx
  /\ length (ravel (hist_idx data_idx delay))
     = (length data_idx * Z.to_nat delay)%nat.
Proof.
  split; [apply ravel_hist_idx|apply ravel_hist_idx_length].
Qed.

Lemma data_idx_bounds (seqlen delay batch_size batch_index : Z)
    (permindex : list Z) (t : Z) :
  Permutation permindex (batchdataindex seqlen delay) ->
  In t (data_idx permindex batch_size batch_index) ->
  (delay <= t < seqlen)%Z.
Proof.
  intros Hperm Ht. apply slice_incl in Ht.
  apply (Permutation_in _ Hperm) in Ht.
  rewrite batchdataindex_range in Ht. apply In_range in Ht. exact Ht.
Qed.

Lemma hist_idx_bounds (seqlen delay : Z) (data_idx : list Z) (i : Z) :
  Forall (fun t => (delay <= t < seqlen)%Z) data_idx ->
  In i (ravel (hist_idx data_idx delay)) ->
  (0 <= i < seqlen)%Z.
Proof.
  intros Hd Hi. rewrite ravel_hist_idx in Hi.
  apply in_flat_map in Hi. destruct Hi as (t & Ht & Hi).
  apply in_map_iff in Hi. destruct Hi as (n & <- & Hn).
  apply In_range in Hn.
  rewrite Forall_forall in Hd. specialize (Hd t Ht). lia.
Qed.

(** X2. Whatever the shuffle, the batch and the batch size, every
    index that the driver uses to fetch a frame is a valid index of the
    sequence: the frames of a batch are at indices from [delay] up to
    [seqlen - 1], and the frames of their histories at indices from [0]
    up to [seqlen - 1].  No history index is negative, so no history
    wraps around to the end of the sequence. *)
Theorem frame_indices_in_bounds
    (seqlen delay batch_size batch_index : Z) (permindex : list Z) :
  Permutation permindex (batchdataindex seqlen delay) ->
  Forall (fun t => (delay <= t < seqlen)%Z)
    (data_idx permindex batch_size batch_index)
  /\ Forall (fun i => (0 <= i < seqlen)%Z)
       (ravel (hist_idx (data_idx permindex batch_size batch_index) delay)).
Proof.
  intros Hperm.
  assert (Hd : Forall (fun t => (delay <= t < seqlen)%Z)
                 (data_idx permindex batch_size batch_index)).
  { apply Forall_forall. intros t Ht.
    apply (data_idx_bounds _ _ _ _ _ _ Hperm Ht). }
  split; [exact Hd|].
  apply Forall_forall. intros i Hi.
  apply (hist_idx_bounds _ _ _ _ Hd Hi).
Qed.

Lemma frame_indices_in_bounds_witness :
  Forall (fun t => (2 <= t < 7)%Z) (data_idx [4; 2; 6; 3; 5]%Z 2 1)
  /\ Forall (fun i => (0 <= i < 7)%Z)
       (ravel (hist_idx (data_idx [4; 2; 6; 3; 5]%Z 2 1) 2)).
Proof.
  apply (frame_indices_in_bounds 7 2 2 1 [4; 2; 6; 3; 5]%Z).
  rewrite batchdataindex_range.
  change (range 2 7) with ([2; 3] ++ 4 :: [5; 6])%Z.
  apply Permutation_cons_app. simpl. apply perm_skip.
  change [3; 5; 6]%Z with ([3; 5] ++ 6 :: [])%Z.
  apply Permutation_cons_app. simpl. apply Permutation_refl.
Defined.

(** ** The batches of an epoch *)

Lemma permindex_length (seqlen delay : Z) (permindex : list Z) :
  Permutation permindex (batchdataindex seqlen delay) ->
  length permindex = Z.to_nat (seqlen - delay).
Proof.
  intros H. rewrite (Permutation_length H), batchdataindex_range.
  apply range_length.
Qed.

Lemma data_idx_length (permindex : list Z) (batch_size batch_index : Z) :
  (0 < batch_size)%Z -> (0 <= batch_index)%Z ->
  Z.of_nat (length (data_idx permindex batch_size batch_index))
  = (Z.min ((batch_index + 1) * batch_size) (Z.of_nat (length permindex))
     - Z.min (batch_index * batch_size) (Z.of_nat (length permindex)))%Z.
Proof.
  intros Hs Hb. unfold data_idx. apply slice_length. nia.
Qed.

(** A batch is full when the shuffled indices reach its end. *)
Lemma data_idx_full (permindex : list Z) (batch_size batch_index : Z) :
  (0 < batch_size)%Z -> (0 <= batch_index)%Z ->
  (length (data_idx permindex batch_size batch_index) = Z.to_nat batch_size
   <-> ((batch_index + 1) * batch_size <= Z.of_nat (length permindex))%Z).
Proof.
  intros Hs Hb.
  pose proof (data_idx_length permindex batch_size batch_index Hs Hb) as E.
  split; intros H.
  - destruct (Z.le_gt_cases ((batch_index + 1) * batch_size)
                (Z.of_nat (length permindex))) as [Hle|Hgt]; [exact Hle|].
    exfalso. nia.
  - rewrite Z.min_l in E by exact H.
    rewrite Z.min_l in E by nia. nia.
Qed.

Lemma n_batches_full (seqlen delay batch_size : Z) (permindex : list Z) :
  (0 < batch_size <= seqlen)%Z -> (0 <= delay)%Z ->
  Permutation permindex (batchdataindex seqlen delay) ->
  n_train_batches seqlen batch_size = Done (seqlen / batch_size)%Z
  /\ ((forall batch_index,
         In batch_index (range 0 (seqlen / batch_size)) ->
         length (data_idx permindex batch_size batch_index)
         = Z.to_nat batch_size)
      <-> (delay <= seqlen mod batch_size)%Z).
Proof.
  intros Hs Hdelay Hperm.
  pose proof (permindex_length _ _ _ Hperm) as Hlen.
  pose proof (Z.div_mod seqlen batch_size ltac:(lia)) as Hdm.
  pose proof (Z.mod_pos_bound seqlen batch_size ltac:(lia)) as Hmod.
  assert (Hn : (1 <= seqlen / batch_size)%Z).
  { apply Z.div_le_lower_bound; lia. }
  split.
  - unfold n_train_batches.
    destruct (Z.eqb_spec batch_size 0) as [E|_]; [lia|].
    rewrite Z.quot_div_nonneg by lia. reflexivity.
  - split.
    + intros Hall.
      specialize (Hall (seqlen / batch_size - 1)%Z).
      rewrite In_range in Hall. specialize (Hall ltac:(lia)).
      apply data_idx_full in Hall; [|lia|lia].
      rewrite Hlen in Hall. nia.
    + intros Hd batch_index Hb. apply In_range in Hb.
      apply data_idx_full; [lia|lia|].
      rewrite Hlen. nia.
Qed.

(** X3. The number of batches of an epoch is computed from the length
    of the sequence, not from the number of starting indices, which is
    [delay] less.  With a batch size of at least 1 and at most [seqlen]
    and any shuffle, every batch of the epoch has [batch_size] indices
    if and only if [delay <= seqlen mod batch_size]; otherwise some
    batch is short. *)
Theorem batches_full_iff (seqlen delay batch_size : Z) (permindex : list Z) :
  (0 < batch_size <= seqlen)%Z -> (0 <= delay)%Z ->
  Permutation permindex (batchdataindex seqlen delay) ->
  n_train_batches seqlen batch_size = Done (seqlen / batch_size)%Z
  /\ ((forall batch_index,
         In batch_index (range 0 (seqlen / batch_size)) ->
         length (data_idx permindex batch_size batch_index)
         = Z.to_nat batch_size)
      <-> (delay <= seqlen mod batch_size)%Z).
Proof. exact (n_batches_full seqlen delay batch_size permindex). Qed.

Lemma batches_full_iff_witness :
  n_train_batches 7 3 = Done (7 / 3)%Z
  /\ ((forall batch_index,
         In batch_index (range 0 (7 / 3)) ->
         length (data_idx [4; 2; 6; 1; 5; 3]%Z 3 batch_index) = Z.to_nat 3)
      <-> (1 <= 7 mod 3)%Z).
Proof.
  apply (batches_full_iff 7 1 3 [4; 2; 6; 1; 5; 3]%Z); [lia|lia|].
  rewrite batchdataindex_range.
  change (range 1 7) with [1; 2; 3; 4; 5; 6]%Z.
  apply NoDup_Permutation.
  - repeat constructor; simpl; intuition discriminate.
  - repeat constructor; simpl; intuition discriminate.
  - intros x. simpl. intuition congruence.
Defined.

Lemma firstn_add {X : Type} (a b : nat) (l : list X) :
  firstn (a + b) l = firstn a l ++ firstn b (skipn a l).
Proof.
  revert l. induction a as [|a IH]; intros l; [reflexivity|].
  destruct l as [|x l]; [simpl; rewrite firstn_nil; reflexivity|].
  simpl. f_equal. apply IH.
Qed.

Lemma range_snoc (n : nat) :
  range 0 (Z.of_nat (S n)) = range 0 (Z.of_nat n) ++ [Z.of_nat n].
Proof.
  unfold range.
  replace (Z.to_nat (Z.of_nat (S n) - 0)) with (S n) by lia.
  replace (Z.to_nat (Z.of_nat n - 0)) with n by lia.
  rewrite seq_S, map_app. reflexivity.
Qed.

(** The batches of an epoch, one after the other, are the start of the
    shuffled indices. *)
Lemma concat_data_idx (permindex : list Z) (batch_size : Z) (n : nat) :
  (0 < batch_size)%Z ->
  concat (map (data_idx permindex batch_size) (range 0 (Z.of_nat n)))
  = firstn (n * Z.to_nat batch_size) permindex.
Proof.
  intros Hs. induction n as [|n IH]; [reflexivity|].
  rewrite range_snoc, map_app, concat_app, IH.
  cbn [map concat]. rewrite app_nil_r.
  rewrite data_idx_firstn by lia.
  replace (Z.to_nat (Z.of_nat n * batch_size))
    with (n * Z.to_nat batch_size)%nat by nia.
  replace (S n * Z.to_nat batch_size)%nat
    with (n * Z.to_nat batch_size + Z.to_nat batch_size)%nat by lia.
  symmetry. apply firstn_add.
Qed.

Lemma NoDup_firstn {X : Type} (n : nat) (l : list X) :
  NoDup l -> NoDup (firstn n l).
Proof.
  intros H. rewrite <- (firstn_skipn n l) in H.
  apply NoDup_app_remove_r in H. exact H.
Qed.

Lemma NoDup_permindex (seqlen delay : Z) (permindex : list Z) :
  Permutation permindex (batchdataindex seqlen delay) -> NoDup permindex.
Proof.
  intros H. apply (Permutation_NoDup (Permutation_sym H)).
  rewrite batchdataindex_range. apply NoDup_range.
Qed.

(** X4. The batches of an epoch, taken one after the other, are the
    first [n_train_batches * batch_size] indices of the shuffle: no
    frame is used twice in an epoch, and an epoch uses
    [min (n_train_batches * batch_size) (seqlen - delay)] frames (none
    when [seqlen <= delay]). *)
Theorem epoch_batches (seqlen delay batch_size n : Z) (permindex : list Z) :
  (0 < batch_size)%Z -> (0 <= n)%Z ->
  Permutation permindex (batchdataindex seqlen delay) ->
  let epoch := concat (map (data_idx permindex batch_size) (range 0 n)) in
  epoch = firstn (Z.to_nat (n * batch_size)) permindex
  /\ NoDup epoch
  /\ Z.of_nat (length epoch)
     = Z.min (n * batch_size) (Z.max 0 (seqlen - delay)).
Proof.
  intros Hs Hn Hperm epoch.
  assert (E : epoch = firstn (Z.to_nat (n * batch_size)) permindex).
  { subst epoch. rewrite <- (Z2Nat.id n) at 1 by exact Hn.
    rewrite concat_data_idx by exact Hs. f_equal. nia. }
  split; [exact E|]. split.
  - rewrite E. apply NoDup_firstn.
    apply (NoDup_permindex _ _ _ Hperm).
  - rewrite E, length_firstn, (permindex_length _ _ _ Hperm). nia.
Qed.

Lemma epoch_batches_witness :
  let epoch :=
    concat (map (data_idx [4; 2; 6; 1; 5; 3]%Z 4) (range 0 1)) in
  epoch = firstn (Z.to_nat (1 * 4)) [4; 2; 6; 1; 5; 3]%Z
  /\ NoDup epoch
  /\ Z.of_nat (length epoch) = Z.min (1 * 4) (Z.max 0 (7 - 1)).
Proof.
  apply (epoch_batches 7 1 4 1 [4; 2; 6; 1; 5; 3]%Z); [lia|lia|].
  rewrite batchdataindex_range.
  change (range 1 7) with [1; 2; 3; 4; 5; 6]%Z.
  apply NoDup_Permutation.
  - repeat constructor; simpl; intuition discriminate.
  - repeat constructor; simpl; intuition discriminate.
  - intros x. simpl. intuition congruence.
Defined.

(** ** The batch and its histories *)

Lemma row_at_in_bounds (a : matrix) (i : Z) :
  (0 <= i < Z.of_nat (length a))%Z -> row_at a i = Ok (frame a i).
Proof.
  intros Hi. unfold row_at, frame.
  destruct (Z.leb_spec 0 i) as [_|H]; [|lia].
  destruct (Z.ltb_spec i (Z.of_nat (length a))) as [_|H]; [|lia].
  reflexivity.
Qed.

Lemma take_in_bounds (a : matrix) (idx : list Z) :
  Forall (fun i => (0 <= i < Z.of_nat (length a))%Z) idx ->
  take a idx = Ok (map (frame a) idx).
Proof.
  intros H. induction H as [|i idx Hi _ IH]; [reflexivity|].
  simpl. rewrite (row_at_in_bounds _ _ Hi), IH. reflexivity.
Qed.

Lemma frame_length (a : matrix) (c : nat) (i : Z) :
  Forall (fun r => length r = c) a ->
  (0 <= i < Z.of_nat (length a))%Z -> length (frame a i) = c.
Proof.
  intros Ha Hi. unfold frame. rewrite Forall_forall in Ha.
  apply Ha. apply nth_In. lia.
Qed.

Lemma length_concat_const {X : Type} (c : nat) (l : list (list X)) :
  Forall (fun b => length b = c) l ->
  length (concat l) = (length l * c)%nat.
Proof.
  intros H. induction H as [|b l Hb _ IH]; [reflexivity|].
  simpl. rewrite length_app, Hb, IH. reflexivity.
Qed.

Lemma rows_of_flat_concat (c : nat) (l : matrix) :
  Forall (fun b => length b = c) l ->
  rows_of_flat (length l) c (concat l) = l.
Proof.
  intros H. unfold rows_of_flat.
  induction H as [|b l Hb _ IH]; [reflexivity|].
  cbn [length seq map concat]. f_equal.
  - simpl. rewrite firstn_app, Hb, Nat.sub_diag, firstn_O, app_nil_r.
    apply firstn_all2. lia.
  - rewrite <- seq_shift, map_map. rewrite <- IH at 2.
    apply map_ext. intros i. f_equal.
    rewrite skipn_app, Hb.
    rewrite skipn_all2 by (rewrite Hb; simpl; lia).
    simpl. f_equal. lia.
Qed.

Lemma history_length (a : matrix) (c delay : nat) (t : Z) :
  Forall (fun r => length r = c) a ->
  (Z.of_nat delay <= t < Z.of_nat (length a))%Z ->
  length (history a delay t) = (delay * c)%nat.
Proof.
  intros Ha Ht. unfold history.
  rewrite (length_concat_const c).
  - rewrite length_map, range_length. f_equal. lia.
  - apply Forall_forall. intros r Hr.
    apply in_map_iff in Hr. destruct Hr as (n & <- & Hn).
    apply In_range in Hn. apply (frame_length _ _ _ Ha). lia.
Qed.

Lemma frames_of_histories (a : matrix) (delay : nat) (index : list Z) :
  concat (map (frame a) (ravel (hist_idx index (Z.of_nat delay))))
  = concat (map (history a delay) index).
Proof.
  rewrite ravel_hist_idx.
  induction index as [|t d IH]; [reflexivity|].
  cbn [flat_map map concat].
  rewrite map_app, concat_app, IH, map_map. reflexivity.
Qed.

Lemma histories_shape (a : matrix) (c delay : nat) (index : list Z) :
  Forall (fun r => length r = c) a ->
  Forall (fun t => (Z.of_nat delay <= t < Z.of_nat (length a))%Z) index ->
  has_shape (length index) (c * delay) (map (history a delay) index).
Proof.
  intros Ha Hidx. split; [apply length_map|].
  apply Forall_forall. intros r Hr.
  apply in_map_iff in Hr. destruct Hr as (t & <- & Ht).
  rewrite Forall_forall in Hidx.
  rewrite (history_length _ c _ _ Ha (Hidx t Ht)). lia.
Qed.

Lemma frames_shape (a : matrix) (c delay : nat) (index : list Z) :
  Forall (fun r => length r = c) a ->
  Forall (fun t => (Z.of_nat delay <= t < Z.of_nat (length a))%Z) index ->
  has_shape (length index) c (map (frame a) index).
Proof.
  intros Ha Hidx. split; [apply length_map|].
  apply Forall_forall. intros r Hr.
  apply in_map_iff in Hr. destruct Hr as (t & <- & Ht).
  rewrite Forall_forall in Hidx. specialize (Hidx t Ht).
  apply (frame_length _ _ _ Ha). lia.
Qed.

Lemma givens_takes (batchdata : matrix) (batch_size : Z) (delay n_dim : nat)
    (index : list Z) :
  Forall (fun t => (Z.of_nat delay <= t
                    < Z.of_nat (length batchdata))%Z) index ->
  givens batchdata batch_size delay n_dim index
    (ravel (hist_idx index (Z.of_nat delay)))
  = match reshape (map (frame batchdata)
                     (ravel (hist_idx index (Z.of_nat delay))))
            batch_size (Z.of_nat delay * Z.of_nat n_dim) with
    | Err e => Err e
    | Ok x_history => Ok (map (frame batchdata) index, x_history)
    end.
Proof.
  intros Hidx. unfold givens.
  rewrite take_in_bounds.
  - rewrite take_in_bounds; [reflexivity|].
    apply Forall_forall. intros i Hi.
    apply (hist_idx_bounds _ _ _ _ Hidx Hi).
  - apply (Forall_impl _ (P := fun t => (Z.of_nat delay <= t
                                < Z.of_nat (length batchdata))%Z));
      [intros t; lia|exact Hidx].
Qed.

Lemma givens_full (batchdata : matrix) (batch_size : Z) (delay n_dim : nat)
    (index : list Z) :
  Forall (fun r => length r = n_dim) batchdata ->
  Forall (fun t => (Z.of_nat delay <= t
                    < Z.of_nat (length batchdata))%Z) index ->
  Z.of_nat (length index) = batch_size ->
  givens batchdata batch_size delay n_dim index
    (ravel (hist_idx index (Z.of_nat delay)))
  = Ok (map (frame batchdata) index, map (history batchdata delay) index).
Proof.
  intros Ha Hidx Hlen. rewrite givens_takes by exact Hidx.
  unfold reshape. rewrite frames_of_histories.
  destruct (histories_shape _ _ _ _ Ha Hidx) as [Hn Hc].
  rewrite (length_concat_const _ _ Hc), length_map.
  destruct (Z.eqb_spec batch_size (-1)) as [E|_]; [lia|].
  destruct (Z.eqb_spec (Z.of_nat delay * Z.of_nat n_dim) (-1)) as [E|_];
    [lia|].
  cbn [andb].
  destruct (Z.leb_spec 0 batch_size) as [_|E]; [|lia].
  destruct (Z.leb_spec 0 (Z.of_nat delay * Z.of_nat n_dim)) as [_|E];
    [|lia].
  destruct (Z.eqb_spec (batch_size * (Z.of_nat delay * Z.of_nat n_dim))
              (Z.of_nat (length index * (n_dim * delay)))) as [_|E];
    [|nia].
  cbn [andb]. do 2 f_equal.
  replace (Z.to_nat batch_size) with (length (map (history batchdata delay)
                                                index))
    by (rewrite length_map; lia).
  replace (Z.to_nat (Z.of_nat delay * Z.of_nat n_dim))
    with (n_dim * delay)%nat by lia.
  apply rows_of_flat_concat. exact Hc.
Qed.

Lemma givens_short (batchdata : matrix) (batch_size : Z) (delay n_dim : nat)
    (index : list Z) :
  Forall (fun r => length r = n_dim) batchdata ->
  Forall (fun t => (Z.of_nat delay <= t
                    < Z.of_nat (length batchdata))%Z) index ->
  (Z.of_nat (length index) < batch_size)%Z ->
  (1 <= delay)%nat -> (1 <= n_dim)%nat ->
  givens batchdata batch_size delay n_dim index
    (ravel (hist_idx index (Z.of_nat delay)))
  = Err ValueError.
Proof.
  intros Ha Hidx Hlen Hdelay Hdim. rewrite givens_takes by exact Hidx.
  unfold reshape. rewrite frames_of_histories.
  destruct (histories_shape _ _ _ _ Ha Hidx) as [Hn Hc].
  rewrite (length_concat_const _ _ Hc), length_map.
  destruct (Z.eqb_spec batch_size (-1)) as [E|_]; [lia|].
  destruct (Z.eqb_spec (Z.of_nat delay * Z.of_nat n_dim) (-1)) as [E|_];
    [lia|].
  cbn [andb].
  destruct (Z.eqb_spec (batch_size * (Z.of_nat delay * Z.of_nat n_dim))
              (Z.of_nat (length index * (n_dim * delay)))) as [E|_].
  { exfalso. rewrite !Nat2Z.inj_mul in E.
    assert (Hpos : (0 < Z.of_nat delay * Z.of_nat n_dim)%Z) by nia.
    assert (E' : ((batch_size - Z.of_nat (length index))
                  * (Z.of_nat delay * Z.of_nat n_dim) = 0)%Z) by lia.
    apply Z.mul_eq_0 in E'. lia. }
  rewrite !andb_false_r. reflexivity.
Qed.

(** X5. For a batch of [batch_size] indices of frames that have a full
    history, [givens] binds the input of the model to the frames of the
    batch, in the order of the batch, and the history of the model to
    one row per frame: the [delay] frames before it, the nearest first,
    side by side.  The two inputs have the shapes that the model
    expects: [batch_size] rows of [n_dim] and of [delay * n_dim]
    entries. *)
Theorem givens_batch (batchdata : matrix) (batch_size : Z)
    (delay n_dim : nat) (index : list Z) :
  Forall (fun r => length r = n_dim) batchdata ->
  Forall (fun t => (Z.of_nat delay <= t
                    < Z.of_nat (length batchdata))%Z) index ->
  Z.of_nat (length index) = batch_size ->
  (1 <= delay)%nat ->
  givens batchdata batch_size delay n_dim index
    (ravel (hist_idx index (Z.of_nat delay)))
  = Ok (map (frame batchdata) index, map (history batchdata delay) index)
  /\ has_shape (Z.to_nat batch_size) n_dim (map (frame batchdata) index)
  /\ has_shape (Z.to_nat batch_size) (delay * n_dim)
       (map (history batchdata delay) index).
Proof.
  intros Ha Hidx Hlen _.
  split; [apply (givens_full _ _ _ _ _ Ha Hidx Hlen)|].
  replace (Z.to_nat batch_size) with (length index) by lia.
  split; [apply (frames_shape _ _ _ _ Ha Hidx)|].
  rewrite Nat.mul_comm. apply (histories_shape _ _ _ _ Ha Hidx).
Qed.

(** X6. For a batch of fewer than [batch_size] indices, the frames of
    the histories cannot be laid out in [batch_size] rows: the call of
    the compiled function raises [ValueError]. *)
Theorem givens_short_batch (batchdata : matrix) (batch_size : Z)
    (delay n_dim : nat) (index : list Z) :
  Forall (fun r => length r = n_dim) batchdata ->
  Forall (fun t => (Z.of_nat delay <= t
                    < Z.of_nat (length batchdata))%Z) index ->
  (Z.of_nat (length index) < batch_size)%Z ->
  (1 <= delay)%nat -> (1 <= n_dim)%nat ->
  forall learning_rate self,
    train_crbm_call batchdata batch_size delay n_dim learning_rate index
      (ravel (hist_idx index (Z.of_nat delay))) self
    = (Failed (Raised ValueError), self).
Proof.
  intros Ha Hidx Hlen Hdelay Hdim learning_rate self.
  unfold train_crbm_call.
  rewrite (givens_short _ _ _ _ _ Ha Hidx Hlen Hdelay Hdim). reflexivity.
Qed.

(** ** One call of the compiled function *)

Lemma T_grad_form (self : CRBM.t) (chain_end : matrix) :
  exists gW gA gB gh gv,
    CRBM.T_grad self chain_end
    = [Matrix gW; Matrix gA; Matrix gB; Vector gh; Vector gv].
Proof.
  unfold CRBM.T_grad, CRBM.grad_mean_free_energy.
  cbn [CRBM.tensors_sub tensor_sub]. repeat eexists.
Qed.

Lemma apply_updates_cd (self m : CRBM.t) (lr : R) (g : list tensor)
    (rng : RandomStreams) (gW gA gB : matrix) (gh gv : vector) :
  parameters m = parameters self ->
  g = [Matrix gW; Matrix gA; Matrix gB; Vector gh; Vector gv] ->
  apply_updates self
    (fold_left (CRBM.update_rule m lr) (combine g CRBM.params)
       [(StateOf_theano_rng, NewState rng)])
  = Some (gradient_step self lr g rng).
Proof.
  intros Hp ->. unfold parameters in Hp.
  injection Hp as HW HA HB Hh Hv.
  cbn [combine CRBM.params fold_left CRBM.update_rule shared_eqb
       parameter_eqb dict_set CRBM.value tensor_sub tensor_mul
       apply_updates apply_update gradient_step
       CRBM.n_visible CRBM.n_hidden CRBM.delay CRBM.input
       CRBM.input_history CRBM.W CRBM.A CRBM.B CRBM.hbias CRBM.vbias
       CRBM.theano_rng].
  rewrite HW, HA, HB, Hh, Hv.
  rewrite !mmap_mul_r, !map_mul_r, !mscale_mscale.
  replace (lr * 0.01) with (0.01 * lr) by ring.
  reflexivity.
Qed.

Lemma train_crbm_call_run (batchdata : matrix) (batch_size : Z)
    (delay n_dim : nat) (learning_rate : R) (index index_hist : list Z)
    (x x_history : matrix) (self : CRBM.t) :
  givens batchdata batch_size delay n_dim index index_hist
  = Ok (x, x_history) ->
  exists o rng,
    gibbs_chain 1 (set_inputs self x x_history)
    = (Ok o, CRBM.set_theano_rng (set_inputs self x x_history) rng)
    /\ train_crbm_call batchdata batch_size delay n_dim learning_rate
         index index_hist self
       = (Done (reconstruction_error x (CRBM.out1 o)),
          gradient_step self learning_rate
            (CRBM.T_grad (set_inputs self x x_history) (CRBM.out2 o)) rng).
Proof.
  intros Hg. unfold train_crbm_call. rewrite Hg.
  set (m := set_inputs self x x_history).
  destruct (get_cost_updates_run learning_rate 0 m)
    as (o & self' & Hchain & Hrun).
  destruct (only_rng_run _ _ _ _ (only_rng_gibbs_chain 1) Hchain)
    as [rng ->].
  exists o, rng. split; [exact Hchain|].
  change (Z.of_nat 1) with 1%Z in Hrun. rewrite Hrun.
  unfold cd_result.
  rewrite (bind_ok CRBM.get_self _ _ _ _ eq_refl).
  unfold CRBM.ret. cbn [fst].
  change (CRBM.T_grad (CRBM.set_theano_rng m rng) (CRBM.out2 o))
    with (CRBM.T_grad m (CRBM.out2 o)).
  change (CRBM.theano_rng (CRBM.set_theano_rng m rng)) with rng.
  destruct (T_grad_form m (CRBM.out2 o))
    as (gW & gA & gB & gh & gv & Eg).
  rewrite (apply_updates_cd self (CRBM.set_theano_rng m rng)
             learning_rate _ rng gW gA gB gh gv eq_refl Eg).
  rewrite get_reconstruction_cost_error. reflexivity.
Qed.

Lemma set_inputs_well_shaped (self : CRBM.t) (x x_history : matrix) :
  well_shaped self -> well_shaped (set_inputs self x x_history).
Proof. intros H. exact H. Qed.

Lemma has_shape_step (n c : nat) (a g : matrix) (s : R) :
  has_shape n c a -> shape g = shape a -> has_shape n c (a -m s *m g).
Proof.
  intros Ha Hg. apply shape_has_shape. unfold msub.
  rewrite shape_mewise_same by (rewrite shape_mscale; symmetry; exact Hg).
  apply has_shape_shape. exact Ha.
Qed.

Lemma length_step (a g : vector) (s : R) :
  length g = length a -> length (vsub a (vscale s g)) = length a.
Proof.
  intros Hg. rewrite vsub_length, vscale_length, Hg. apply Nat.max_id.
Qed.

Lemma gradient_step_well_shaped (f : CRBM.t -> R) (self m : CRBM.t)
    (lr : R) (g : list tensor) (rng : RandomStreams) :
  parameters m = parameters self ->
  well_shaped self -> is_gradient f m g ->
  well_shaped (gradient_step self lr g rng).
Proof.
  intros Hp (HW & HA & HB & Hh & Hv)
    (gW & gA & gB & gh & gv & -> & EW & EA & EB & Eh & Ev & _).
  unfold parameters in Hp. injection Hp as PW PA PB Ph Pv.
  rewrite PW in EW. rewrite PA in EA. rewrite PB in EB.
  rewrite Ph in Eh. rewrite Pv in Ev.
  unfold well_shaped, gradient_step.
  cbn [CRBM.n_visible CRBM.n_hidden CRBM.delay CRBM.W CRBM.A CRBM.B
       CRBM.hbias CRBM.vbias].
  split; [apply has_shape_step; assumption|].
  split; [apply has_shape_step; assumption|].
  split; [apply has_shape_step; assumption|].
  split; rewrite length_step; assumption.
Qed.

Lemma Rsum_nonneg (v : vector) : Forall (fun x => 0 <= x) v -> 0 <= Rsum v.
Proof.
  intros H. induction H as [|x v Hx _ IH]; [simpl; lra|].
  rewrite Rsum_cons. lra.
Qed.

Lemma Rsum_sqr_nonneg (v : vector) : 0 <= Rsum (map Rsqr v).
Proof.
  apply Rsum_nonneg. apply Forall_forall. intros y Hy.
  apply in_map_iff in Hy. destruct Hy as (x & <- & _). apply Rle_0_sqr.
Qed.

Lemma reconstruction_error_nonneg (x m : matrix) :
  0 <= reconstruction_error x m.
Proof.
  unfold reconstruction_error, T.mean.
  set (l := map (fun row => Rsum (map Rsqr row)) (x -m m)).
  assert (Hs : 0 <= Rsum l).
  { apply Rsum_nonneg. apply Forall_forall. intros y Hy. subst l.
    apply in_map_iff in Hy. destruct Hy as (r & <- & _).
    apply Rsum_sqr_nonneg. }
  destruct l as [|y l'] eqn:El.
  - simpl. unfold Rdiv. rewrite Rmult_0_l. lra.
  - apply Rmult_le_pos; [exact Hs|].
    apply Rlt_le, Rinv_0_lt_compat, lt_0_INR. simpl. lia.
Qed.

Lemma gradient_step_dims (self : CRBM.t) (lr : R) (g : list tensor)
    (rng : RandomStreams) :
  CRBM.n_visible (gradient_step self lr g rng) = CRBM.n_visible self
  /\ CRBM.n_hidden (gradient_step self lr g rng) = CRBM.n_hidden self
  /\ CRBM.delay (gradient_step self lr g rng) = CRBM.delay self
  /\ CRBM.input (gradient_step self lr g rng) = CRBM.input self
  /\ CRBM.input_history (gradient_step self lr g rng)
     = CRBM.input_history self.
Proof.
  unfold gradient_step.
  repeat match goal with
         | |- context [match ?x with _ => _ end] => destruct x
         end; repeat split.
Qed.

Lemma train_crbm_call_full (batchdata : matrix) (batch_size : Z)
    (delay n_dim : nat) (learning_rate : R) (index : list Z)
    (self : CRBM.t) :
  fits self n_dim delay ->
  Forall (fun r => length r = n_dim) batchdata ->
  Forall (fun t => (Z.of_nat delay <= t
                    < Z.of_nat (length batchdata))%Z) index ->
  Z.of_nat (length index) = batch_size -> (0 < batch_size)%Z ->
  exists o rng,
    let x := map (frame batchdata) index in
    let m := set_inputs self x (map (history batchdata delay) index) in
    let g := CRBM.T_grad m (CRBM.out2 o) in
    gibbs_chain 1 m = (Ok o, CRBM.set_theano_rng m rng)
    /\ is_gradient (fun m' => CRBM.cost m' (CRBM.out2 o)) m g
    /\ train_crbm_call batchdata batch_size delay n_dim learning_rate
         index (ravel (hist_idx index (Z.of_nat delay))) self
       = (Done (reconstruction_error x (CRBM.out1 o)),
          gradient_step self learning_rate g rng)
    /\ fits (gradient_step self learning_rate g rng) n_dim delay
    /\ 0 <= reconstruction_error x (CRBM.out1 o).
Proof.
  intros (Hself & Hdim & Hdelay) Ha Hidx Hlen Hpos.
  pose proof (givens_full _ _ _ _ _ Ha Hidx Hlen) as Hg.
  destruct (train_crbm_call_run _ _ _ _ learning_rate _ _ _ _ self Hg)
    as (o & rng & Hchain & Hrun).
  exists o, rng. cbv zeta.
  set (x := map (frame batchdata) index) in *.
  set (m := set_inputs self x (map (history batchdata delay) index)) in *.
  assert (Hm : well_shaped m) by exact Hself.
  assert (Hin : well_shaped_input m).
  { unfold well_shaped_input, m, set_inputs.
    cbn [CRBM.input CRBM.input_history CRBM.n_visible CRBM.delay].
    rewrite Hdim, Hdelay.
    destruct (frames_shape _ _ _ _ Ha Hidx) as [Hn Hc].
    split; [subst x; rewrite length_map; lia|].
    split; [exact Hc|].
    subst x. rewrite length_map.
    apply (histories_shape _ _ _ _ Ha Hidx). }
  assert (Hl : length (CRBM.input m) = length (CRBM.input_history m))
    by (symmetry; apply Hin).
  pose proof (gibbs_chain_end_shape 0 _ _ _ Hchain Hm Hl) as Hc.
  pose proof (T_grad_is_gradient m (CRBM.out2 o) Hm Hin Hc) as Hgrad.
  split; [exact Hchain|]. split; [exact Hgrad|]. split; [exact Hrun|].
  split.
  - split; [exact (gradient_step_well_shaped _ self m _ _ rng eq_refl
                     Hself Hgrad)|].
    destruct (gradient_step_dims self learning_rate
                (CRBM.T_grad m (CRBM.out2 o)) rng) as (-> & _ & -> & _).
    split; assumption.
  - apply reconstruction_error_nonneg.
Qed.

(** X7. On a batch of [batch_size] indices of frames that have a full
    history, a call of the compiled function runs one step of CD-1 on
    the frames of the batch and their histories, returns their
    reconstruction error, which is not negative, and moves each
    parameter against its entry of the gradient of the CD cost of the
    batch: by [learning_rate] times the gradient, [A] by 0.01 times as
    much.  The model keeps its numbers of units and the shapes of its
    parameters, and its random stream is the one the chain leaves. *)
Theorem training_call_is_gradient_step (batchdata : matrix)
    (batch_size : Z) (delay n_dim : nat) (learning_rate : R)
    (index : list Z) (self : CRBM.t) :
  fits self n_dim delay ->
  Forall (fun r => length r = n_dim) batchdata ->
  Forall (fun t => (Z.of_nat delay <= t
                    < Z.of_nat (length batchdata))%Z) index ->
  Z.of_nat (length index) = batch_size -> (0 < batch_size)%Z ->
  (1 <= delay)%nat ->
  exists o rng,
    let x := map (frame batchdata) index in
    let m := set_inputs self x (map (history batchdata delay) index) in
    let g := CRBM.T_grad m (CRBM.out2 o) in
    gibbs_chain 1 m = (Ok o, CRBM.set_theano_rng m rng)
    /\ is_gradient (fun m' => CRBM.cost m' (CRBM.out2 o)) m g
    /\ train_crbm_call batchdata batch_size delay n_dim learning_rate
         index (ravel (hist_idx index (Z.of_nat delay))) self
       = (Done (reconstruction_error x (CRBM.out1 o)),
          gradient_step self learning_rate g rng)
    /\ fits (gradient_step self learning_rate g rng) n_dim delay
    /\ 0 <= reconstruction_error x (CRBM.out1 o).
Proof.
  intros Hself Ha Hidx Hlen Hpos _.
  exact (train_crbm_call_full batchdata batch_size delay n_dim
           learning_rate index self Hself Ha Hidx Hlen Hpos).
Qed.

(** ** The loops over the batches and the epochs *)

Lemma data_idx_le (permindex : list Z) (batch_size batch_index : Z) :
  (0 < batch_size)%Z -> (0 <= batch_index)%Z ->
  (length (data_idx permindex batch_size batch_index)
   <= Z.to_nat batch_size)%nat.
Proof.
  intros Hs Hb. rewrite data_idx_firstn by assumption.
  rewrite length_firstn. lia.
Qed.

Lemma data_idx_Forall (batchdata : matrix) (delay : nat)
    (permindex : list Z) (batch_size batch_index : Z) :
  Permutation permindex
    (batchdataindex (Z.of_nat (length batchdata)) (Z.of_nat delay)) ->
  Forall (fun t => (Z.of_nat delay <= t < Z.of_nat (length batchdata))%Z)
    (data_idx permindex batch_size batch_index).
Proof.
  intros Hperm. apply Forall_forall. intros t Ht.
  apply (data_idx_bounds _ _ _ _ _ _ Hperm Ht).
Qed.

Lemma train_batch_full (batchdata : matrix) (permindex : list Z)
    (batch_size : Z) (delay n_dim : nat) (learning_rate : R)
    (batch_index : Z) (self : CRBM.t) :
  fits self n_dim delay ->
  Forall (fun r => length r = n_dim) batchdata ->
  Permutation permindex
    (batchdataindex (Z.of_nat (length batchdata)) (Z.of_nat delay)) ->
  (0 < batch_size)%Z -> (1 <= delay)%nat ->
  length (data_idx permindex batch_size batch_index)
  = Z.to_nat batch_size ->
  exists this_cost self',
    train_batch batchdata permindex batch_size delay n_dim learning_rate
      batch_index self = (Done this_cost, self')
    /\ fits self' n_dim delay /\ 0 <= this_cost.
Proof.
  intros Hself Ha Hperm Hs Hdelay Hfull.
  destruct (train_crbm_call_full batchdata batch_size delay n_dim
              learning_rate (data_idx permindex batch_size batch_index)
              self Hself Ha (data_idx_Forall _ _ _ _ _ Hperm)
              ltac:(lia) Hs)
    as (o & rng & _ & _ & Hrun & Hfits & Hcost).
  unfold train_batch.
  destruct permindex as [|p permindex'].
  { exfalso. unfold data_idx, slice in Hfull.
    rewrite skipn_nil, firstn_nil in Hfull. simpl in Hfull. lia. }
  destruct delay as [|delay']; [lia|].
  rewrite Hrun. eauto.
Qed.

Lemma train_batch_short (batchdata : matrix) (permindex : list Z)
    (batch_size : Z) (delay n_dim : nat) (learning_rate : R)
    (batch_index : Z) (self : CRBM.t) :
  Forall (fun r => length r = n_dim) batchdata ->
  Permutation permindex
    (batchdataindex (Z.of_nat (length batchdata)) (Z.of_nat delay)) ->
  (0 < batch_size)%Z -> (1 <= delay)%nat -> (1 <= n_dim)%nat ->
  permindex <> [] -> (0 <= batch_index)%Z ->
  length (data_idx permindex batch_size batch_index)
  <> Z.to_nat batch_size ->
  train_batch batchdata permindex batch_size delay n_dim learning_rate
    batch_index self = (Failed (Raised ValueError), self).
Proof.
  intros Ha Hperm Hs Hdelay Hdim Hne Hb Hshort.
  pose proof (data_idx_le permindex batch_size batch_index Hs Hb) as Hle.
  unfold train_batch.
  destruct permindex as [|p permindex']; [congruence|].
  destruct delay as [|delay']; [lia|].
  unfold train_crbm_call.
  rewrite (givens_short _ _ _ _ _ Ha (data_idx_Forall _ _ _ _ _ Hperm));
    [reflexivity|lia|lia|lia].
Qed.

Lemma train_batches_run (batchdata : matrix) (permindex : list Z)
    (batch_size : Z) (delay n_dim : nat) (learning_rate : R)
    (batches : list Z) :
  Forall (fun r => length r = n_dim) batchdata ->
  Permutation permindex
    (batchdataindex (Z.of_nat (length batchdata)) (Z.of_nat delay)) ->
  (0 < batch_size)%Z -> (1 <= delay)%nat -> (1 <= n_dim)%nat ->
  permindex <> [] ->
  Forall (fun b => (0 <= b)%Z) batches ->
  let full := fun b =>
    length (data_idx permindex batch_size b) = Z.to_nat batch_size in
  forall mean_cost self,
    fits self n_dim delay ->
    (Forall full batches ->
     exists costs self',
       train_batches batchdata permindex batch_size delay n_dim
         learning_rate batches mean_cost self
       = (Done (mean_cost ++ costs), self')
       /\ length costs = length batches
       /\ Forall (fun c => 0 <= c) costs
       /\ fits self' n_dim delay)
    /\ (~ Forall full batches ->
        exists self',
          train_batches batchdata permindex batch_size delay n_dim
            learning_rate batches mean_cost self
          = (Failed (Raised ValueError), self')
          /\ fits self' n_dim delay).
Proof.
  intros Ha Hperm Hs Hdelay Hdim Hne Hb full.
  induction Hb as [|b batches Hb0 Hb IH]; intros mean_cost self Hself.
  - split.
    + intros _. exists [], self. rewrite app_nil_r.
      repeat split; try constructor; apply Hself.
    + intros H. exfalso. apply H. constructor.
  - cbn [train_batches].
    destruct (Nat.eq_dec (length (data_idx permindex batch_size b))
                (Z.to_nat batch_size)) as [Hfull|Hshort].
    + destruct (train_batch_full batchdata permindex batch_size delay
                  n_dim learning_rate b self Hself Ha Hperm Hs Hdelay
                  Hfull)
        as (this_cost & self1 & Hrun & Hself1 & Hcost).
      rewrite Hrun.
      destruct (IH (mean_cost ++ [this_cost]) self1 Hself1)
        as [IHfull IHshort].
      split.
      * intros Hall. apply Forall_cons_iff in Hall.
        destruct (IHfull (proj2 Hall))
          as (costs & self' & Hrun' & Hlen & Hpos & Hself').
        exists (this_cost :: costs), self'.
        rewrite Hrun', <- app_assoc.
        repeat split; try (simpl; congruence); try apply Hself'.
        constructor; assumption.
      * intros Hnot. apply IHshort. intros Hall. apply Hnot.
        constructor; assumption.
    + rewrite (train_batch_short batchdata permindex batch_size delay
                 n_dim learning_rate b self Ha Hperm Hs Hdelay Hdim Hne
                 Hb0 Hshort).
      split.
      * intros Hall. apply Forall_cons_iff in Hall.
        exfalso. apply Hshort. apply Hall.
      * intros _. exists self. split; [reflexivity|exact Hself].
Qed.

Lemma train_epochs_full (batchdata : matrix) (permindex : list Z)
    (batch_size : Z) (delay n_dim : nat) (learning_rate : R)
    (n_batches : Z) (epochs : list Z) :
  Forall (fun r => length r = n_dim) batchdata ->
  Permutation permindex
    (batchdataindex (Z.of_nat (length batchdata)) (Z.of_nat delay)) ->
  (0 < batch_size)%Z -> (1 <= delay)%nat -> (1 <= n_dim)%nat ->
  permindex <> [] ->
  Forall (fun b => length (data_idx permindex batch_size b)
                   = Z.to_nat batch_size) (range 0 n_batches) ->
  forall self,
    fits self n_dim delay ->
    exists costs self',
      train_epochs batchdata permindex batch_size delay n_dim
        learning_rate n_batches epochs self = (Done costs, self')
      /\ length costs = length epochs
      /\ Forall (fun mean_cost =>
                   length mean_cost = Z.to_nat n_batches
                   /\ Forall (fun c => 0 <= c) mean_cost) costs
      /\ fits self' n_dim delay.
Proof.
  intros Ha Hperm Hs Hdelay Hdim Hne Hfull.
  assert (Hb : Forall (fun b => (0 <= b)%Z) (range 0 n_batches)).
  { apply Forall_forall. intros b Hb. apply In_range in Hb. lia. }
  induction epochs as [|epoch epochs IH]; intros self Hself.
  - exists [], self. repeat split; try constructor; apply Hself.
  - cbn [train_epochs].
    destruct (proj1 (train_batches_run batchdata permindex batch_size
                       delay n_dim learning_rate (range 0 n_batches)
                       Ha Hperm Hs Hdelay Hdim Hne Hb [] self Hself)
                Hfull)
      as (mean_cost & self1 & Hrun & Hlen & Hpos & Hself1).
    rewrite Hrun.
    destruct (IH self1 Hself1) as (costs & self' & Hrun' & Hlen' & Hall
                                   & Hself').
    rewrite Hrun'. exists (mean_cost :: costs), self'.
    split; [reflexivity|]. split; [simpl; congruence|].
    split; [|exact Hself'].
    constructor; [|exact Hall].
    split; [|exact Hpos].
    rewrite Hlen, range_length. f_equal. lia.
Qed.

Lemma train_epochs_short (batchdata : matrix) (permindex : list Z)
    (batch_size : Z) (delay n_dim : nat) (learning_rate : R)
    (n_batches : Z) (epochs : list Z) :
  Forall (fun r => length r = n_dim) batchdata ->
  Permutation permindex
    (batchdataindex (Z.of_nat (length batchdata)) (Z.of_nat delay)) ->
  (0 < batch_size)%Z -> (1 <= delay)%nat -> (1 <= n_dim)%nat ->
  permindex <> [] -> epochs <> [] ->
  ~ Forall (fun b => length (data_idx permindex batch_size b)
                     = Z.to_nat batch_size) (range 0 n_batches) ->
  forall self,
    fits self n_dim delay ->
    exists self',
      train_epochs batchdata permindex batch_size delay n_dim
        learning_rate n_batches epochs self
      = (Failed (Raised ValueError), self')
      /\ fits self' n_dim delay.
Proof.
  intros Ha Hperm Hs Hdelay Hdim Hne Hepochs Hshort self Hself.
  assert (Hb : Forall (fun b => (0 <= b)%Z) (range 0 n_batches)).
  { apply Forall_forall. intros b Hb. apply In_range in Hb. lia. }
  destruct epochs as [|epoch epochs]; [congruence|].
  cbn [train_epochs].
  destruct (proj2 (train_batches_run batchdata permindex batch_size
                     delay n_dim learning_rate (range 0 n_batches)
                     Ha Hperm Hs Hdelay Hdim Hne Hb [] self Hself)
              Hshort)
    as (self' & Hrun & Hself').
  rewrite Hrun. exists self'. split; [reflexivity|exact Hself'].
Qed.

Lemma permindex_nonempty (seqlen delay : Z) (permindex : list Z) :
  Permutation permindex (batchdataindex seqlen delay) ->
  (delay < seqlen)%Z -> permindex <> [].
Proof.
  intros Hperm Hlt ->.
  pose proof (permindex_length _ _ _ Hperm) as H. simpl in H. lia.
Qed.

(** X8. Training runs to its end when no batch is short.  For a
    sequence of [seqlen] frames of [n_dim >= 1] entries, a batch size
    from 1 to [seqlen], a delay of at least 1 and at most
    [seqlen mod batch_size], a model of the shapes of the constructor
    and any shuffle: the loop over the epochs ends without an
    exception, it gathers for each epoch one cost per batch,
    [seqlen / batch_size] of them, none of them negative, and the
    trained model has the numbers of units and the shapes of the model
    it started from. *)
Theorem training_completes (batchdata : matrix) (permindex : list Z)
    (seqlen batch_size : Z) (delay n_dim : nat) (learning_rate : R)
    (training_epochs : Z) (self : CRBM.t) :
  Z.of_nat (length batchdata) = seqlen ->
  Forall (fun r => length r = n_dim) batchdata ->
  Permutation permindex (batchdataindex seqlen (Z.of_nat delay)) ->
  fits self n_dim delay ->
  (0 < batch_size <= seqlen)%Z -> (1 <= delay)%nat -> (1 <= n_dim)%nat ->
  (Z.of_nat delay <= seqlen mod batch_size)%Z ->
  exists costs self',
    n_train_batches seqlen batch_size = Done (seqlen / batch_size)%Z
    /\ train_epochs batchdata permindex batch_size delay n_dim
         learning_rate (seqlen / batch_size) (range 0 training_epochs)
         self
       = (Done costs, self')
    /\ length costs = Z.to_nat training_epochs
    /\ Forall (fun mean_cost =>
                 length mean_cost = Z.to_nat (seqlen / batch_size)
                 /\ Forall (fun c => 0 <= c) mean_cost) costs
    /\ fits self' n_dim delay.
Proof.
  intros <- Ha Hperm Hself Hs Hdelay Hdim Hmod.
  set (seqlen := Z.of_nat (length batchdata)) in *.
  destruct (n_batches_full seqlen (Z.of_nat delay) batch_size permindex
              Hs ltac:(lia) Hperm) as [Hn Hiff].
  pose proof (Z.mod_pos_bound seqlen batch_size ltac:(lia)) as Hbound.
  destruct (train_epochs_full batchdata permindex batch_size delay n_dim
              learning_rate (seqlen / batch_size)
              (range 0 training_epochs) Ha Hperm ltac:(lia) Hdelay Hdim
              (permindex_nonempty _ _ _ Hperm ltac:(lia))
              (proj2 (Forall_forall _ _) (proj2 Hiff Hmod)) self Hself)
    as (costs & self' & Hrun & Hlen & Hall & Hself').
  exists costs, self'. split; [exact Hn|]. split; [exact Hrun|].
  split; [|split; assumption].
  rewrite Hlen, range_length. f_equal. lia.
Qed.

(** X9. Training stops in its first epoch when a batch is short.  The
    number of batches is [seqlen / batch_size], but only
    [seqlen - delay] frames have a full history.  For a sequence of
    [seqlen] frames of [n_dim >= 1] entries, a batch size from 1 to
    [seqlen], a delay of at least 1 and less than [seqlen], and at
    least one epoch: if [seqlen mod batch_size < delay], whatever the
    shuffle, the loop over the epochs ends with [ValueError], and the
    model it leaves has the numbers of units and the shapes of the
    model it started from. *)
Theorem training_fails_on_short_batch (batchdata : matrix)
    (permindex : list Z) (seqlen batch_size : Z) (delay n_dim : nat)
    (learning_rate : R) (training_epochs : Z) (self : CRBM.t) :
  Z.of_nat (length batchdata) = seqlen ->
  Forall (fun r => length r = n_dim) batchdata ->
  Permutation permindex (batchdataindex seqlen (Z.of_nat delay)) ->
  fits self n_dim delay ->
  (0 < batch_size <= seqlen)%Z -> (1 <= delay)%nat -> (1 <= n_dim)%nat ->
  (Z.of_nat delay < seqlen)%Z -> (0 < training_epochs)%Z ->
  (seqlen mod batch_size < Z.of_nat delay)%Z ->
  exists self',
    n_train_batches seqlen batch_size = Done (seqlen / batch_size)%Z
    /\ train_epochs batchdata permindex batch_size delay n_dim
         learning_rate (seqlen / batch_size) (range 0 training_epochs)
         self
       = (Failed (Raised ValueError), self')
    /\ fits self' n_dim delay.
Proof.
  intros <- Ha Hperm Hself Hs Hdelay Hdim Hlt Hepochs Hmod.
  set (seqlen := Z.of_nat (length batchdata)) in *.
  destruct (n_batches_full seqlen (Z.of_nat delay) batch_size permindex
              Hs ltac:(lia) Hperm) as [Hn Hiff].
  assert (Hshort : ~ Forall (fun b =>
                      length (data_idx permindex batch_size b)
                      = Z.to_nat batch_size)
                     (range 0 (seqlen / batch_size))).
  { intros Hall. rewrite Forall_forall in Hall.
    apply (proj1 Hiff) in Hall. lia. }
  assert (Hne : range 0 training_epochs <> []).
  { intros E. apply (f_equal (@length Z)) in E.
    rewrite range_length in E. simpl in E. lia. }
  destruct (train_epochs_short batchdata permindex batch_size delay n_dim
              learning_rate (seqlen / batch_size)
              (range 0 training_epochs) Ha Hperm ltac:(lia) Hdelay Hdim
              (permindex_nonempty _ _ _ Hperm Hlt) Hne Hshort self Hself)
    as (self' & Hrun & Hself').
  exists self'. split; [exact Hn|]. split; assumption.
Qed.

(** *** The theorems of the driver on small sequences *)

Lemma demo_fits : fits demo 1 1.
Proof.
  unfold fits, well_shaped, has_shape. simpl.
  repeat split; repeat constructor.
Qed.

Lemma givens_batch_witness :
  givens [[0]; [1]; [2]; [3]] 2 1 1 [3; 1]%Z
    (ravel (hist_idx [3; 1]%Z (Z.of_nat 1)))
  = Ok (map (frame [[0]; [1]; [2]; [3]]) [3; 1]%Z,
        map (history [[0]; [1]; [2]; [3]] 1) [3; 1]%Z)
  /\ has_shape (Z.to_nat 2) 1 (map (frame [[0]; [1]; [2]; [3]]) [3; 1]%Z)
  /\ has_shape (Z.to_nat 2) (1 * 1)
       (map (history [[0]; [1]; [2]; [3]] 1) [3; 1]%Z).
Proof.
  apply (givens_batch [[0]; [1]; [2]; [3]] 2 1 1 [3; 1]%Z).
  - repeat constructor.
  - repeat constructor; simpl; lia.
  - reflexivity.
  - lia.
Defined.

Lemma givens_short_batch_witness :
  train_crbm_call [[0]; [1]; [2]; [3]] 2 1 1 (1 / 10) [3]%Z
    (ravel (hist_idx [3]%Z (Z.of_nat 1))) demo
  = (Failed (Raised ValueError), demo).
Proof.
  refine (givens_short_batch [[0]; [1]; [2]; [3]] 2 1 1 [3]%Z
            _ _ _ _ _ (1 / 10) demo).
  - repeat constructor.
  - repeat constructor; simpl; lia.
  - simpl. lia.
  - lia.
  - lia.
Defined.

Lemma training_call_is_gradient_step_witness :
  exists o rng,
    let x := map (frame [[0]; [1]; [2]; [3]]) [3; 1]%Z in
    let m :=
      set_inputs demo x (map (history [[0]; [1]; [2]; [3]] 1) [3; 1]%Z) in
    let g := CRBM.T_grad m (CRBM.out2 o) in
    gibbs_chain 1 m = (Ok o, CRBM.set_theano_rng m rng)
    /\ is_gradient (fun m' => CRBM.cost m' (CRBM.out2 o)) m g
    /\ train_crbm_call [[0]; [1]; [2]; [3]] 2 1 1 (1 / 10) [3; 1]%Z
         (ravel (hist_idx [3; 1]%Z (Z.of_nat 1))) demo
       = (Done (reconstruction_error x (CRBM.out1 o)),
          gradient_step demo (1 / 10) g rng)
    /\ fits (gradient_step demo (1 / 10) g rng) 1 1
    /\ 0 <= reconstruction_error x (CRBM.out1 o).
Proof.
  apply (training_call_is_gradient_step [[0]; [1]; [2]; [3]] 2 1 1
           (1 / 10) [3; 1]%Z demo).
  - exact demo_fits.
  - repeat constructor.
  - repeat constructor; simpl; lia.
  - reflexivity.
  - lia.
  - lia.
Defined.

Lemma training_completes_witness :
  exists costs self',
    n_train_batches 3 2 = Done (3 / 2)%Z
    /\ train_epochs [[0]; [1]; [2]] [2; 1]%Z 2 1 1 (1 / 10) (3 / 2)
         (range 0 2) demo
       = (Done costs, self')
    /\ length costs = Z.to_nat 2
    /\ Forall (fun mean_cost =>
                 length mean_cost = Z.to_nat (3 / 2)
                 /\ Forall (fun c => 0 <= c) mean_cost) costs
    /\ fits self' 1 1.
Proof.
  apply (training_completes [[0]; [1]; [2]] [2; 1]%Z 3 2 1 1 (1 / 10) 2
           demo).
  - reflexivity.
  - repeat constructor.
  - rewrite batchdataindex_range.
    change (range (Z.of_nat 1) 3) with [1; 2]%Z. apply perm_swap.
  - exact demo_fits.
  - lia.
  - lia.
  - lia.
  - change (3 mod 2)%Z with 1%Z. simpl. lia.
Defined.

Lemma training_fails_on_short_batch_witness :
  exists self',
    n_train_batches 4 2 = Done (4 / 2)%Z
    /\ train_epochs [[0]; [1]; [2]; [3]] [2; 1; 3]%Z 2 1 1 (1 / 10)
         (4 / 2) (range 0 2) demo
       = (Failed (Raised ValueError), self')
    /\ fits self' 1 1.
Proof.
  apply (training_fails_on_short_batch [[0]; [1]; [2]; [3]] [2; 1; 3]%Z
           4 2 1 1 (1 / 10) 2 demo).
  - reflexivity.
  - repeat constructor.
  - rewrite batchdataindex_range.
    change (range (Z.of_nat 1) 4) with [1; 2; 3]%Z. apply perm_swap.
  - exact demo_fits.
  - lia.
  - lia.
  - lia.
  - simpl. lia.
  - lia.
  - change (4 mod 2)%Z with 0%Z. simpl. lia.
Defined.

(** ** A Gibbs step from the visible units *)

Lemma gibbs_vhv_run (self : CRBM.t) (v0_sample v_history : matrix) :
  let rng := CRBM.theano_rng self in
  exists pre_sigmoid_h1 h1_mean h1_sample self',
    CRBM.sample_h_given_v v0_sample v_history self
    = (Ok (pre_sigmoid_h1, h1_mean, h1_sample), self')
    /\ self' = CRBM.set_theano_rng self
                 (mkRandomStreams (draws rng)
                    (pos rng + length (entries h1_mean)))
    /\ CRBM.gibbs_vhv v0_sample v_history self
       = (Ok (pre_sigmoid_h1, h1_mean, h1_sample,
              CRBM.propdown self h1_sample v_history,
              CRBM.propdown self h1_sample v_history), self').
Proof.
  intros rng.
  destruct (sample_h_given_v_run self v0_sample v_history)
    as (h1_sample & Hrun & _).
  eexists. eexists. exists h1_sample. eexists.
  split; [exact Hrun|]. split; [reflexivity|].
  unfold CRBM.gibbs_vhv.
  rewrite (bind_ok _ _ _ _ _ Hrun). cbv beta iota.
  reflexivity.
Qed.

Lemma gibbs_chain_1 (self self1 : CRBM.t) (a p ph_sample : matrix) :
  CRBM.sample_h_given_v (CRBM.input self) (CRBM.input_history self) self
  = (Ok (a, p, ph_sample), self1) ->
  gibbs_chain 1 self
  = CRBM.gibbs_hvh ph_sample (CRBM.input_history self) self1.
Proof.
  intros Hph. unfold gibbs_chain.
  rewrite (bind_ok CRBM.get_self _ self self self eq_refl).
  rewrite (bind_ok _ _ _ _ _ Hph). reflexivity.
Qed.

(** X10. [gibbs_vhv] samples the hidden units as [sample_h_given_v]
    does from the same random stream, one draw per hidden probability,
    and returns as the mean and as the sample of the visible units the
    same array, [propdown] of the hidden sample.  Started from the
    input of the model under its history, it ends on the visible mean
    and sample on which the chain of CD-1 ends: the reconstruction of
    [get_cost_updates] with [k = 1] is one [gibbs_vhv] step from the
    data. *)
Theorem gibbs_vhv_reconstruction (self : CRBM.t)
    (v0_sample v_history : matrix) :
  let rng := CRBM.theano_rng self in
  exists pre_sigmoid_h1 h1_mean h1_sample v1 self',
    CRBM.sample_h_given_v v0_sample v_history self
    = (Ok (pre_sigmoid_h1, h1_mean, h1_sample), self')
    /\ CRBM.gibbs_vhv v0_sample v_history self
       = (Ok (pre_sigmoid_h1, h1_mean, h1_sample, v1, v1), self')
    /\ v1 = CRBM.propdown self h1_sample v_history
    /\ self' = CRBM.set_theano_rng self
                 (mkRandomStreams (draws rng)
                    (pos rng + length (entries h1_mean)))
    /\ (v0_sample = CRBM.input self ->
        v_history = CRBM.input_history self ->
        exists o self'',
          gibbs_chain 1 self = (Ok o, self'')
          /\ CRBM.out1 o = v1 /\ CRBM.out2 o = v1).
Proof.
  intros rng.
  destruct (gibbs_vhv_run self v0_sample v_history)
    as (a & p & h & self' & Hph & Hself' & Hvhv).
  exists a, p, h, (CRBM.propdown self h v_history), self'.
  split; [exact Hph|]. split; [exact Hvhv|]. split; [reflexivity|].
  split; [exact Hself'|].
  intros -> ->.
  rewrite (gibbs_chain_1 _ _ _ _ _ Hph).
  destruct (total_run _ self'
              (total_gibbs_hvh h (CRBM.input_history self)))
    as (o & self'' & Hrun).
  exists o, self''. split; [exact Hrun|].
  destruct (gibbs_hvh_visible _ _ _ _ _ Hrun) as [H1 H2].
  rewrite H1, H2, Hself'. split; reflexivity.
Qed.

(** ** The reconstruction cost *)

Lemma Rsum_zero (v : vector) :
  Forall (fun x => 0 <= x) v -> Rsum v = 0 -> Forall (fun x => x = 0) v.
Proof.
  intros H. induction H as [|x v Hx Hv IH]; intros Hs; [constructor|].
  rewrite Rsum_cons in Hs. pose proof (Rsum_nonneg v Hv).
  constructor; [lra|apply IH; lra].
Qed.

Lemma row_error_zero (u v : vector) :
  length u = length v ->
  (Rsum (map Rsqr (vsub u v)) = 0 <-> u = v).
Proof.
  revert v. induction u as [|x u IH]; intros [|y v] Hlen;
    try discriminate Hlen.
  - split; reflexivity.
  - injection Hlen as Hlen.
    change (vsub (x :: u) (y :: v)) with ((x - y) :: vsub u v).
    cbn [map]. rewrite Rsum_cons.
    pose proof (Rle_0_sqr (x - y)) as Hx.
    pose proof (Rsum_sqr_nonneg (vsub u v)) as Hu.
    split.
    + intros Hs.
      assert (Hx0 : Rsqr (x - y) = 0) by lra.
      apply Rsqr_0_uniq in Hx0.
      assert (Hu0 : Rsum (map Rsqr (vsub u v)) = 0) by lra.
      apply (IH v Hlen) in Hu0. f_equal; [lra|exact Hu0].
    + intros E. injection E as -> ->.
      rewrite (proj2 (IH v Hlen) eq_refl).
      unfold Rminus. rewrite Rplus_opp_r, Rsqr_0. lra.
Qed.

Lemma rows_error_nonneg (a : matrix) :
  Forall (fun x => 0 <= x) (map (fun row => Rsum (map Rsqr row)) a).
Proof.
  apply Forall_forall. intros y Hy.
  apply in_map_iff in Hy. destruct Hy as (r & <- & _).
  apply Rsum_sqr_nonneg.
Qed.

Lemma rows_error_zero (a b : matrix) :
  shape a = shape b ->
  (Rsum (map (fun row => Rsum (map Rsqr row)) (a -m b)) = 0 <-> a = b).
Proof.
  revert b. induction a as [|r a IH]; intros [|s b] Hshape;
    try discriminate Hshape.
  - split; reflexivity.
  - change (length r :: shape a = length s :: shape b) in Hshape.
    injection Hshape as Hr Ha.
    change ((r :: a) -m (s :: b)) with (vsub r s :: (a -m b)).
    cbn [map]. rewrite Rsum_cons.
    pose proof (Rsum_sqr_nonneg (vsub r s)) as H1.
    pose proof (Rsum_nonneg _ (rows_error_nonneg (a -m b))) as H2.
    split.
    + intros Hs. f_equal.
      * apply (row_error_zero r s Hr). lra.
      * apply (IH b Ha). lra.
    + intros E. injection E as -> ->.
      rewrite (proj2 (row_error_zero s s eq_refl) eq_refl).
      rewrite (proj2 (IH b Ha) eq_refl). lra.
Qed.

Lemma reconstruction_error_zero (x m : matrix) :
  (0 < length x)%nat -> shape m = shape x ->
  (reconstruction_error x m = 0 <-> m = x).
Proof.
  intros Hpos Hshape. unfold reconstruction_error, T.mean.
  rewrite length_map. unfold msub at 2.
  rewrite mewise_length, <- (shape_length _ _ Hshape), Nat.max_id.
  assert (Hn : 0 < INR (length m)).
  { apply lt_0_INR. rewrite (shape_length _ _ Hshape). exact Hpos. }
  split.
  - intros H. symmetry. apply (rows_error_zero x m (eq_sym Hshape)).
    unfold Rdiv in H. apply Rmult_integral in H.
    destruct H as [H|H]; [exact H|].
    exfalso. apply (Rinv_neq_0_compat (INR (length m))); [lra|exact H].
  - intros ->. rewrite (proj2 (rows_error_zero x x eq_refl) eq_refl).
    unfold Rdiv. apply Rmult_0_l.
Qed.

(** X11. The reconstruction cost of a batch of at least one row and a
    reconstruction of the shape of the batch is not negative, and it is
    zero exactly when the reconstruction is the batch itself.  It does
    not depend on the update dictionary that it is given. *)
Theorem reconstruction_cost_zero_iff (self : CRBM.t)
    (updates : updates_dict) (pre_sigmoid_nv : matrix) :
  (0 < length (CRBM.input self))%nat ->
  shape pre_sigmoid_nv = shape (CRBM.input self) ->
  0 <= CRBM.get_reconstruction_cost self updates pre_sigmoid_nv
  /\ (CRBM.get_reconstruction_cost self updates pre_sigmoid_nv = 0
      <-> pre_sigmoid_nv = CRBM.input self)
  /\ CRBM.get_reconstruction_cost self updates pre_sigmoid_nv
     = CRBM.get_reconstruction_cost self [] pre_sigmoid_nv.
Proof.
  intros Hpos Hshape. rewrite !get_reconstruction_cost_error.
  split; [apply reconstruction_error_nonneg|].
  split; [apply (reconstruction_error_zero _ _ Hpos Hshape)|reflexivity].
Qed.

Lemma reconstruction_cost_zero_iff_witness :
  0 <= CRBM.get_reconstruction_cost model2 [] [[1; 2]; [3; 5]]
  /\ (CRBM.get_reconstruction_cost model2 [] [[1; 2]; [3; 5]] = 0
      <-> [[1; 2]; [3; 5]] = CRBM.input model2)
  /\ CRBM.get_reconstruction_cost model2 [] [[1; 2]; [3; 5]]
     = CRBM.get_reconstruction_cost model2 [] [[1; 2]; [3; 5]].
Proof.
  apply (reconstruction_cost_zero_iff model2 [] [[1; 2]; [3; 5]]).
  - simpl. lia.
  - reflexivity.
Defined.

(** ** A learning rate of zero *)

Lemma vsub_zero_scale (a g : vector) :
  length g = length a -> vsub a (vscale 0 g) = a.
Proof.
  revert g. induction a as [|x a IH]; intros [|y g] Hlen;
    try discriminate Hlen; [reflexivity|].
  injection Hlen as Hlen.
  change (vsub (x :: a) (vscale 0 (y :: g)))
    with ((x - 0 * y) :: vsub a (vscale 0 g)).
  rewrite (IH g Hlen). f_equal. ring.
Qed.

Lemma msub_zero_scale (a g : matrix) :
  shape g = shape a -> a -m 0 *m g = a.
Proof.
  revert g. induction a as [|r a IH]; intros [|s g] Hshape;
    try discriminate Hshape; [reflexivity|].
  change (length s :: shape g = length r :: shape a) in Hshape.
  injection Hshape as Hr Ha.
  change ((r :: a) -m 0 *m (s :: g))
    with (vsub r (vscale 0 s) :: (a -m 0 *m g)).
  rewrite (IH g Ha), (vsub_zero_scale r s Hr). reflexivity.
Qed.

(** X12. With a learning rate of zero, [get_cost_updates] maps every
    parameter to its current value: on a well-shaped model and batch
    and for [k >= 1], applying the dictionary changes no weight and no
    bias. *)
Theorem zero_learning_rate (k : Z) (self : CRBM.t) :
  well_shaped self -> well_shaped_input self -> (1 <= k)%Z ->
  exists monitoring_cost upd self',
    CRBM.get_cost_updates 0 k self = (Ok (monitoring_cost, upd), self')
    /\ forall p,
         dict_get upd (Param p) = Some (NewTensor (CRBM.value self p)).
Proof.
  intros Hself Hin Hk.
  destruct (Z.to_nat k) as [|n] eqn:En; [lia|].
  assert (Ek : k = Z.of_nat (S n)) by lia. subst k.
  destruct (get_cost_updates_run 0 n self) as (o & self' & Hchain & Hrun).
  destruct (only_rng_run _ _ _ _ (only_rng_gibbs_chain (S n)) Hchain)
    as [rng ->].
  assert (Hlen : length (CRBM.input self)
                 = length (CRBM.input_history self))
    by (symmetry; apply Hin).
  pose proof (gibbs_chain_end_shape n _ _ _ Hchain Hself Hlen) as Hc.
  destruct (T_grad_is_gradient self (CRBM.out2 o) Hself Hin Hc)
    as (gW & gA & gB & gh & gv & Eg & EW & EA & EB & Eh & Ev & _).
  eexists. eexists. exists (CRBM.set_theano_rng self rng).
  split.
  { rewrite Hrun. unfold cd_result.
    rewrite (bind_ok CRBM.get_self _ _ _ _ eq_refl).
    change (CRBM.T_grad (CRBM.set_theano_rng self rng) (CRBM.out2 o))
      with (CRBM.T_grad self (CRBM.out2 o)).
    rewrite Eg. reflexivity. }
  cbn [combine CRBM.params fold_left CRBM.update_rule shared_eqb
       parameter_eqb dict_set
       CRBM.value tensor_sub tensor_mul CRBM.set_theano_rng
       CRBM.W CRBM.A CRBM.B CRBM.hbias CRBM.vbias].
  rewrite !mmap_mul_r, !map_mul_r.
  intros [ | | | | ]; cbn [dict_get shared_eqb parameter_eqb CRBM.value];
    do 3 f_equal.
  - apply msub_zero_scale. exact EW.
  - apply msub_zero_scale. rewrite shape_mscale. exact EA.
  - apply msub_zero_scale. exact EB.
  - apply vsub_zero_scale. exact Eh.
  - apply vsub_zero_scale. exact Ev.
Qed.

Lemma zero_learning_rate_witness :
  exists monitoring_cost upd self',
    CRBM.get_cost_updates 0 2 model2 = (Ok (monitoring_cost, upd), self')
    /\ forall p,
         dict_get upd (Param p) = Some (NewTensor (CRBM.value model2 p)).
Proof.
  apply (zero_learning_rate 2 model2).
  - apply model2_well_shaped.
  - apply model2_well_shaped.
  - lia.
Defined.

(** ** A batch size that leaves no batch *)




(** ** The random numbers that a step of CD uses *)








(** * Properties of the constructor *)

Lemma normals_length {RandomState : Type}
    (normal : RandomState -> R * RandomState) (n : nat)
    (rng : RandomState) :
  length (fst (normals RandomState normal n rng)) = n.
Proof.
  revert rng. induction n as [|n IH]; intros rng; [reflexivity|].
  cbn [normals]. destruct (normal rng) as [x rng1].
  specialize (IH rng1).
  destruct (normals RandomState normal n rng1) as [xs rng2].
  simpl in *. congruence.
Qed.

Lemma rows_of_flat_shape (r c : nat) (flat : vector) :
  length flat = (r * c)%nat -> has_shape r c (rows_of_flat r c flat).
Proof.
  intros Hlen. unfold rows_of_flat. split.
  - rewrite length_map, length_seq. reflexivity.
  - apply Forall_forall. intros row Hrow.
    apply in_map_iff in Hrow. destruct Hrow as (i & <- & Hi).
    apply in_seq in Hi.
    rewrite length_firstn, length_skipn, Hlen. nia.
Qed.

Lemma randn_shape {RandomState : Type}
    (normal : RandomState -> R * RandomState) (d0 d1 : nat)
    (rng : RandomState) :
  has_shape d0 d1 (fst (randn RandomState normal d0 d1 rng)).
Proof.
  unfold randn.
  pose proof (normals_length normal (d0 * d1) rng) as Hlen.
  destruct (normals RandomState normal (d0 * d1) rng) as [flat rng'].
  apply rows_of_flat_shape. exact Hlen.
Qed.

Lemma has_shape_mscale (n c : nat) (s : R) (a : matrix) :
  has_shape n c a -> has_shape n c (s *m a).
Proof.
  intros H. apply shape_has_shape. rewrite shape_mscale.
  apply has_shape_shape. exact H.
Qed.

(** X15. A model built without weights and biases has the shapes that
    the methods expect: [W] is [n_visible] by [n_hidden], [A] is
    [n_visible * delay] by [n_visible] and [B] is [n_visible * delay]
    by [n_hidden], and the biases are zero vectors of [n_hidden] and
    [n_visible] entries.  The weights are 0.01 times the standard
    normal variates that the generator yields, drawn for [W], then for
    [A], then for [B], after the seed of the random stream when no
    stream is given. *)
Theorem constructor_defaults {RandomState : Type}
    (normal : RandomState -> R * RandomState)
    (randint : Z -> RandomState -> Z * RandomState)
    (RandomState_of_seed : Z -> RandomState)
    (RandomStreams_of_seed : Z -> RandomStreams)
    (input input_history : option matrix) (n_visible n_hidden delay : nat)
    (numpy_rng : option RandomState) (theano_rng : option RandomStreams) :
  let made :=
    CRBM__init__ RandomState normal randint RandomState_of_seed
      RandomStreams_of_seed input input_history n_visible n_hidden delay
      None None None None None numpy_rng theano_rng in
  let self := fst made in
  let rng := match numpy_rng with
             | None => RandomState_of_seed 1234%Z
             | Some rng => rng
             end in
  let rng0 := match theano_rng with
              | None => snd (randint (2 ^ 30)%Z rng)
              | Some _ => rng
              end in
  fits self n_visible delay
  /\ CRBM.n_hidden self = n_hidden
  /\ CRBM.hbias self = repeat 0 n_hidden
  /\ CRBM.vbias self = repeat 0 n_visible
  /\ exists w a b rng1 rng2,
       randn RandomState normal n_visible n_hidden rng0 = (w, rng1)
       /\ randn RandomState normal (n_visible * delay) n_visible rng1
          = (a, rng2)
       /\ randn RandomState normal (n_visible * delay) n_hidden rng2
          = (b, snd made)
       /\ CRBM.W self = 0.01 *m w
       /\ CRBM.A self = 0.01 *m a
       /\ CRBM.B self = 0.01 *m b.
Proof.
  intros made self rng rng0.
  assert (E : exists trng,
            made
            = let '(w, rng1) :=
                randn RandomState normal n_visible n_hidden rng0 in
              let '(a, rng2) :=
                randn RandomState normal (n_visible * delay) n_visible
                  rng1 in
              let '(b, rng3) :=
                randn RandomState normal (n_visible * delay) n_hidden
                  rng2 in
              (CRBM.mk n_visible n_hidden delay
                 match input with None => [] | Some i => i end
                 match input_history with None => [] | Some i => i end
                 (0.01 *m w) (0.01 *m a) (0.01 *m b)
                 (repeat 0 n_hidden) (repeat 0 n_visible) trng, rng3)).
  { subst made rng0 rng. unfold CRBM__init__, numpy_zeros.
    destruct theano_rng as [t|].
    - exists t.
      destruct (randn RandomState normal n_visible n_hidden _)
        as [w rng1].
      destruct (randn RandomState normal (n_visible * delay) n_visible
                  rng1) as [a rng2].
      destruct (randn RandomState normal (n_visible * delay) n_hidden
                  rng2) as [b rng3].
      reflexivity.
    - destruct (randint (2 ^ 30)%Z _) as [seed rng'].
      exists (RandomStreams_of_seed seed). cbn [snd].
      destruct (randn RandomState normal n_visible n_hidden rng')
        as [w rng1].
      destruct (randn RandomState normal (n_visible * delay) n_visible
                  rng1) as [a rng2].
      destruct (randn RandomState normal (n_visible * delay) n_hidden
                  rng2) as [b rng3].
      reflexivity. }
  destruct E as [trng E]. subst self. rewrite E. clear E made.
  pose proof (randn_shape normal n_visible n_hidden rng0) as HW.
  destruct (randn RandomState normal n_visible n_hidden rng0)
    as [w rng1] eqn:EW.
  pose proof (randn_shape normal (n_visible * delay) n_visible rng1)
    as HA.
  destruct (randn RandomState normal (n_visible * delay) n_visible rng1)
    as [a rng2] eqn:EA.
  pose proof (randn_shape normal (n_visible * delay) n_hidden rng2)
    as HB.
  destruct (randn RandomState normal (n_visible * delay) n_hidden rng2)
    as [b rng3] eqn:EB.
  cbn [fst snd] in *.
  split.
  { unfold fits, well_shaped.
    cbn [CRBM.n_visible CRBM.n_hidden CRBM.delay CRBM.W CRBM.A CRBM.B
         CRBM.hbias CRBM.vbias].
    rewrite !repeat_length.
    split; [|split; reflexivity].
    split; [apply has_shape_mscale; exact HW|].
    split; [apply has_shape_mscale; exact HA|].
    split; [apply has_shape_mscale; exact HB|].
    split; reflexivity. }
  split; [reflexivity|]. split; [reflexivity|]. split; [reflexivity|].
  exists w, a, b, rng1, rng2.
  split; [reflexivity|]. split; [exact EA|]. split; [exact EB|].
  repeat split.
Qed.

(** * What training leaves behind when it fails *)

Lemma map_seq_offset {Y : Type} (f : nat -> Y) (k n : nat) :
  map f (seq k n) = map (fun i => f (k + i)%nat) (seq 0 n).
Proof.
  revert k. induction n as [|n IH]; intros k; [reflexivity|].
  cbn [seq map]. f_equal; [f_equal; lia|].
  rewrite (IH (S k)), <- seq_shift, map_map.
  apply map_ext. intros i. f_equal. lia.
Qed.

Lemma range_split (a m b : Z) :
  (a <= m <= b)%Z -> range a b = range a m ++ range m b.
Proof.
  intros H. unfold range.
  replace (Z.to_nat (b - a))
    with (Z.to_nat (m - a) + Z.to_nat (b - m))%nat by lia.
  rewrite seq_app, map_app. f_equal.
  rewrite Nat.add_0_l, map_seq_offset.
  apply map_ext. intros i. lia.
Qed.

Lemma range_cons (a b : Z) :
  (a < b)%Z -> range a b = a :: range (a + 1) b.
Proof.
  intros H. replace b with (a + Z.of_nat (S (Z.to_nat (b - a - 1))))%Z
    by lia.
  rewrite range_S. do 2 f_equal. lia.
Qed.

Lemma train_batches_app (batchdata : matrix) (permindex : list Z)
    (batch_size : Z) (delay n_dim : nat) (learning_rate : R)
    (l1 l2 : list Z) (mean_cost : list R) (self : CRBM.t) :
  train_batches batchdata permindex batch_size delay n_dim learning_rate
    (l1 ++ l2) mean_cost self
  = match train_batches batchdata permindex batch_size delay n_dim
            learning_rate l1 mean_cost self with
    | (Done mean_cost', self') =>
        train_batches batchdata permindex batch_size delay n_dim
          learning_rate l2 mean_cost' self'
    | (Failed f, self') => (Failed f, self')
    end.
Proof.
  revert mean_cost self.
  induction l1 as [|b l1 IH]; intros mean_cost self; [reflexivity|].
  cbn [app train_batches].
  destruct (train_batch batchdata permindex batch_size delay n_dim
              learning_rate b self) as [[this_cost|f] self'];
    [apply IH|reflexivity].
Qed.

(** X16. When training stops on a short batch, the batches before it
    have been trained on.  Under the conditions of the failure, with
    [b0 = (seqlen - delay) / batch_size] the number of batches that the
    valid starting indices fill: [b0] is less than the number of
    batches, the first [b0] batches of the first epoch run and update
    the model, and the exception leaves the model as these [b0] updates
    made it. *)
Theorem failure_keeps_partial_training (batchdata : matrix)
    (permindex : list Z) (seqlen batch_size : Z) (delay n_dim : nat)
    (learning_rate : R) (training_epochs : Z) (self : CRBM.t) :
  Z.of_nat (length batchdata) = seqlen ->
  Forall (fun r => length r = n_dim) batchdata ->
  Permutation permindex (batchdataindex seqlen (Z.of_nat delay)) ->
  fits self n_dim delay ->
  (0 < batch_size <= seqlen)%Z -> (1 <= delay)%nat -> (1 <= n_dim)%nat ->
  (Z.of_nat delay < seqlen)%Z -> (0 < training_epochs)%Z ->
  (seqlen mod batch_size < Z.of_nat delay)%Z ->
  let b0 := ((seqlen - Z.of_nat delay) / batch_size)%Z in
  (0 <= b0 < seqlen / batch_size)%Z
  /\ exists costs self',
       train_batches batchdata permindex batch_size delay n_dim
         learning_rate (range 0 b0) [] self
       = (Done costs, self')
       /\ length costs = Z.to_nat b0
       /\ train_epochs batchdata permindex batch_size delay n_dim
            learning_rate (seqlen / batch_size)
            (range 0 training_epochs) self
          = (Failed (Raised ValueError), self').
Proof.
  intros <- Ha Hperm Hself Hs Hdelay Hdim Hlt Hepochs Hmod b0.
  set (seqlen := Z.of_nat (length batchdata)) in *.
  pose proof (permindex_length _ _ _ Hperm) as Hlen.
  pose proof (permindex_nonempty _ _ _ Hperm Hlt) as Hne.
  pose proof (Z.div_mod seqlen batch_size ltac:(lia)) as Hdm.
  pose proof (Z.mod_pos_bound seqlen batch_size ltac:(lia)) as Hmb.
  pose proof (Z.div_mod (seqlen - Z.of_nat delay) batch_size ltac:(lia))
    as Hdm0.
  pose proof (Z.mod_pos_bound (seqlen - Z.of_nat delay) batch_size
                ltac:(lia)) as Hmb0.
  fold b0 in Hdm0.
  assert (Hb0 : (0 <= b0 < seqlen / batch_size)%Z).
  { split; [apply Z.div_pos; lia|]. nia. }
  split; [exact Hb0|].
  assert (Hpos : forall l, Forall (fun b => (0 <= b)%Z) (range 0 l)).
  { intros l. apply Forall_forall. intros b Hb.
    apply In_range in Hb. lia. }
  assert (Hfull : Forall (fun b =>
                     length (data_idx permindex batch_size b)
                     = Z.to_nat batch_size) (range 0 b0)).
  { apply Forall_forall. intros b Hb. apply In_range in Hb.
    apply data_idx_full; [lia|lia|]. rewrite Hlen. nia. }
  destruct (proj1 (train_batches_run batchdata permindex batch_size
                     delay n_dim learning_rate (range 0 b0)
                     Ha Hperm ltac:(lia) Hdelay Hdim Hne (Hpos b0)
                     [] self Hself) Hfull)
    as (costs & self' & Hrun & Hcosts & _ & Hself').
  exists costs, self'. split; [exact Hrun|].
  split; [rewrite Hcosts, range_length; f_equal; lia|].
  assert (Hshort : length (data_idx permindex batch_size b0)
                   <> Z.to_nat batch_size).
  { intros E. apply data_idx_full in E; [|lia|lia].
    rewrite Hlen in E. nia. }
  rewrite (range_cons 0 training_epochs Hepochs).
  cbn [train_epochs].
  rewrite (range_split 0 b0 (seqlen / batch_size)) by lia.
  rewrite train_batches_app, Hrun.
  rewrite (range_cons b0 (seqlen / batch_size)) by lia.
  cbn [train_batches].
  rewrite (train_batch_short batchdata permindex batch_size delay n_dim
             learning_rate b0 self' Ha Hperm ltac:(lia) Hdelay Hdim Hne
             ltac:(lia) Hshort).
  reflexivity.
Qed.

Lemma failure_keeps_partial_training_witness :
  let b0 := ((4 - Z.of_nat 1) / 2)%Z in
  (0 <= b0 < 4 / 2)%Z
  /\ exists costs self',
       train_batches [[0]; [1]; [2]; [3]] [2; 1; 3]%Z 2 1 1 (1 / 10)
         (range 0 b0) [] demo
       = (Done costs, self')
       /\ length costs = Z.to_nat b0
       /\ train_epochs [[0]; [1]; [2]; [3]] [2; 1; 3]%Z 2 1 1 (1 / 10)
            (4 / 2) (range 0 2) demo
          = (Failed (Raised ValueError), self').
Proof.
  apply (failure_keeps_partial_training [[0]; [1]; [2]; [3]]
           [2; 1; 3]%Z 4 2 1 1 (1 / 10) 2 demo).
  - reflexivity.
  - repeat constructor.
  - rewrite batchdataindex_range.
    change (range (Z.of_nat 1) 4) with [1; 2; 3]%Z. apply perm_swap.
  - exact demo_fits.
  - lia.
  - lia.
  - lia.
  - simpl. lia.
  - lia.
  - change (4 mod 2)%Z with 0%Z. simpl. lia.
Defined.

(** * A perfect reconstruction *)






(** * The updates of CD-k from the statistics of the chain *)

Lemma madd_comm (a b : matrix) : a +m b = b +m a.
Proof.
  revert b. induction a as [|r a IH]; intros [|t b];
    rewrite ?madd_nil_l, ?madd_nil_r; try reflexivity.
  rewrite !madd_cons, IH, vadd_comm. reflexivity.
Qed.

Lemma madd_assoc (a b c : matrix) : (a +m b) +m c = a +m (b +m c).
Proof.
  revert b c. induction a as [|r a IH]; intros b c.
  - rewrite !madd_nil_l. reflexivity.
  - destruct b as [|t b]; [rewrite madd_nil_r, madd_nil_l; reflexivity|].
    destruct c as [|u c]; [rewrite !madd_nil_r; reflexivity|].
    rewrite !madd_cons, IH, vadd_assoc. reflexivity.
Qed.

Lemma mscale_cons (s : R) (r : vector) (a : matrix) :
  s *m (r :: a) = vscale s r :: s *m a.
Proof. reflexivity. Qed.

Lemma mscale_madd (s : R) (a b : matrix) :
  s *m (a +m b) = s *m a +m s *m b.
Proof.
  revert b. induction a as [|r a IH]; intros [|t b].
  - reflexivity.
  - change (s *m []) with (@nil vector). rewrite !madd_nil_l. reflexivity.
  - change (s *m []) with (@nil vector). rewrite !madd_nil_r. reflexivity.
  - rewrite madd_cons, !mscale_cons, madd_cons, IH, vscale_vadd.
    reflexivity.
Qed.

Lemma mmap_opp (a : matrix) : mmap Ropp a = (- 1) *m a.
Proof.
  unfold mscale, mmap. apply map_ext. intros r.
  apply map_ext. intros x. ring.
Qed.

Lemma mscale_msub (s : R) (a b : matrix) :
  s *m a -m s *m b = s *m (a -m b).
Proof.
  rewrite !msub_madd, mscale_madd, !mscale_mscale.
  do 2 f_equal. ring.
Qed.

Lemma mscale_opp_msub (s : R) (p q : matrix) :
  s *m ((- 1) *m p) -m s *m ((- 1) *m q) = s *m (q -m p).
Proof.
  rewrite mscale_msub. f_equal.
  rewrite !msub_madd, mscale_mscale, madd_comm. f_equal.
  replace (- 1 * - 1) with 1 by ring.
  unfold mscale, mmap. rewrite <- (map_id q) at 2.
  apply map_ext. intros r. rewrite <- (map_id r) at 2.
  apply map_ext. intros x. ring.
Qed.

Lemma outer_cons (x : R) (r e : vector) :
  CRBM.outer (x :: r) e = vscale x e :: CRBM.outer r e.
Proof. reflexivity. Qed.

Lemma outer_vadd (r s t : vector) :
  CRBM.outer r (vadd s t) = CRBM.outer r s +m CRBM.outer r t.
Proof.
  induction r as [|x r IH]; [reflexivity|].
  rewrite !outer_cons, madd_cons, IH, vscale_vadd. reflexivity.
Qed.

Lemma outer_vscale (c : R) (r s : vector) :
  CRBM.outer r (vscale c s) = c *m CRBM.outer r s.
Proof.
  induction r as [|x r IH]; [reflexivity|].
  rewrite !outer_cons, mscale_cons, IH, vscale_vscale. reflexivity.
Qed.

Lemma tdot_mscale (c : R) (x b : matrix) :
  CRBM.tdot x (c *m b) = c *m CRBM.tdot x b.
Proof.
  revert b. induction x as [|r x IH]; intros [|s b]; try reflexivity.
  rewrite mscale_cons. cbn [CRBM.tdot].
  rewrite IH, outer_vscale, mscale_madd. reflexivity.
Qed.

Lemma tdot_madd (h a b : matrix) :
  length a = length b ->
  CRBM.tdot h (a +m b) = CRBM.tdot h a +m CRBM.tdot h b.
Proof.
  revert a b. induction h as [|r h IH]; intros [|s a] [|t b] Hlen;
    try discriminate Hlen; try reflexivity.
  injection Hlen as Hlen. rewrite madd_cons. cbn [CRBM.tdot].
  rewrite (IH a b Hlen), outer_vadd.
  rewrite !madd_assoc. f_equal.
  rewrite <- !madd_assoc. f_equal. apply madd_comm.
Qed.

Lemma tdot_msub (h a b : matrix) :
  length a = length b ->
  CRBM.tdot h (a -m b) = CRBM.tdot h a -m CRBM.tdot h b.
Proof.
  intros Hlen. rewrite !msub_madd, tdot_madd, tdot_mscale;
    [reflexivity|].
  unfold mscale, mmap. rewrite length_map. exact Hlen.
Qed.

Lemma sum_axis0_cons (r : vector) (a : matrix) :
  CRBM.sum_axis0 (r :: a) = vadd r (CRBM.sum_axis0 a).
Proof. reflexivity. Qed.

Lemma sum_axis0_mscale (c : R) (a : matrix) :
  CRBM.sum_axis0 (c *m a) = vscale c (CRBM.sum_axis0 a).
Proof.
  induction a as [|r a IH]; [reflexivity|].
  rewrite mscale_cons, !sum_axis0_cons, IH, vscale_vadd. reflexivity.
Qed.

Lemma sum_axis0_msub (a b : matrix) :
  length a = length b ->
  CRBM.sum_axis0 (a -m b)
  = vsub (CRBM.sum_axis0 a) (CRBM.sum_axis0 b).
Proof.
  revert b. induction a as [|r a IH]; intros [|t b] Hlen;
    try discriminate Hlen; [reflexivity|].
  injection Hlen as Hlen.
  change ((r :: a) -m (t :: b)) with (vsub r t :: (a -m b)).
  rewrite !sum_axis0_cons, (IH b Hlen). vector_eq.
Qed.

Lemma residual_row (x c a : vector) :
  length x = length a -> length c = length a ->
  vsub (map Ropp (vsub x a)) (map Ropp (vsub c a)) = vsub c x.
Proof.
  revert c a. induction x as [|y x IH]; intros [|z c] [|b a] Hx Hc;
    try discriminate Hx; try discriminate Hc; [reflexivity|].
  injection Hx as Hx. injection Hc as Hc.
  change (vsub (map Ropp (vsub (y :: x) (b :: a)))
            (map Ropp (vsub (z :: c) (b :: a))))
    with ((- (y - b) - - (z - b))
          :: vsub (map Ropp (vsub x a)) (map Ropp (vsub c a))).
  rewrite (IH c a Hx Hc).
  change (vsub (z :: c) (y :: x)) with ((z - y) :: vsub c x).
  f_equal. ring.
Qed.

Lemma residual_rows (x c a : matrix) :
  shape x = shape a -> shape c = shape a ->
  mmap Ropp (x -m a) -m mmap Ropp (c -m a) = c -m x.
Proof.
  revert c a. induction x as [|y x IH]; intros [|z c] [|b a] Hx Hc;
    try discriminate Hx; try discriminate Hc; [reflexivity|].
  change (length y :: shape x = length b :: shape a) in Hx.
  change (length z :: shape c = length b :: shape a) in Hc.
  injection Hx as Hy Hx. injection Hc as Hz Hc.
  change (mmap Ropp ((y :: x) -m (b :: a))
          -m mmap Ropp ((z :: c) -m (b :: a)))
    with (vsub (map Ropp (vsub y b)) (map Ropp (vsub z b))
          :: (mmap Ropp (x -m a) -m mmap Ropp (c -m a))).
  rewrite (IH c a Hx Hc), (residual_row y z b Hy Hz). reflexivity.
Qed.

Lemma ax_b_shape (self : CRBM.t) (v_history : matrix) :
  well_shaped self ->
  has_shape (length v_history) (CRBM.n_visible self)
    (T.dot v_history (CRBM.A self) +r CRBM.vbias self).
Proof.
  intros Hself. unfold T.dot, add_row. rewrite map_map. split.
  - apply length_map.
  - apply Forall_forall. intros r Hr.
    apply in_map_iff in Hr. destruct Hr as (h & <- & _).
    apply (ax_row_length self h Hself).
Qed.

Lemma gibbs_hvh_hidden (h v_history : matrix) (self self' : CRBM.t)
    (o : CRBM.outputs) :
  CRBM.gibbs_hvh h v_history self = (Ok o, self') ->
  CRBM.out4 o = snd (CRBM.propup self (CRBM.out2 o) v_history).
Proof.
  unfold CRBM.gibbs_hvh.
  rewrite (bind_ok (CRBM.sample_v_given_h h v_history) _ self self
             (CRBM.propdown self h v_history,
              CRBM.propdown self h v_history) eq_refl).
  cbv beta iota.
  destruct (sample_h_given_v_run self (CRBM.propdown self h v_history)
              v_history) as (s & Hrun & _).
  rewrite (bind_ok _ _ _ _ _ Hrun). cbv beta iota.
  unfold CRBM.ret. intros Ho. injection Ho as <- _. reflexivity.
Qed.

Lemma gibbs_chain_hidden (n : nat) (self self' : CRBM.t)
    (o : CRBM.outputs) :
  gibbs_chain (S n) self = (Ok o, self') ->
  CRBM.out4 o
  = snd (CRBM.propup self (CRBM.out2 o) (CRBM.input_history self)).
Proof.
  unfold gibbs_chain.
  rewrite (bind_ok CRBM.get_self _ self self self eq_refl).
  destruct (total_run _ self
              (total_sample_h_given_v (CRBM.input self)
                 (CRBM.input_history self)))
    as ([[a p] ph] & self1 & Hph).
  rewrite (bind_ok _ _ _ _ _ Hph). cbn [snd].
  destruct (only_rng_run _ _ _ _
              (only_rng_sample_h_given_v _ _) Hph) as [rng1 ->].
  destruct (total_run _ (CRBM.set_theano_rng self rng1)
              (total_iterate (CRBM.input_history self) (S n - 1) ph))
    as (h & self2 & Hit).
  rewrite (bind_ok _ _ _ _ _ Hit).
  destruct (only_rng_run _ _ _ _
              (only_rng_iterate _ _ _) Hit) as [rng2 ->].
  intros Ho. apply gibbs_hvh_hidden in Ho. exact Ho.
Qed.

Lemma mmap_opp_sigmoid (a : matrix) :
  mmap (fun x => - T.sigmoid1 x) a = (- 1) *m T.sigmoid a.
Proof.
  unfold T.sigmoid, mscale, mmap. rewrite map_map.
  apply map_ext. intros r. rewrite map_map.
  apply map_ext. intros x. ring.
Qed.

Lemma cd_step_hidden_matrix (lr s : R) (w x c p q : matrix) :
  w -m lr *m (s *m CRBM.tdot x (mmap (fun t => - T.sigmoid1 t) p)
              -m s *m CRBM.tdot c (mmap (fun t => - T.sigmoid1 t) q))
  = w -m (lr * s) *m (CRBM.tdot c (T.sigmoid q)
                      -m CRBM.tdot x (T.sigmoid p)).
Proof.
  rewrite !mmap_opp_sigmoid, !tdot_mscale, mscale_opp_msub,
    mscale_mscale. reflexivity.
Qed.

Lemma cd_step_hidden_vector (lr s : R) (b : vector) (p q : matrix) :
  vsub b (vscale lr
            (vsub (vscale s (CRBM.sum_axis0
                               (mmap (fun t => - T.sigmoid1 t) p)))
                  (vscale s (CRBM.sum_axis0
                               (mmap (fun t => - T.sigmoid1 t) q)))))
  = vsub b (vscale (lr * s)
              (vsub (CRBM.sum_axis0 (T.sigmoid q))
                    (CRBM.sum_axis0 (T.sigmoid p)))).
Proof.
  rewrite !mmap_opp_sigmoid, !sum_axis0_mscale. vector_eq.
Qed.

Lemma cd_step_visible_matrix (lr s : R) (a h x c ax : matrix) :
  shape x = shape ax -> shape c = shape ax ->
  a -m lr *m (0.01 *m (s *m CRBM.tdot h (mmap Ropp (x -m ax))
                       -m s *m CRBM.tdot h (mmap Ropp (c -m ax))))
  = a -m (0.01 * (lr * s)) *m CRBM.tdot h (c -m x).
Proof.
  intros Hx Hc.
  rewrite mscale_msub, <- tdot_msub, (residual_rows x c ax Hx Hc).
  - rewrite !mscale_mscale. do 2 f_equal. ring.
  - unfold mmap, msub. rewrite !length_map, !mewise_length.
    rewrite (shape_length _ _ Hx), (shape_length _ _ Hc). reflexivity.
Qed.

Lemma cd_step_visible_vector (lr s : R) (b : vector) (x c ax : matrix) :
  shape x = shape ax -> shape c = shape ax ->
  vsub b (vscale lr
            (vsub (vscale s (CRBM.sum_axis0 (mmap Ropp (x -m ax))))
                  (vscale s (CRBM.sum_axis0 (mmap Ropp (c -m ax))))))
  = vsub b (vscale (lr * s) (CRBM.sum_axis0 (c -m x))).
Proof.
  intros Hx Hc.
  rewrite <- (residual_rows x c ax Hx Hc), sum_axis0_msub.
  - vector_eq.
  - unfold mmap, msub. rewrite !length_map, !mewise_length.
    rewrite (shape_length _ _ Hx), (shape_length _ _ Hc). reflexivity.
Qed.

(** X18. The updates that [get_cost_updates] builds from [T.grad] are
    the rule of contrastive divergence on the statistics of the chain.
    On a well-shaped model and batch [x] with histories [h] of [n]
    rows, for [k >= 1], with [ph_mean] the hidden probabilities of the
    input, [chain_end] the visible sample of the last Gibbs step and
    [nh_mean] its hidden probabilities, which are those of [propup] at
    the chain end, and [rate = lr / n]:
    [W - rate * (chain_end.T nh_mean - x.T ph_mean)],
    [B - rate * (h.T nh_mean - h.T ph_mean)],
    [hbias - rate * (sum nh_mean - sum ph_mean)],
    [vbias - rate * sum (chain_end - x)] and
    [A - 0.01 * rate * h.T (chain_end - x)], the sums being over the
    rows.  The steps of [vbias] and [A] depend on the parameters
    through the chain end only. *)
Theorem cd_updates_from_statistics (lr : R) (k : Z) (self : CRBM.t) :
  well_shaped self -> well_shaped_input self -> (1 <= k)%Z ->
  exists monitoring_cost upd self' o,
    let x := CRBM.input self in
    let h := CRBM.input_history self in
    let ph_mean := snd (CRBM.propup self x h) in
    let chain_end := CRBM.out2 o in
    let nh_mean := CRBM.out4 o in
    let rate := lr / INR (length x) in
    CRBM.get_cost_updates lr k self = (Ok (monitoring_cost, upd), self')
    /\ gibbs_chain (Z.to_nat k) self = (Ok o, self')
    /\ nh_mean = snd (CRBM.propup self chain_end h)
    /\ dict_get upd (Param pW)
       = Some (NewTensor (Matrix
           (CRBM.W self
            -m rate *m (CRBM.tdot chain_end nh_mean
                        -m CRBM.tdot x ph_mean))))
    /\ dict_get upd (Param pB)
       = Some (NewTensor (Matrix
           (CRBM.B self
            -m rate *m (CRBM.tdot h nh_mean -m CRBM.tdot h ph_mean))))
    /\ dict_get upd (Param phbias)
       = Some (NewTensor (Vector
           (vsub (CRBM.hbias self)
              (vscale rate
                 (vsub (CRBM.sum_axis0 nh_mean)
                       (CRBM.sum_axis0 ph_mean))))))
    /\ dict_get upd (Param pvbias)
       = Some (NewTensor (Vector
           (vsub (CRBM.vbias self)
              (vscale rate (CRBM.sum_axis0 (chain_end -m x))))))
    /\ dict_get upd (Param pA)
       = Some (NewTensor (Matrix
           (CRBM.A self
            -m (0.01 * rate) *m CRBM.tdot h (chain_end -m x)))).
Proof.
  intros Hself Hin Hk.
  destruct (Z.to_nat k) as [|n] eqn:En; [lia|].
  assert (Ek : k = Z.of_nat (S n)) by lia. subst k.
  destruct (get_cost_updates_run lr n self) as (o & self' & Hchain & Hrun).
  destruct (only_rng_run _ _ _ _ (only_rng_gibbs_chain (S n)) Hchain)
    as [rng ->].
  assert (Hlen : length (CRBM.input self)
                 = length (CRBM.input_history self))
    by (symmetry; apply Hin).
  pose proof (gibbs_chain_end_shape n _ _ _ Hchain Hself Hlen) as Hc.
  pose proof (gibbs_chain_hidden n _ _ _ Hchain) as Hnh.
  pose proof (ax_b_shape self (CRBM.input_history self) Hself) as Hax.
  rewrite <- Hlen in Hax.
  assert (Hx : has_shape (length (CRBM.input self)) (CRBM.n_visible self)
                 (CRBM.input self))
    by (split; [reflexivity|apply Hin]).
  apply has_shape_shape in Hax, Hx.
  pose proof (has_shape_shape _ _ _ Hc) as Hcs.
  assert (Hxa : shape (CRBM.input self)
                = shape (T.dot (CRBM.input_history self) (CRBM.A self)
                         +r CRBM.vbias self)) by congruence.
  assert (Hca : shape (CRBM.out2 o)
                = shape (T.dot (CRBM.input_history self) (CRBM.A self)
                         +r CRBM.vbias self)) by congruence.
  eexists. eexists. exists (CRBM.set_theano_rng self rng), o.
  cbv zeta.
  split.
  { rewrite Hrun. unfold cd_result.
    rewrite (bind_ok CRBM.get_self _ _ _ _ eq_refl). reflexivity. }
  split; [exact Hchain|]. split; [exact Hnh|].
  rewrite Hnh.
  change (CRBM.T_grad (CRBM.set_theano_rng self rng) (CRBM.out2 o))
    with (CRBM.T_grad self (CRBM.out2 o)).
  unfold CRBM.T_grad, CRBM.grad_mean_free_energy.
  rewrite (proj1 Hc).
  cbn [CRBM.tensors_sub tensor_sub combine CRBM.params fold_left
       CRBM.update_rule shared_eqb parameter_eqb dict_set dict_get
       CRBM.value tensor_mul CRBM.set_theano_rng
       CRBM.W CRBM.A CRBM.B CRBM.hbias CRBM.vbias CRBM.input
       CRBM.input_history].
  rewrite !mmap_mul_r, !map_mul_r.
  replace (lr / INR (length (CRBM.input self)))
    with (lr * (1 / INR (length (CRBM.input self))))
    by (unfold Rdiv; ring).
  split; [do 3 f_equal; apply cd_step_hidden_matrix|].
  split; [do 3 f_equal; apply cd_step_hidden_matrix|].
  split; [do 3 f_equal; apply cd_step_hidden_vector|].
  split; [do 3 f_equal; apply (cd_step_visible_vector _ _ _ _ _ _
                                 Hxa Hca)|].
  do 3 f_equal. apply (cd_step_visible_matrix _ _ _ _ _ _ _ Hxa Hca).
Qed.

Lemma cd_updates_from_statistics_witness :
  exists monitoring_cost upd self' o,
    let x := CRBM.input model2 in
    let h := CRBM.input_history model2 in
    let ph_mean := snd (CRBM.propup model2 x h) in
    let chain_end := CRBM.out2 o in
    let nh_mean := CRBM.out4 o in
    let rate := (1 / 10) / INR (length x) in
    CRBM.get_cost_updates (1 / 10) 2 model2
    = (Ok (monitoring_cost, upd), self')
    /\ gibbs_chain (Z.to_nat 2) model2 = (Ok o, self')
    /\ nh_mean = snd (CRBM.propup model2 chain_end h)
    /\ dict_get upd (Param pW)
       = Some (NewTensor (Matrix
           (CRBM.W model2
            -m rate *m (CRBM.tdot chain_end nh_mean
                        -m CRBM.tdot x ph_mean))))
    /\ dict_get upd (Param pB)
       = Some (NewTensor (Matrix
           (CRBM.B model2
            -m rate *m (CRBM.tdot h nh_mean -m CRBM.tdot h ph_mean))))
    /\ dict_get upd (Param phbias)
       = Some (NewTensor (Vector
           (vsub (CRBM.hbias model2)
              (vscale rate
                 (vsub (CRBM.sum_axis0 nh_mean)
                       (CRBM.sum_axis0 ph_mean))))))
    /\ dict_get upd (Param pvbias)
       = Some (NewTensor (Vector
           (vsub (CRBM.vbias model2)
              (vscale rate (CRBM.sum_axis0 (chain_end -m x))))))
    /\ dict_get upd (Param pA)
       = Some (NewTensor (Matrix
           (CRBM.A model2
            -m (0.01 * rate) *m CRBM.tdot h (chain_end -m x)))).
Proof.
  apply (cd_updates_from_statistics (1 / 10) 2 model2).
  - apply model2_well_shaped.
  - apply model2_well_shaped.
  - lia.
Defined.

(** * The update is a descent direction *)

Lemma vdot_self_nonneg (u : vector) : 0 <= vdot u u.
Proof.
  induction u as [|x u IH]; [rewrite vdot_nil_l; lra|].
  rewrite vdot_cons. pose proof (Rle_0_sqr x) as Hx.
  unfold Rsqr in Hx. lra.
Qed.

Lemma mdot_self_nonneg (a : matrix) : 0 <= mdot a a.
Proof.
  induction a as [|r a IH]; [simpl; lra|].
  cbn [mdot]. pose proof (vdot_self_nonneg r). lra.
Qed.

Lemma mdot_mscale_r (c : R) (a d : matrix) :
  mdot a (c *m d) = c * mdot a d.
Proof.
  revert d. induction a as [|r a IH]; intros [|t d];
    try (simpl; lra).
  rewrite mscale_cons. cbn [mdot]. rewrite IH, vdot_vscale_r. ring.
Qed.

Lemma step_matrix (w g : matrix) (c : R) :
  w +m 1 *m ((- c) *m g) = w -m c *m g.
Proof.
  rewrite msub_madd, !mscale_mscale. do 2 f_equal. ring.
Qed.

Lemma step_vector (b g : vector) (c : R) :
  vadd b (vscale 1 (vscale (- c) g)) = vsub b (vscale c g).
Proof. vector_eq. Qed.

(** X19. The step of [get_cost_updates] is a descent direction of the
    cost of which it takes the gradient.  On a well-shaped model and
    batch, for [k >= 1] and a learning rate that is not negative: the
    new parameters are the current ones moved along the direction
    [d = (- lr g_W, - 0.01 lr g_A, - lr g_B, - lr g_hbias,
    - lr g_vbias)], and the derivative along [d] of the CD cost, the
    chain end held constant, exists and is
    [- lr (|g_W|^2 + 0.01 |g_A|^2 + |g_B|^2 + |g_hbias|^2 +
    |g_vbias|^2)], which is zero or less: slowing [A] down keeps the
    step a descent. *)
Theorem update_is_descent_direction (lr : R) (k : Z) (self : CRBM.t) :
  well_shaped self -> well_shaped_input self -> (1 <= k)%Z -> 0 <= lr ->
  exists monitoring_cost upd self' o gW gA gB gh gv,
    let d := mkDirection ((- lr) *m gW) ((- (0.01 * lr)) *m gA)
               ((- lr) *m gB) (vscale (- lr) gh) (vscale (- lr) gv) in
    let slope :=
      - lr * (mdot gW gW + 0.01 * mdot gA gA + mdot gB gB
              + vdot gh gh + vdot gv gv) in
    CRBM.get_cost_updates lr k self = (Ok (monitoring_cost, upd), self')
    /\ gibbs_chain (Z.to_nat k) self = (Ok o, self')
    /\ CRBM.T_grad self (CRBM.out2 o)
       = [Matrix gW; Matrix gA; Matrix gB; Vector gh; Vector gv]
    /\ direction_of self d
    /\ (forall p,
          dict_get upd (Param p)
          = Some (NewTensor (CRBM.value (shift self 1 d) p)))
    /\ derivable_pt_lim
         (fun s => CRBM.cost (shift self s d) (CRBM.out2 o)) 0 slope
    /\ slope <= 0.
Proof.
  intros Hself Hin Hk Hlr.
  destruct (Z.to_nat k) as [|n] eqn:En; [lia|].
  assert (Ek : k = Z.of_nat (S n)) by lia. subst k.
  destruct (get_cost_updates_run lr n self) as (o & self' & Hchain & Hrun).
  destruct (only_rng_run _ _ _ _ (only_rng_gibbs_chain (S n)) Hchain)
    as [rng ->].
  assert (Hlen : length (CRBM.input self)
                 = length (CRBM.input_history self))
    by (symmetry; apply Hin).
  pose proof (gibbs_chain_end_shape n _ _ _ Hchain Hself Hlen) as Hc.
  destruct (T_grad_is_gradient self (CRBM.out2 o) Hself Hin Hc)
    as (gW & gA & gB & gh & gv & Eg & EW & EA & EB & Eh & Ev & HD).
  eexists. eexists. exists (CRBM.set_theano_rng self rng), o.
  exists gW, gA, gB, gh, gv. cbv zeta.
  set (d := mkDirection ((- lr) *m gW) ((- (0.01 * lr)) *m gA)
              ((- lr) *m gB) (vscale (- lr) gh) (vscale (- lr) gv)).
  assert (Hd : direction_of self d).
  { destruct Hself as (HW & HA & HB & Hh & Hv).
    unfold direction_of, d. cbn [dW dA dB dhbias dvbias].
    rewrite !vscale_length, Eh, Ev.
    split; [apply has_shape_mscale, shape_has_shape; rewrite EW;
            apply has_shape_shape; exact HW|].
    split; [apply has_shape_mscale, shape_has_shape; rewrite EA;
            apply has_shape_shape; exact HA|].
    split; [apply has_shape_mscale, shape_has_shape; rewrite EB;
            apply has_shape_shape; exact HB|].
    split; assumption. }
  split.
  { rewrite Hrun. unfold cd_result.
    rewrite (bind_ok CRBM.get_self _ _ _ _ eq_refl).
    change (CRBM.T_grad (CRBM.set_theano_rng self rng) (CRBM.out2 o))
      with (CRBM.T_grad self (CRBM.out2 o)).
    rewrite Eg. reflexivity. }
  split; [exact Hchain|]. split; [exact Eg|]. split; [exact Hd|].
  split.
  { cbn [combine CRBM.params fold_left CRBM.update_rule shared_eqb
         parameter_eqb dict_set
         CRBM.value tensor_sub tensor_mul CRBM.set_theano_rng
         CRBM.W CRBM.A CRBM.B CRBM.hbias CRBM.vbias].
    rewrite !mmap_mul_r, !map_mul_r, !mscale_mscale.
    intros [ | | | | ];
      cbn [dict_get shared_eqb parameter_eqb CRBM.value shift d
           CRBM.W CRBM.A CRBM.B CRBM.hbias CRBM.vbias
           dW dA dB dhbias dvbias];
      do 3 f_equal; symmetry.
    - apply step_matrix.
    - rewrite step_matrix. do 2 f_equal. ring.
    - apply step_matrix.
    - apply step_vector.
    - apply step_vector. }
  split.
  { replace (- lr * (mdot gW gW + 0.01 * mdot gA gA + mdot gB gB
                     + vdot gh gh + vdot gv gv))
      with (mdot gW (dW d) + mdot gA (dA d) + mdot gB (dB d)
            + vdot gh (dhbias d) + vdot gv (dvbias d)).
    - apply (HD d Hd).
    - unfold d. cbn [dW dA dB dhbias dvbias].
      rewrite !mdot_mscale_r, !vdot_vscale_r. ring. }
  pose proof (mdot_self_nonneg gW). pose proof (mdot_self_nonneg gA).
  pose proof (mdot_self_nonneg gB). pose proof (vdot_self_nonneg gh).
  pose proof (vdot_self_nonneg gv). nra.
Qed.

Lemma update_is_descent_direction_witness :
  exists monitoring_cost upd self' o gW gA gB gh gv,
    let d := mkDirection ((- (1 / 10)) *m gW)
               ((- (0.01 * (1 / 10))) *m gA)
               ((- (1 / 10)) *m gB) (vscale (- (1 / 10)) gh)
               (vscale (- (1 / 10)) gv) in
    let slope :=
      - (1 / 10) * (mdot gW gW + 0.01 * mdot gA gA + mdot gB gB
                    + vdot gh gh + vdot gv gv) in
    CRBM.get_cost_updates (1 / 10) 2 model2
    = (Ok (monitoring_cost, upd), self')
    /\ gibbs_chain (Z.to_nat 2) model2 = (Ok o, self')
    /\ CRBM.T_grad model2 (CRBM.out2 o)
       = [Matrix gW; Matrix gA; Matrix gB; Vector gh; Vector gv]
    /\ direction_of model2 d
    /\ (forall p,
          dict_get upd (Param p)
          = Some (NewTensor (CRBM.value (shift model2 1 d) p)))
    /\ derivable_pt_lim
         (fun s => CRBM.cost (shift model2 s d) (CRBM.out2 o)) 0 slope
    /\ slope <= 0.
Proof.
  apply (update_is_descent_direction (1 / 10) 2 model2).
  - apply model2_well_shaped.
  - apply model2_well_shaped.
  - lia.
  - lra.
Defined.
